(** * AI meeting notes generator: the action-item extractor and the upload handler

    A shallow embedding of [services/llm_service.py] (class [LLMService]) and of
    the [/process_audio] route of [app/main.py], with the properties of the
    written specification stated and proved against it.

    Python values are modelled as follows.
    - A [str] is the list of its code points ([pystr]).
    - An exception is a value of an error type; a function that may raise
      returns a [result].
    - The dictionaries built for action items have the four fixed keys
      [description], [assignee], [due_date], [priority]: a record.
    - [print] calls write to the process log only and are left out. *)

From Stdlib Require Import String Ascii.
From Stdlib Require Import List NArith ZArith Bool Lia Arith.
From Stdlib Require DecimalString.
From Stdlib Require Import Permutation Sorted.
Import ListNotations.

Set Implicit Arguments.

(* ================================================================== *)
(** ** Python strings *)
(* ================================================================== *)

Module Py.

Local Open Scope N_scope.

(** A Python [str]: the sequence of its Unicode code points. *)
Definition pystr := list N.

(** [cp "text"] is the Python literal ['text'], for an ASCII text.  Inside
    the literal a backquote stands for the double quote character
    (U+0022). *)
Definition cp_char (a : ascii) : N :=
  let n := N_of_ascii a in if n =? 96 then 34 else n.

Fixpoint cp (s : string) : pystr :=
  match s with
  | EmptyString => []
  | String a r => cp_char a :: cp r
  end.

Arguments cp : simpl never.

Definition pystr_eqb (a b : pystr) : bool :=
  if list_eq_dec N.eq_dec a b then true else false.

(** [bool(s)] for a string: true when the string is not empty. *)
Definition truthy (s : pystr) : bool :=
  match s with [] => false | _ :: _ => true end.

(** [str.isspace] on one code point ([Py_UNICODE_ISSPACE]); this is also the
    class [\s] of [re] on [str] patterns. *)
Definition isspace (c : N) : bool :=
  ((9 <=? c) && (c <=? 13)) || ((28 <=? c) && (c <=? 32))
  || (c =? 0x85) || (c =? 0xA0) || (c =? 0x1680)
  || ((0x2000 <=? c) && (c <=? 0x200A))
  || (c =? 0x2028) || (c =? 0x2029) || (c =? 0x202F)
  || (c =? 0x205F) || (c =? 0x3000).

Fixpoint lstrip (s : pystr) : pystr :=
  match s with
  | [] => []
  | c :: r => if isspace c then lstrip r else s
  end.

Definition rstrip (s : pystr) : pystr := rev (lstrip (rev s)).

(** [s.strip()] *)
Definition strip (s : pystr) : pystr := rstrip (lstrip s).

(** [s.startswith(p)] *)
Fixpoint startswith (p s : pystr) : bool :=
  match p, s with
  | [], _ => true
  | _ :: _, [] => false
  | a :: p', b :: s' => (a =? b) && startswith p' s'
  end.

(** [sub in s] *)
Fixpoint contains (sub s : pystr) : bool :=
  startswith sub s ||
  match s with
  | [] => false
  | _ :: r => contains sub r
  end.

(** [s.lower()], one code point at a time.  The source uses [lower] only to
    test whether the result contains ['action'].  The letters A-Z go to a-z;
    outside ASCII only U+0130 (to [i] followed by U+0307) and U+212A (to [k])
    lowercase to something that holds an ASCII letter.  Every other code
    point lowercases to code points outside ASCII and is kept as it is here,
    which leaves the test unchanged. *)
Definition lower_cp (c : N) : pystr :=
  if (65 <=? c) && (c <=? 90) then [c + 32]
  else if c =? 0x130 then [105; 0x307]
  else if c =? 0x212A then [107]
  else [c].

Definition lower (s : pystr) : pystr := flat_map lower_cp s.

(** [s.split('\n')]: never empty; a text without a newline is one line. *)
Fixpoint split_lines (s : pystr) : list pystr :=
  match s with
  | [] => [[]]
  | c :: r =>
      if c =? 10 then [] :: split_lines r
      else match split_lines r with
           | l :: ls => (c :: l) :: ls
           | [] => [[c]]
           end
  end.

(** ['\n'.join(lines)] *)
Fixpoint join_lines (ls : list pystr) : pystr :=
  match ls with
  | [] => []
  | [l] => l
  | l :: rest => l ++ 10 :: join_lines rest
  end.

(** [str(n)] for an integer. *)
Definition str_of_Z (z : Z) : pystr :=
  cp (DecimalString.NilZero.string_of_int (Z.to_int z)).

End Py.

(* ================================================================== *)
(** ** Exceptions *)
(* ================================================================== *)

Module Exn.

(** The outcome of a call: a value, or a raised exception. *)
Inductive result (E A : Type) : Type :=
| Return (a : A)
| Raise (e : E).

Arguments Return {E A} a.
Arguments Raise {E A} e.

Definition bind {E A B} (m : result E A) (k : A -> result E B) : result E B :=
  match m with
  | Return a => k a
  | Raise e => Raise e
  end.

End Exn.

Import Py Exn.

Notation "x <- m ;; k" := (bind m (fun x => k))
  (at level 61, m at next level, right associativity).

(* ================================================================== *)
(** ** Action-item records and the line-based fallback *)
(* ================================================================== *)

Module Fallback.

Local Open Scope N_scope.

(** The dictionary [{'description': .., 'assignee': .., 'due_date': ..,
    'priority': ..}] that both tiers of the extractor build. *)
Record action_item : Type := mk_item {
  description : pystr;
  assignee : pystr;
  due_date : pystr;
  priority : pystr
}.

Definition default_assignee : pystr := cp "Unassigned".
Definition default_due_date : pystr := cp "No due date specified".
Definition default_priority : pystr := cp "Medium".

(** The record the fallback emits for a cleaned line. *)
Definition text_item (clean_line : pystr) : action_item :=
  mk_item clean_line default_assignee default_due_date default_priority.

(** [re.sub(r'^[-*]\s*', '', line)].  Without [re.MULTILINE] the anchor
    matches at offset 0 only, so at most one bullet is removed, together with
    the white space that follows it. *)
Definition re_sub_bullet (line : pystr) : pystr :=
  match line with
  | c :: r => if (c =? 45) || (c =? 42) then lstrip r else line
  | [] => []
  end.

(** The test of the [if] in the loop of [_parse_text_action_items], on the
    stripped line. *)
Definition line_test (line : pystr) : bool :=
  truthy line &&
  (startswith (cp "-") line || startswith (cp "*") line
   || contains (cp "action") (lower line)).

(** One turn of the [for line in lines] loop: [action_items] before, and
    after. *)
Definition loop_body (action_items : list action_item) (raw : pystr)
  : list action_item :=
  let line := strip raw in
  if line_test line then
    let clean_line := re_sub_bullet line in
    if truthy clean_line then action_items ++ [text_item clean_line]
    else action_items
  else action_items.

(** [LLMService._parse_text_action_items] *)
Definition _parse_text_action_items (text : pystr) : list action_item :=
  let lines := split_lines text in
  let action_items := fold_left loop_body lines [] in
  firstn 10 action_items.

End Fallback.

(* ================================================================== *)
(** ** The JSON decoder used by the extractor *)
(* ================================================================== *)

(** [json.loads] of the Python standard library, as the decoder reads a [str]:
    the grammar, the escapes and the order of the tests of [json.scanner] and
    [json.decoder] with their default settings ([strict], no hooks).  Every
    error of the decoder is a [json.JSONDecodeError]; its message is not
    used by the program.  A number is kept as its lexeme, since the program
    never computes with one.  The resource limits of the interpreter
    (recursion depth, length of integer literals) are outside this model. *)
Module Json.

Local Open Scope N_scope.

#[local] Unset Elimination Schemes.

Inductive json : Type :=
| JNull                                  (* None *)
| JBool (b : bool)                       (* True, False *)
| JNum (is_float : bool) (lexeme : pystr)  (* int, float *)
| JStr (s : pystr)                       (* str *)
| JArr (items : list json)               (* list *)
| JObj (pairs : list (pystr * json)).    (* dict, as the pairs in reading order *)

#[local] Set Elimination Schemes.

(** [d.get(key)] on [dict(pairs)]: the last pair with the key wins. *)
Fixpoint dict_get (key : pystr) (pairs : list (pystr * json)) : option json :=
  match pairs with
  | [] => None
  | (k, v) :: rest =>
      match dict_get key rest with
      | Some v' => Some v'
      | None => if pystr_eqb key k then Some v else None
      end
  end.

(** [key in d] *)
Definition dict_has (key : pystr) (pairs : list (pystr * json)) : bool :=
  match dict_get key pairs with Some _ => true | None => false end.

(** [type(v).__name__] *)
Definition type_name (v : json) : pystr :=
  match v with
  | JNull => cp "NoneType"
  | JBool _ => cp "bool"
  | JNum false _ => cp "int"
  | JNum true _ => cp "float"
  | JStr _ => cp "str"
  | JArr _ => cp "list"
  | JObj _ => cp "dict"
  end.

(** Outcome of a scanning step: a value and the text after it, a decode
    error, or the recursion budget of the model used up. *)
Inductive scan (A : Type) : Type :=
| Scanned (a : A) (rest : pystr)
| DecodeError
| NoFuel.

Arguments Scanned {A} a rest.
Arguments DecodeError {A}.
Arguments NoFuel {A}.

(** [WHITESPACE = ' \t\n\r'] *)
Definition is_ws (c : N) : bool :=
  (c =? 32) || (c =? 9) || (c =? 10) || (c =? 13).

Fixpoint skip_ws (s : pystr) : pystr :=
  match s with
  | [] => []
  | c :: r => if is_ws c then skip_ws r else s
  end.

Definition is_digit (c : N) : bool := (48 <=? c) && (c <=? 57).

(** The longest prefix of digits, and what follows it. *)
Fixpoint span_digits (s : pystr) : pystr * pystr :=
  match s with
  | [] => ([], [])
  | c :: r =>
      if is_digit c then let (ds, rest) := span_digits r in (c :: ds, rest)
      else ([], s)
  end.

(** [NUMBER_RE] matched at the head of [s]: an optional minus sign, then
    either a single 0 or a digit 1-9 followed by digits; then, optionally, a
    dot followed by one digit or more; then, optionally, e or E, an optional
    sign and one digit or more.  The result tells whether it is a float, and
    gives the lexeme and the rest. *)
Definition match_number (s : pystr) : option (bool * pystr * pystr) :=
  let (neg, s1) :=
    match s with
    | c :: r => if c =? 45 then ([c], r) else ([], s)
    | [] => ([], s)
    end in
  let integer :=
    match s1 with
    | [] => None
    | c :: r =>
        if c =? 48 then Some ([c], r)
        else if is_digit c then
          let (ds, rest) := span_digits r in Some (c :: ds, rest)
        else None
    end in
  match integer with
  | None => None
  | Some (ip, r1) =>
      let (frac, r2) :=
        match r1 with
        | dot :: d :: r =>
            if (dot =? 46) && is_digit d then
              let (ds, rest) := span_digits r in (dot :: d :: ds, rest)
            else ([], r1)
        | _ => ([], r1)
        end in
      let (exp, r3) :=
        match r2 with
        | e :: r =>
            if (e =? 101) || (e =? 69) then
              let (sign, r') :=
                match r with
                | sg :: t => if (sg =? 45) || (sg =? 43) then ([sg], t) else ([], r)
                | [] => ([], r)
                end in
              match span_digits r' with
              | ([], _) => ([], r2)
              | (ds, rest) => (e :: sign ++ ds, rest)
              end
            else ([], r2)
        | [] => ([], r2)
        end in
      Some (truthy frac || truthy exp, neg ++ ip ++ frac ++ exp, r3)
  end.

Definition hex_digit (c : N) : option N :=
  if is_digit c then Some (c - 48)
  else if (97 <=? c) && (c <=? 102) then Some (c - 87)
  else if (65 <=? c) && (c <=? 70) then Some (c - 55)
  else None.

(** The four hexadecimal digits of a [\uXXXX] escape. *)
Definition hex4 (a b c d : N) : option N :=
  match hex_digit a, hex_digit b, hex_digit c, hex_digit d with
  | Some x, Some y, Some z, Some w => Some (((x * 16 + y) * 16 + z) * 16 + w)
  | _, _, _, _ => None
  end.

Definition is_high_surrogate (u : N) : bool := (0xD800 <=? u) && (u <=? 0xDBFF).
Definition is_low_surrogate (u : N) : bool := (0xDC00 <=? u) && (u <=? 0xDFFF).
Definition join_surrogates (hi lo : N) : N :=
  0x10000 + ((hi - 0xD800) * 1024 + (lo - 0xDC00)).

(** [BACKSLASH]: the one-letter escapes. *)
Definition unescape (c : N) : option N :=
  if c =? 34 then Some 34          (* the quote *)
  else if c =? 92 then Some 92     (* \\ *)
  else if c =? 47 then Some 47     (* \/ *)
  else if c =? 98 then Some 8      (* \b *)
  else if c =? 102 then Some 12    (* \f *)
  else if c =? 110 then Some 10    (* \n *)
  else if c =? 114 then Some 13    (* \r *)
  else if c =? 116 then Some 9     (* \t *)
  else None.

(** [scanstring], from the character after the opening quote; [acc] holds
    the decoded characters so far, last first. *)
Fixpoint scanstring (s : pystr) (acc : pystr) : scan pystr :=
  match s with
  | [] => DecodeError                       (* unterminated string *)
  | c :: r =>
      if c =? 34 then Scanned (rev acc) r
      else if c =? 92 then
        match r with
        | [] => DecodeError
        | e :: r1 =>
            if e =? 117 then
              match r1 with
              | h1 :: h2 :: h3 :: h4 :: r2 =>
                  match hex4 h1 h2 h3 h4 with
                  | None => DecodeError
                  | Some u =>
                      if is_high_surrogate u then
                        match r2 with
                        | b :: u' :: k1 :: k2 :: k3 :: k4 :: r3 =>
                            if (b =? 92) && (u' =? 117) then
                              match hex4 k1 k2 k3 k4 with
                              | None => DecodeError
                              | Some u2 =>
                                  if is_low_surrogate u2
                                  then scanstring r3 (join_surrogates u u2 :: acc)
                                  else scanstring r2 (u :: acc)
                              end
                            else scanstring r2 (u :: acc)
                        | _ => scanstring r2 (u :: acc)
                        end
                      else scanstring r2 (u :: acc)
                  end
              | _ => DecodeError
              end
            else
              match unescape e with
              | Some x => scanstring r1 (x :: acc)
              | None => DecodeError
              end
        end
      else if c <=? 31 then DecodeError     (* control character, strict *)
      else scanstring r (c :: acc)
  end.

(** The scanner: [scan_once] with [JSONArray] and [JSONObject].  The loops of
    the two container parsers are [parse_elems] and [parse_pairs]; [fuel]
    bounds the depth of the calls. *)
Fixpoint scan_once (fuel : nat) (s : pystr) {struct fuel} : scan json :=
  match fuel with
  | O => NoFuel
  | S fuel' =>
      match s with
      | [] => DecodeError
      | c :: r =>
          if c =? 34 then
            match scanstring r [] with
            | Scanned v rest => Scanned (JStr v) rest
            | DecodeError => DecodeError
            | NoFuel => NoFuel
            end
          else if c =? 123 then parse_object fuel' r
          else if c =? 91 then parse_array fuel' r
          else if startswith (cp "null") s then Scanned JNull (skipn 4 s)
          else if startswith (cp "true") s then Scanned (JBool true) (skipn 4 s)
          else if startswith (cp "false") s then Scanned (JBool false) (skipn 5 s)
          else
            match match_number s with
            | Some (fl, lexeme, rest) => Scanned (JNum fl lexeme) rest
            | None =>
                if startswith (cp "NaN") s
                then Scanned (JNum true (cp "NaN")) (skipn 3 s)
                else if startswith (cp "Infinity") s
                then Scanned (JNum true (cp "Infinity")) (skipn 8 s)
                else if startswith (cp "-Infinity") s
                then Scanned (JNum true (cp "-Infinity")) (skipn 9 s)
                else DecodeError
            end
      end
  end

with parse_array (fuel : nat) (s : pystr) {struct fuel} : scan json :=
  match fuel with
  | O => NoFuel
  | S fuel' =>
      match skip_ws s with
      | [] => DecodeError
      | c :: r =>
          if c =? 93 then Scanned (JArr []) r
          else parse_elems fuel' (c :: r) []
      end
  end

with parse_elems (fuel : nat) (s : pystr) (acc : list json) {struct fuel}
  : scan json :=
  match fuel with
  | O => NoFuel
  | S fuel' =>
      match scan_once fuel' s with
      | Scanned v rest =>
          match skip_ws rest with
          | [] => DecodeError
          | c :: r =>
              if c =? 93 then Scanned (JArr (rev (v :: acc))) r
              else if c =? 44 then parse_elems fuel' (skip_ws r) (v :: acc)
              else DecodeError
          end
      | DecodeError => DecodeError
      | NoFuel => NoFuel
      end
  end

with parse_object (fuel : nat) (s : pystr) {struct fuel} : scan json :=
  match fuel with
  | O => NoFuel
  | S fuel' =>
      match skip_ws s with
      | [] => DecodeError
      | c :: r =>
          if c =? 125 then Scanned (JObj []) r
          else if c =? 34 then parse_pairs fuel' r []
          else DecodeError
      end
  end

(** [s] starts after the opening quote of a property name. *)
with parse_pairs (fuel : nat) (s : pystr) (acc : list (pystr * json))
  {struct fuel} : scan json :=
  match fuel with
  | O => NoFuel
  | S fuel' =>
      match scanstring s [] with
      | Scanned key rest =>
          match skip_ws rest with
          | [] => DecodeError
          | colon :: r =>
              if colon =? 58 then
                match scan_once fuel' (skip_ws r) with
                | Scanned v rest' =>
                    match skip_ws rest' with
                    | [] => DecodeError
                    | c :: r' =>
                        if c =? 125 then Scanned (JObj (rev ((key, v) :: acc))) r'
                        else if c =? 44 then
                          match skip_ws r' with
                          | q :: r'' =>
                              if q =? 34
                              then parse_pairs fuel' r'' ((key, v) :: acc)
                              else DecodeError
                          | [] => DecodeError
                          end
                        else DecodeError
                    end
                | DecodeError => DecodeError
                | NoFuel => NoFuel
                end
              else DecodeError
          end
      | DecodeError => DecodeError
      | NoFuel => NoFuel
      end
  end.

(** Enough budget for any text of this length (see [raw_decode_fuel]). *)
Definition fuel_for (s : pystr) : nat := 3 * length s + 1.

(** [JSONDecoder.raw_decode] at the first character that is not white
    space. *)
Definition raw_decode (s : pystr) : scan json :=
  scan_once (fuel_for s) (skip_ws s).

(** [json.loads(s)]: [None] stands for a raised [JSONDecodeError]. *)
Definition json_loads (s : pystr) : option json :=
  if startswith [0xFEFF] s then None          (* unexpected UTF-8 BOM *)
  else
    match raw_decode s with
    | Scanned v rest =>
        match skip_ws rest with
        | [] => Some v
        | _ :: _ => None                       (* extra data *)
        end
    | DecodeError => None
    | NoFuel => None
    end.

End Json.

(* ================================================================== *)
(** ** [services/llm_service.py]: class [LLMService] *)
(* ================================================================== *)

Module LLMService.

Import Fallback Json.
Local Open Scope N_scope.

(** *** The response extractor *)

(** What the body of the [try] of [_parse_action_items] can raise.  The
    handlers tell [json.JSONDecodeError] from every other [Exception]. *)
Inductive parse_error : Type :=
| JSONDecodeError
| AttributeError      (* [.strip()] on a value that is not a [str] *)
| TypeError.          (* [for item in v] on a value that cannot be iterated *)

(** The text up to the last closing bracket of [s], when there is one. *)
Fixpoint upto_last_bracket (s : pystr) : option pystr :=
  match s with
  | [] => None
  | c :: r =>
      match upto_last_bracket r with
      | Some t => Some (c :: t)
      | None => if c =? 93 then Some [c] else None
      end
  end.

(** [re.search(r'\[.*\]', response, re.DOTALL)] and [.group()]: the start
    positions are tried from the left; at an opening bracket the greedy [.*]
    (which, under [DOTALL], also runs over newlines) gives back characters
    until a closing bracket ends the match. *)
Fixpoint re_search (response : pystr) : option pystr :=
  match response with
  | [] => None
  | c :: r =>
      if c =? 91 then
        match upto_last_bracket r with
        | Some t => Some (c :: t)
        | None => re_search r
        end
      else re_search r
  end.

(** [item.get(key, default).strip()] *)
Definition get_strip (item : list (pystr * json)) (key default : pystr)
  : result parse_error pystr :=
  match dict_get key item with
  | None => Return (strip default)
  | Some (JStr s) => Return (strip s)
  | Some _ => Raise AttributeError
  end.

(** The dictionary display that builds [cleaned_item]: the four values are
    computed in this order. *)
Definition cleaned_item (item : list (pystr * json))
  : result parse_error action_item :=
  d <- get_strip item (cp "description") [] ;;
  a <- get_strip item (cp "assignee") (cp "Unassigned") ;;
  dd <- get_strip item (cp "due_date") (cp "No due date specified") ;;
  p <- get_strip item (cp "priority") (cp "Medium") ;;
  Return (mk_item d a dd p).

(** One turn of [for item in action_items]. *)
Definition clean_body (cleaned_items : list action_item) (item : json)
  : result parse_error (list action_item) :=
  match item with
  | JObj d =>
      if dict_has (cp "description") d then
        ci <- cleaned_item d ;;
        Return (if truthy (description ci)
                then cleaned_items ++ [ci] else cleaned_items)
      else Return cleaned_items
  | _ => Return cleaned_items
  end.

Fixpoint for_items (items : list json) (cleaned_items : list action_item)
  : result parse_error (list action_item) :=
  match items with
  | [] => Return cleaned_items
  | item :: rest =>
      c <- clean_body cleaned_items item ;; for_items rest c
  end.

(** The keys of [dict(pairs)], each once. *)
Definition dict_keys (pairs : list (pystr * json)) : list pystr :=
  nodup (list_eq_dec N.eq_dec) (map fst pairs).

(** What [for item in v] runs over.  The decoded region starts with an
    opening bracket, so [v] is a list whenever the decoder succeeds; the other
    cases are what Python does with the other types. *)
Definition iterate (v : json) : result parse_error (list json) :=
  match v with
  | JArr items => Return items
  | JObj pairs => Return (map JStr (dict_keys pairs))
  | JStr s => Return (map (fun c => JStr [c]) s)
  | JNull | JBool _ | JNum _ _ => Raise TypeError
  end.

(** The body of the [try] of [_parse_action_items]. *)
Definition parse_try (response : pystr) : result parse_error (list action_item) :=
  match re_search response with
  | Some json_str =>
      match json_loads json_str with
      | None => Raise JSONDecodeError
      | Some action_items =>
          items <- iterate action_items ;; for_items items []
      end
  | None => Return (_parse_text_action_items response)
  end.

(** [LLMService._parse_action_items]: the [try] with its two handlers. *)
Definition _parse_action_items (response : pystr)
  : result parse_error (list action_item) :=
  match parse_try response with
  | Return cleaned_items => Return cleaned_items
  | Raise JSONDecodeError => Return (_parse_text_action_items response)
  | Raise _ => Return []
  end.

(** *** The calls to the generative-text backend *)

(** An exception of the service, with [str(e)]. *)
Inductive exn : Type :=
| Exception (msg : pystr).

Definition str_of_exn (e : exn) : pystr :=
  match e with Exception msg => msg end.

(** What [requests.post] does on one call: it raises (connection refused,
    the 60 s timeout, ...), or a response comes back with its status code and
    with what [response.json()] gives. *)
Inductive ollama_reply : Type :=
| PostRaises (msg : pystr)
| Responded (status_code : Z) (body : result pystr json).

(** The JSON document posted to [/api/generate]; [stream] and [options] are
    constants. *)
Record post_data : Type := mk_post {
  d_model : pystr;
  d_prompt : pystr;
  d_system : pystr
}.

(** The backend seen from the service: the reply to the n-th request, and
    the requests posted so far. *)
Record network : Type := mk_network {
  replies : nat -> ollama_reply;
  posts : list post_data
}.

(** The fields of [self]. *)
Record service : Type := mk_service {
  base_url : pystr;
  model : pystr
}.

(** [AttributeError] message for a missing method. *)
Definition no_attribute (v : json) (attr : pystr) : pystr :=
  cp "'" ++ type_name v ++ cp "' object has no attribute '" ++ attr ++ cp "'".

(** The body of the [try] of [_call_ollama], after the request was sent. *)
Definition read_reply (reply : ollama_reply) : result pystr pystr :=
  match reply with
  | PostRaises msg => Raise msg
  | Responded status_code body =>
      if (status_code =? 200)%Z then
        match body with
        | Raise msg => Raise msg
        | Return (JObj d) =>
            match dict_get (cp "response") d with
            | None => Return (strip [])
            | Some (JStr s) => Return (strip s)
            | Some v => Raise (no_attribute v (cp "strip"))
            end
        | Return v => Raise (no_attribute v (cp "get"))
        end
      else Raise (cp "Ollama API error: " ++ str_of_Z status_code)
  end.

(** [LLMService._call_ollama]: one request, and every failure re-raised as
    [Exception("LLM service unavailable: ...")]. *)
Definition _call_ollama (self : service) (prompt system_prompt : pystr)
  (net : network) : network * result exn pystr :=
  let data := mk_post (model self) prompt system_prompt in
  let reply := replies net (length (posts net)) in
  let net' := mk_network (replies net) (posts net ++ [data]) in
  match read_reply reply with
  | Return text => (net', Return text)
  | Raise msg => (net', Raise (Exception (cp "LLM service unavailable: " ++ msg)))
  end.

(** [LLMService._format_summary] *)
Definition _format_summary (raw_summary : pystr) : pystr :=
  if negb (startswith (cp "#") raw_summary)
  then cp "# Meeting Summary

" ++ raw_summary
  else raw_summary.

Definition summary_system_prompt : pystr :=
  cp "You are an expert meeting assistant. Generate a clear, professional meeting summary that includes:
1. Main topics discussed
2. Key decisions made
3. Important points raised
4. Next steps mentioned

Format the summary in a structured way with clear sections.".

Definition summary_prompt (transcription : pystr) : pystr :=
  cp "Please analyze the following meeting transcription and create a comprehensive summary:

TRANSCRIPTION:
" ++ transcription ++ cp "

Generate a well-structured meeting summary with clear sections for topics, decisions, and next steps.".

(** [LLMService.generate_summary] *)
Definition generate_summary (self : service) (transcription : pystr)
  (net : network) : network * result exn pystr :=
  match _call_ollama self (summary_prompt transcription) summary_system_prompt net with
  | (net', Return summary) => (net', Return (_format_summary summary))
  | (net', Raise e) =>
      (net', Return (cp "Error generating summary: " ++ str_of_exn e))
  end.

Definition extract_system_prompt : pystr :=
  cp "You are an expert at identifying action items from meeting transcriptions. 
Extract action items and format them as a JSON array. Each action item should have:
- description: What needs to be done
- assignee: Who is responsible (if mentioned, otherwise `Unassigned`)
- due_date: When it's due (if mentioned, otherwise `No due date specified`)
- priority: High/Medium/Low based on context

Return ONLY valid JSON array, no other text.".

Definition extract_prompt (transcription : pystr) : pystr :=
  cp "Analyze this meeting transcription and extract all action items:

TRANSCRIPTION:
" ++ transcription ++ cp "

Return a JSON array of action items with description, assignee, due_date, and priority fields.".

(** [LLMService.extract_action_items] *)
Definition extract_action_items (self : service) (transcription : pystr)
  (net : network) : network * result exn (list action_item) :=
  match _call_ollama self (extract_prompt transcription) extract_system_prompt net with
  | (net', Return response) =>
      match _parse_action_items response with
      | Return items => (net', Return items)
      | Raise _ => (net', Return [])
      end
  | (net', Raise _) => (net', Return [])
  end.

End LLMService.

(* ================================================================== *)
(** ** [app/main.py]: the route [POST /process_audio] *)
(* ================================================================== *)

Module App.

Import Fallback Json LLMService.

(** A row of the table [meetings] and a row of the table [action_items]. *)
Record meeting_row : Type := mk_meeting_row {
  m_id : Z;
  m_title : pystr;
  m_date : pystr;
  m_attendees : pystr;
  m_transcription : pystr;
  m_summary : pystr;
  m_created_at : pystr
}.

Record action_item_row : Type := mk_action_item_row {
  ai_id : Z;
  ai_meeting_id : Z;
  ai_description : pystr;
  ai_assignee : pystr;
  ai_due_date : pystr;
  ai_priority : pystr;
  ai_completed : bool;
  ai_created_at : pystr
}.

(** What the handler reads and writes: the files that exist, the two tables
    of [meetings.db] with their [AUTOINCREMENT] counters, and the backend. *)
Record world : Type := mk_world {
  files : list pystr;
  meetings : list meeting_row;
  meetings_seq : Z;
  action_items : list action_item_row;
  action_items_seq : Z;
  net : network
}.

(** What the handler does not decide: the library calls and their
    failures.  An error is given as [str(e)]. *)
Record env : Type := mk_env {
  llm_service : service;
  secure_filename : pystr -> pystr;                  (* werkzeug *)
  today : pystr;                 (* datetime.now().strftime('%Y-%m-%d') *)
  now_isoformat : pystr;         (* datetime.now().isoformat() *)
  file_save_error : pystr -> option pystr;           (* file.save(filepath) *)
  whisper_transcribe : pystr -> result pystr pystr;  (* model.transcribe(path)['text'] *)
  insert_meeting_error : option pystr;               (* sqlite3, Meeting.save *)
  insert_action_item_error : nat -> option pystr;    (* sqlite3, n-th ActionItem.save *)
  remove_error : pystr -> option pystr               (* os.remove(filepath) *)
}.

(** The multipart form: the file name of the field [audio_file] when the
    field is there, and the three text fields. *)
Record request : Type := mk_request {
  audio_file : option pystr;
  meeting_title : option pystr;
  meeting_date : option pystr;
  attendees : option pystr
}.

(** The JSON document of the answer, and the status code. *)
Inductive body : Type :=
| ErrorBody (error : pystr)
| ResultBody (success : bool) (meeting_id : Z) (summary : pystr)
    (items : list action_item) (transcription : pystr).

Record response : Type := mk_response {
  payload : body;
  status : Z
}.

(** A computation on the world that may raise; what was written before the
    exception stays written. *)
Definition M (A : Type) : Type := world -> world * result exn A.

Definition ret {A} (a : A) : M A := fun w => (w, Return a).

Definition raise {A} (e : exn) : M A := fun w => (w, Raise e).

Definition mbind {A B} (m : M A) (k : A -> M B) : M B :=
  fun w =>
    match m w with
    | (w', Return a) => k a w'
    | (w', Raise e) => (w', Raise e)
    end.

Notation "x <-- m ;; k" := (mbind m (fun x => k))
  (at level 61, m at next level, right associativity).

(** A pure call that may raise. *)
Definition lift {A} (r : result exn A) : M A := fun w => (w, r).

(** A call of the LLM service, which only touches the backend. *)
Definition on_net {A} (f : network -> network * result exn A) : M A :=
  fun w =>
    let (n, r) := f (net w) in
    (mk_world (files w) (meetings w) (meetings_seq w)
              (action_items w) (action_items_seq w) n, r).

Definition file_exists (path : pystr) (w : world) : bool :=
  existsb (pystr_eqb path) (files w).

(** [file.save(filepath)] *)
Definition file_save (e : env) (filepath : pystr) : M unit :=
  fun w =>
    match file_save_error e filepath with
    | Some msg => (w, Raise (Exception msg))
    | None =>
        (mk_world
           (if file_exists filepath w then files w else filepath :: files w)
           (meetings w) (meetings_seq w)
           (action_items w) (action_items_seq w) (net w),
         Return tt)
    end.

(** [os.remove(filepath)] *)
Definition os_remove (e : env) (filepath : pystr) : M unit :=
  fun w =>
    if file_exists filepath w then
      match remove_error e filepath with
      | Some msg => (w, Raise (Exception msg))
      | None =>
          (mk_world
             (filter (fun f => negb (pystr_eqb filepath f)) (files w))
             (meetings w) (meetings_seq w)
             (action_items w) (action_items_seq w) (net w),
           Return tt)
      end
    else
      (w, Raise (Exception
                   (cp "[Errno 2] No such file or directory: '" ++ filepath ++ cp "'"))).

(** [os.path.join(folder, name)] on a POSIX system. *)
Definition os_path_join (folder name : pystr) : pystr :=
  if startswith (cp "/") name then name
  else if truthy folder && negb (startswith (cp "/") (rev folder))
       then folder ++ cp "/" ++ name
       else folder ++ name.

(** [SpeechToTextService.transcribe_audio]: the text of the model stripped,
    and every failure re-raised with a prefix.  The temporary WAV file that
    [_prepare_audio] may write lies outside the upload folder. *)
Definition transcribe_audio (e : env) (audio_path : pystr) : result exn pystr :=
  match whisper_transcribe e audio_path with
  | Return text => Return (strip text)
  | Raise msg => Raise (Exception (cp "Failed to transcribe audio: " ++ msg))
  end.

(** [Meeting(...).save()] for a new meeting: one [INSERT], and the new
    row id. *)
Definition meeting_save (e : env) (title date attendees_ transcription summary : pystr)
  : M Z :=
  fun w =>
    match insert_meeting_error e with
    | Some msg => (w, Raise (Exception msg))
    | None =>
        let id := (meetings_seq w + 1)%Z in
        (mk_world (files w)
           (meetings w ++ [mk_meeting_row id title date attendees_ transcription
                             summary (now_isoformat e)])
           id (action_items w) (action_items_seq w) (net w),
         Return id)
    end.

(** [ActionItem(...).save()] for a new item; [n] counts the saves of the
    request. *)
Definition action_item_save (e : env) (n : nat) (meeting_id : Z)
  (description_ assignee_ due_date_ priority_ : pystr) : M Z :=
  fun w =>
    match insert_action_item_error e n with
    | Some msg => (w, Raise (Exception msg))
    | None =>
        let id := (action_items_seq w + 1)%Z in
        (mk_world (files w) (meetings w) (meetings_seq w)
           (action_items w ++ [mk_action_item_row id meeting_id description_
                                 assignee_ due_date_ priority_ false
                                 (now_isoformat e)])
           id (net w),
         Return id)
    end.

(** The loop [for item in action_items: ... action_item.save()]. *)
Fixpoint save_action_items (e : env) (meeting_id : Z)
  (items : list action_item) (n : nat) : M unit :=
  match items with
  | [] => ret tt
  | item :: rest =>
      _ <-- action_item_save e n meeting_id (description item) (assignee item)
              (due_date item) (priority item) ;;
      save_action_items e meeting_id rest (S n)
  end.

Definition form_get (field : option pystr) (default : pystr) : pystr :=
  match field with Some v => v | None => default end.

(** The handler from the line after [file.save(filepath)] to its [return]. *)
Definition process_saved (e : env) (req : request) (filepath : pystr)
  : M response :=
  let meeting_title_ := form_get (meeting_title req) (cp "Untitled Meeting") in
  let meeting_date_ := form_get (meeting_date req) (today e) in
  let attendees_ := form_get (attendees req) [] in
  transcription <-- lift (transcribe_audio e filepath) ;;
  summary <-- on_net (generate_summary (llm_service e) transcription) ;;
  action_items_ <-- on_net (extract_action_items (llm_service e) transcription) ;;
  meeting_id <-- meeting_save e meeting_title_ meeting_date_ attendees_
                   transcription summary ;;
  _ <-- save_action_items e meeting_id action_items_ 0 ;;
  _ <-- os_remove e filepath ;;
  ret (mk_response
         (ResultBody true meeting_id summary action_items_
            (if (500 <? length transcription)%nat
             then firstn 500 transcription ++ cp "..."
             else transcription))
         200).

(** The path under which the upload is stored. *)
Definition upload_path (e : env) (filename : pystr) : pystr :=
  os_path_join (cp "uploads") (secure_filename e filename).

(** The body of the [try] of [process_audio]. *)
Definition process_audio_try (e : env) (req : request) : M response :=
  match audio_file req with
  | None => ret (mk_response (ErrorBody (cp "No audio file provided")) 400)
  | Some filename =>
      if pystr_eqb filename []
      then ret (mk_response (ErrorBody (cp "No file selected")) 400)
      else
        let filepath := upload_path e filename in
        _ <-- file_save e filepath ;;
        process_saved e req filepath
  end.

(** [process_audio]: the [try] and its handler. *)
Definition process_audio (e : env) (req : request) (w : world)
  : world * response :=
  match process_audio_try e req w with
  | (w', Return r) => (w', r)
  | (w', Raise ex) => (w', mk_response (ErrorBody (str_of_exn ex)) 500)
  end.

End App.

(* ================================================================== *)
(** ** The statements of the specification, and the inputs of its scenarios *)
(* ================================================================== *)

Module Spec.

Import Fallback Json LLMService App.
Local Open Scope N_scope.

(** A string without leading and trailing white space. *)
Definition stripped (s : pystr) : Prop := lstrip s = s /\ rstrip s = s.

(** *** The rule of the line-based fallback, in the words of the
    specification *)


Definition has_substring (sub s : pystr) : Prop :=
  exists pre suf, s = pre ++ sub ++ suf.


(** The line without a single leading bullet marker and without the white
    space around what is left. *)
Definition unbulleted (line : pystr) : pystr :=
  match line with
  | [] => []
  | c :: r => if (c =? 45) || (c =? 42) then strip r else strip line
  end.


(** *** The loop of the fallback, line by line *)

(** What one line adds to the result. *)
Definition line_items (raw : pystr) : list action_item := loop_body [] raw.

(** The line adds a record. *)
Definition emits (raw : pystr) : bool :=
  line_test (strip raw) && truthy (re_sub_bullet (strip raw)).

(** The description of the record that the line adds. *)
Definition line_description (raw : pystr) : pystr := re_sub_bullet (strip raw).

(** The fallback runs: no bracketed region, or one that is not JSON. *)
Definition fallback_runs (response : pystr) : Prop :=
  re_search response = None \/
  exists json_str, re_search response = Some json_str /\ json_loads json_str = None.

(** *** The structured path *)







(** The structured path runs to its [return]. *)
Definition structured_path_returns (response : pystr) : Prop :=
  exists json_str v items out,
    re_search response = Some json_str /\ json_loads json_str = Some v /\
    iterate v = Return items /\ for_items items [] = Return out.

(** The descriptions of the records, one on each line. *)
Definition render (items : list action_item) : pystr :=
  join_lines (map description items).

(** *** The answer of the upload route *)

(** The transcription as the answer shows it: whole when it has at most 500
    characters, else its first 500 characters and an ellipsis. *)
Definition shown_transcription (transcription : pystr) : pystr :=
  if (length transcription <=? 500)%nat then transcription
  else firstn 500 transcription ++ cp "...".

(** *** Inputs *)

Definition scenario1 : pystr :=
  cp "Here are the items: [{`description`:`Send report`,`assignee`:`Bob`,`due_date`:`2024-01-05`,`priority`:`High`},{`description`:``,`assignee`:`Amy`}]".


Definition scenario4 : pystr := cp "No action items this week.".




(** A text on which the fallback runs, and whose only bullet line holds a
    JSON array of eleven objects. *)
Definition bullet_with_array : pystr :=
  cp "[ pending
- [{`description`:`t01`},{`description`:`t02`},{`description`:`t03`},{`description`:`t04`},{`description`:`t05`},{`description`:`t06`},{`description`:`t07`},{`description`:`t08`},{`description`:`t09`},{`description`:`t10`},{`description`:`t11`}]".

(** *** Runs of the upload route *)

(** Nothing that was written to the tables or sent to the backend is taken
    back. *)
Definition grows (w w' : world) : Prop :=
  (exists ms, meetings w' = meetings w ++ ms) /\
  (exists xs, action_items w' = action_items w ++ xs) /\
  (exists ps, posts (net w') = posts (net w) ++ ps).


(** A backend that answers the first request with a summary and the next
    ones with an array of two action items. *)
Definition answering_backend : network :=
  mk_network
    (fun n =>
       match n with
       | O => Responded 200
                (Return (JObj [(cp "response", JStr (cp "# Shipping on Friday"))]))
       | S _ => Responded 200
                  (Return (JObj [(cp "response",
                     JStr (cp "[{`description`:`Send report`},{`description`:`Book room`}]"))]))
       end)
    [].

Definition demo_service : service :=
  mk_service (cp "http://localhost:11434") (cp "llama3.1:8b").

(** A run in which every library call succeeds. *)
Definition demo_env : env :=
  mk_env demo_service (fun name => name) (cp "2024-01-05")
         (cp "2024-01-05T10:00:00") (fun _ => None)
         (fun _ => Return (cp "We agreed to ship on Friday."))
         None (fun _ => None) (fun _ => None).

(** A run in which the insertion of the second action item fails. *)
Definition second_insert_fails : env :=
  mk_env demo_service (fun name => name) (cp "2024-01-05")
         (cp "2024-01-05T10:00:00") (fun _ => None)
         (fun _ => Return (cp "We agreed to ship on Friday."))
         None
         (fun n => match n with
                   | 1%nat => Some (cp "database is locked")
                   | _ => None
                   end)
         (fun _ => None).

Definition demo_request : request :=
  mk_request (Some (cp "meeting.wav")) None None None.

(** Empty tables, an empty upload folder, and the given backend. *)
Definition start_world (n : network) : world := mk_world [] [] 0 [] 0 n.

End Spec.

(* ================================================================== *)
(** ** Rows and requests of a run of the upload route *)
(* ================================================================== *)

Module Props.

Import Fallback Json LLMService App.

(** The row that [Meeting(...).save()] inserts for the request. *)
Definition meeting_row_of (e : env) (req : request) (id : Z)
  (transcription summary : pystr) : meeting_row :=
  mk_meeting_row id
    (form_get (meeting_title req) (cp "Untitled Meeting"))
    (form_get (meeting_date req) (today e))
    (form_get (attendees req) [])
    transcription summary (now_isoformat e).

(** The rows that the loop over the action items inserts, when the table
    counter is at [seq]. *)
Fixpoint item_rows (e : env) (meeting_id seq : Z) (items : list action_item)
  : list action_item_row :=
  match items with
  | [] => []
  | item :: rest =>
      mk_action_item_row (seq + 1) meeting_id (description item)
        (assignee item) (due_date item) (priority item) false
        (now_isoformat e)
      :: item_rows e meeting_id (seq + 1) rest
  end.

(** The two requests that a run sends to the backend. *)
Definition summary_post (e : env) (transcription : pystr) : post_data :=
  mk_post (model (llm_service e)) (summary_prompt transcription)
          summary_system_prompt.

Definition extract_post (e : env) (transcription : pystr) : post_data :=
  mk_post (model (llm_service e)) (extract_prompt transcription)
          extract_system_prompt.



End Props.

(* ================================================================== *)
(** ** [models/meeting.py] and [models/action_item.py] *)
(* ================================================================== *)

(** The two classes over the tables of [App.world].  Every method opens the
    database, executes one statement and closes it; [sqlite_error] is what
    [sqlite3] does on that call: [Some msg] when it raises (then nothing is
    committed), [None] when the statement is executed.  A dictionary that a
    method returns has the keys of the row, and is given as the row. *)
Module Models.

Import Fallback Json LLMService App.

Local Open Scope Z_scope.

(** The attributes of a [Meeting] object that [save] uses. *)
Record meeting_obj : Type := mk_meeting_obj {
  mo_id : option Z;
  mo_title : pystr;
  mo_date : pystr;
  mo_attendees : pystr;
  mo_transcription : pystr;
  mo_summary : pystr
}.

(** The attributes of an [ActionItem] object that [save] uses. *)
Record action_item_obj : Type := mk_action_item_obj {
  ao_id : option Z;
  ao_meeting_id : Z;
  ao_description : pystr;
  ao_assignee : pystr;
  ao_due_date : pystr;
  ao_priority : pystr;
  ao_completed : bool
}.

(** [UPDATE meetings SET title=?, date=?, attendees=?, transcription=?,
    summary=? WHERE id=?] on one row. *)
Definition update_meeting_row (self : meeting_obj) (id : Z) (r : meeting_row)
  : meeting_row :=
  if m_id r =? id
  then mk_meeting_row (m_id r) (mo_title self) (mo_date self)
         (mo_attendees self) (mo_transcription self) (mo_summary self)
         (m_created_at r)
  else r.

(** [Meeting.save]: an [INSERT] when the object has no id, an [UPDATE] of
    the row with its id otherwise; the result is the id of the object after
    the call. *)
Definition Meeting_save (sqlite_error : option pystr) (now : pystr)
  (self : meeting_obj) : M Z :=
  fun w =>
    match sqlite_error with
    | Some msg => (w, Raise (Exception msg))
    | None =>
        match mo_id self with
        | None =>
            let id := meetings_seq w + 1 in
            (mk_world (files w)
               (meetings w ++ [mk_meeting_row id (mo_title self) (mo_date self)
                                 (mo_attendees self) (mo_transcription self)
                                 (mo_summary self) now])
               id (action_items w) (action_items_seq w) (net w),
             Return id)
        | Some id =>
            (mk_world (files w)
               (map (update_meeting_row self id) (meetings w))
               (meetings_seq w) (action_items w) (action_items_seq w) (net w),
             Return id)
        end
    end.

(** [Meeting.get_by_id]: the row with the id, or [None].  Here and below
    [sqlite_error] is the error that [sqlite3] raises during the call, if
    any: a database that is locked or cannot be opened, an id that does not
    fit in 64 bits, ... *)
Definition Meeting_get_by_id (sqlite_error : option pystr) (meeting_id : Z)
  (w : world) : result exn (option meeting_row) :=
  match sqlite_error with
  | Some msg => Raise (Exception msg)
  | None => Return (find (fun r => m_id r =? meeting_id) (meetings w))
  end.

(** [UPDATE action_items SET description=?, assignee=?, due_date=?,
    priority=?, completed=? WHERE id=?] on one row. *)
Definition update_action_item_row (self : action_item_obj) (id : Z)
  (r : action_item_row) : action_item_row :=
  if ai_id r =? id
  then mk_action_item_row (ai_id r) (ai_meeting_id r) (ao_description self)
         (ao_assignee self) (ao_due_date self) (ao_priority self)
         (ao_completed self) (ai_created_at r)
  else r.

(** [ActionItem.save] *)
Definition ActionItem_save (sqlite_error : option pystr) (now : pystr)
  (self : action_item_obj) : M Z :=
  fun w =>
    match sqlite_error with
    | Some msg => (w, Raise (Exception msg))
    | None =>
        match ao_id self with
        | None =>
            let id := action_items_seq w + 1 in
            (mk_world (files w) (meetings w) (meetings_seq w)
               (action_items w ++
                [mk_action_item_row id (ao_meeting_id self)
                   (ao_description self) (ao_assignee self) (ao_due_date self)
                   (ao_priority self) (ao_completed self) now])
               id (net w),
             Return id)
        | Some id =>
            (mk_world (files w) (meetings w) (meetings_seq w)
               (map (update_action_item_row self id) (action_items w))
               (action_items_seq w) (net w),
             Return id)
        end
    end.

(** [ActionItem.get_by_id] *)
Definition ActionItem_get_by_id (sqlite_error : option pystr) (item_id : Z)
  (w : world) : result exn (option action_item_row) :=
  match sqlite_error with
  | Some msg => Raise (Exception msg)
  | None => Return (find (fun r => ai_id r =? item_id) (action_items w))
  end.

(** The order of two [TEXT] values under the collation [BINARY]: the order
    of their UTF-8 encodings, which is the order of their code points. *)
Fixpoint text_compare (a b : pystr) : comparison :=
  match a, b with
  | [], [] => Eq
  | [], _ :: _ => Lt
  | _ :: _, [] => Gt
  | x :: a', y :: b' =>
      match N.compare x y with
      | Eq => text_compare a' b'
      | c => c
      end
  end.

(** [ORDER BY priority DESC, created_at ASC]: the row [a] may come before
    the row [b]. *)
Definition item_order (a b : action_item_row) : bool :=
  match text_compare (ai_priority a) (ai_priority b) with
  | Gt => true
  | Lt => false
  | Eq =>
      match text_compare (ai_created_at a) (ai_created_at b) with
      | Gt => false
      | _ => true
      end
  end.

(** [ORDER BY created_at DESC] *)
Definition meeting_order (a b : meeting_row) : bool :=
  match text_compare (m_created_at a) (m_created_at b) with
  | Lt => false
  | _ => true
  end.

(** A [SELECT ... WHERE ... ORDER BY ...] answers with the rows that pass the
    test, each once, in an order that respects [before]. *)
Definition selects {A : Type} (keep : A -> bool) (before : A -> A -> bool)
  (table out : list A) : Prop :=
  Permutation out (filter keep table) /\
  StronglySorted (fun a b => before a b = true) out.

Fixpoint insert_row {A : Type} (before : A -> A -> bool) (x : A) (l : list A)
  : list A :=
  match l with
  | [] => [x]
  | y :: r => if before x y then x :: l else y :: insert_row before x r
  end.

(** One answer of the [SELECT]: rows with equal keys are left in the order
    of the table, which SQLite does not promise. *)
Definition order_by {A : Type} (before : A -> A -> bool) (rows : list A)
  : list A :=
  fold_right (insert_row before) [] rows.

(** [ActionItem.get_by_meeting_id] *)
Definition ActionItem_get_by_meeting_id (sqlite_error : option pystr)
  (meeting_id : Z) (w : world) : result exn (list action_item_row) :=
  match sqlite_error with
  | Some msg => Raise (Exception msg)
  | None =>
      Return (order_by item_order
                (filter (fun r => ai_meeting_id r =? meeting_id)
                        (action_items w)))
  end.

(** [Meeting.get_all] *)
Definition Meeting_get_all (sqlite_error : option pystr) (w : world)
  : result exn (list meeting_row) :=
  match sqlite_error with
  | Some msg => Raise (Exception msg)
  | None => Return (order_by meeting_order (meetings w))
  end.

End Models.

(* ================================================================== *)
(** ** Statements on the tables *)
(* ================================================================== *)

Module TableProps.

Import Fallback Json LLMService App Models.

Local Open Scope Z_scope.

(** The state of the tables that the application keeps: the ids of each
    table are distinct and not above the counter of the table, and every
    action item belongs to a meeting of the table. *)
Definition db_ok (w : world) : Prop :=
  NoDup (map m_id (meetings w)) /\
  Forall (fun r => m_id r <= meetings_seq w) (meetings w) /\
  NoDup (map ai_id (action_items w)) /\
  Forall (fun r => ai_id r <= action_items_seq w) (action_items w) /\
  Forall (fun r => In (ai_meeting_id r) (map m_id (meetings w)))
         (action_items w).

(** A computation that starts in a state with [P] ends in a state with
    [Q] when it returns, and in a state with [I] when it raises. *)
Definition triple {A : Type} (I P : world -> Prop) (m : M A)
  (Q : A -> world -> Prop) : Prop :=
  forall w, P w ->
    match m w with
    | (w', Return a) => Q a w'
    | (w', Raise _) => I w'
    end.

(** The rank of the three priorities in [ORDER BY priority DESC]. *)
Definition priority_rank (p : pystr) : option nat :=
  if pystr_eqb p (cp "Medium") then Some 0%nat
  else if pystr_eqb p (cp "Low") then Some 1%nat
  else if pystr_eqb p (cp "High") then Some 2%nat
  else None.

(** Three items of one meeting, inserted as High, Low, Medium. *)
Definition three_priorities : list action_item_row :=
  [mk_action_item_row 1 1 (cp "Fix outage") (cp "Ann") (cp "2024-01-05")
     (cp "High") false (cp "2024-01-05T10:00:00");
   mk_action_item_row 2 1 (cp "Tidy wiki") (cp "Bob") (cp "2024-01-05")
     (cp "Low") false (cp "2024-01-05T10:00:01");
   mk_action_item_row 3 1 (cp "Send report") (cp "Cy") (cp "2024-01-05")
     (cp "Medium") false (cp "2024-01-05T10:00:02")].

End TableProps.

(* ================================================================== *)
(** ** [services/file_service.py] and the route [/export] *)
(* ================================================================== *)

Module FileService.

Import Fallback Json LLMService App Models.

Local Open Scope N_scope.

(** What the text export takes from the libraries: [str.upper], and the
    time of the export as [strftime('%Y-%m-%d %H:%M:%S')] prints it. *)
Record text_env : Type := mk_text_env {
  str_upper : pystr -> pystr;
  generated_now : pystr
}.

(** [c * n] for a one-character string [c]. *)
Definition char_times (c : N) (n : nat) : pystr := repeat c n.

(** The five lines that the loop of [export_to_text] appends for the item
    number [i]. *)
Definition item_lines (i : Z) (item : action_item_row) : list pystr :=
  [str_of_Z i ++ cp ". " ++ ai_description item;
   cp "   Assignee: " ++ ai_assignee item;
   cp "   Due Date: " ++ ai_due_date item;
   cp "   Priority: " ++ ai_priority item;
   []].

(** [for i, item in enumerate(action_items, i): ...] *)
Fixpoint enumerate_lines (i : Z) (action_items : list action_item_row)
  : list pystr :=
  match action_items with
  | [] => []
  | item :: rest => item_lines i item ++ enumerate_lines (i + 1) rest
  end.

(** The list [lines] of [export_to_text] for a meeting that is there.  The
    dictionaries of [Meeting.get_by_id] and [ActionItem.get_by_meeting_id]
    have every key, so no default of [.get] is used. *)
Definition text_lines (te : text_env) (meeting : meeting_row)
  (action_items : list action_item_row) : list pystr :=
  [char_times 61 60;
   cp "MEETING SUMMARY: " ++ str_upper te (m_title meeting);
   char_times 61 60;
   [];
   cp "MEETING DETAILS:";
   cp "Date: " ++ m_date meeting;
   cp "Attendees: " ++ m_attendees meeting;
   cp "Generated: " ++ generated_now te;
   [];
   cp "MEETING SUMMARY:";
   char_times 45 20;
   m_summary meeting;
   []]
  ++ (match action_items with
      | [] => []
      | _ :: _ =>
          [cp "ACTION ITEMS:"; char_times 45 20]
          ++ enumerate_lines 1 action_items
      end)
  ++ [char_times 61 60;
      cp "Generated by AI Meeting Notes Generator";
      char_times 61 60].

(** [str(e)] of the [AttributeError] for [None.get]. *)
Definition none_has_no_get : pystr :=
  cp "'NoneType' object has no attribute 'get'".

(** [FileService.export_to_text]; [meeting] is [None] when
    [Meeting.get_by_id] found no row. *)
Definition export_to_text (te : text_env) (meeting : option meeting_row)
  (action_items : list action_item_row) : result exn pystr :=
  match meeting with
  | None => Raise (Exception (cp "Failed to export text: " ++ none_has_no_get))
  | Some m => Return (join_lines (text_lines te m action_items))
  end.

(** [FileService.export_to_pdf].  For a meeting that is there, the document
    is built by the rendering library, whose outcome is [render]: the path of
    the file, or the error of the library.  Without a meeting the first
    [meeting.get] raises, after constructors of the library that take
    constants only. *)
Definition export_to_pdf
  (render : meeting_row -> list action_item_row -> result pystr pystr)
  (meeting : option meeting_row) (action_items : list action_item_row)
  : result exn pystr :=
  match meeting with
  | None => Raise (Exception (cp "Failed to export PDF: " ++ none_has_no_get))
  | Some m =>
      match render m action_items with
      | Return pdf_path => Return pdf_path
      | Raise msg => Raise (Exception (cp "Failed to export PDF: " ++ msg))
      end
  end.

(** What the route [/export/<int:meeting_id>/<format>] does not decide. *)
Record export_env : Type := mk_export_env {
  meeting_query_error : option pystr;     (* sqlite3, Meeting.get_by_id *)
  items_query_error : option pystr;       (* sqlite3, get_by_meeting_id *)
  text_lib : text_env;
  render_pdf : meeting_row -> list action_item_row -> result pystr pystr
}.

(** The answers of the route. *)
Inductive export_answer : Type :=
| JsonError (error : pystr) (status : Z)
| TextAnswer (content : pystr) (status : Z) (content_type : pystr)
| FileAnswer (path : pystr) (download_name : pystr).

(** The body of the [try] of [export_meeting]. *)
Definition export_meeting_try (xe : export_env) (meeting_id : Z)
  (format : pystr) (w : world) : result exn export_answer :=
  meeting <- Meeting_get_by_id (meeting_query_error xe) meeting_id w ;;
  action_items <-
    ActionItem_get_by_meeting_id (items_query_error xe) meeting_id w ;;
  if pystr_eqb format (cp "pdf") then
    pdf_path <- export_to_pdf (render_pdf xe) meeting action_items ;;
    match meeting with
    | Some m => Return (FileAnswer pdf_path (m_title m ++ cp "_summary.pdf"))
    | None => Raise (Exception (cp "'NoneType' object is not subscriptable"))
    end
  else if pystr_eqb format (cp "txt") then
    txt_content <- export_to_text (text_lib xe) meeting action_items ;;
    Return (TextAnswer txt_content 200 (cp "text/plain"))
  else Return (JsonError (cp "Unsupported format") 400).

(** [export_meeting] *)
Definition export_meeting (xe : export_env) (meeting_id : Z) (format : pystr)
  (w : world) : export_answer :=
  match export_meeting_try xe meeting_id format w with
  | Return answer => answer
  | Raise e => JsonError (str_of_exn e) 500
  end.

(** The block of four lines of one action item in the text export. *)
Definition item_block (i : Z) (item : action_item_row) : pystr :=
  join_lines (firstn 4 (item_lines i item)).

(** A library that leaves the letters as they are, and a fixed time. *)
Definition demo_text_env : text_env :=
  mk_text_env (fun s => s) (cp "2024-01-06 09:00:00").

Definition demo_export_env : export_env :=
  mk_export_env None None demo_text_env
    (fun _ _ => Return (cp "/tmp/meeting_summary_20240106_090000.pdf")).

End FileService.

(* ================================================================== *)
(** * The connection check of the service (services/llm_service.py) *)
(* ================================================================== *)

Module Connection.

Import Fallback Json LLMService.

Local Open Scope N_scope.

(** [v.get('models', [])]; a value that is not a dict has no [get]. *)
Definition get_models (v : json) : result unit json :=
  match v with
  | JObj d =>
      match dict_get (cp "models") d with
      | Some models => Return models
      | None => Return (JArr [])
      end
  | _ => Raise tt
  end.

(** [model['name']]: a [KeyError] for a dict without the key, a [TypeError]
    for a value of any other type. *)
Definition subscript_name (model : json) : result unit json :=
  match model with
  | JObj d =>
      match dict_get (cp "name") d with
      | Some name => Return name
      | None => Raise tt
      end
  | _ => Raise tt
  end.

(** [[model['name'] for model in models]] *)
Fixpoint names_of (models : list json) : result unit (list json) :=
  match models with
  | [] => Return []
  | model :: rest =>
      name <- subscript_name model ;;
      names <- names_of rest ;;
      Return (name :: names)
  end.

(** [self_model in model]: a piece of a text, an element of a list, a key of
    a dict; a [TypeError] for a number, a truth value and [None]. *)
Definition py_in (self_model : pystr) (model : json) : result unit bool :=
  match model with
  | JStr s => Return (contains self_model s)
  | JArr items =>
      Return (existsb (fun v => match v with
                                | JStr t => pystr_eqb self_model t
                                | _ => false
                                end) items)
  | JObj d => Return (dict_has self_model d)
  | JNull | JBool _ | JNum _ _ => Raise tt
  end.

(** [any(self_model in model for model in available_models)]: the names
    after the first that gives [True] are not looked at. *)
Fixpoint any_in (self_model : pystr) (available_models : list json)
  : result unit bool :=
  match available_models with
  | [] => Return false
  | model :: rest =>
      found <- py_in self_model model ;;
      if found then Return true else any_in self_model rest
  end.

(** The body of the [try] of [_check_ollama_connection], after the request
    [GET /api/tags] was answered by [reply]: the value of [self.model] at the
    end.  The messages that are printed are left out. *)
Definition check_try (reply : ollama_reply) (self_model : pystr)
  : result unit json :=
  match reply with
  | PostRaises _ => Raise tt
  | Responded status_code body =>
      if (status_code =? 200)%Z then
        match body with
        | Raise _ => Raise tt
        | Return v =>
            models <- get_models v ;;
            match iterate models with
            | Raise _ => Raise tt
            | Return entries =>
                available_models <- names_of entries ;;
                found <- any_in self_model available_models ;;
                if negb found then
                  match available_models with
                  | first :: _ => Return first
                  | [] => Return (JStr self_model)
                  end
                else Return (JStr self_model)
            end
        end
      else Return (JStr self_model)
  end.

(** [LLMService._check_ollama_connection]: the value of [self.model] after
    the call.  Every exception ends in the handler, which only prints. *)
Definition _check_ollama_connection (reply : ollama_reply)
  (self_model : pystr) : json :=
  match check_try reply self_model with
  | Return model => model
  | Raise _ => JStr self_model
  end.

(** [LLMService._check_connection]: whether [GET /api/tags] is answered
    with 200. *)
Definition _check_connection (reply : ollama_reply) : bool :=
  match reply with
  | PostRaises _ => false
  | Responded status_code _ => (status_code =? 200)%Z
  end.

(** The answer of [/api/tags] that lists the models [names], as Ollama
    gives it; entries have more keys than [name]. *)
Definition tags_entry (name : pystr) : json :=
  JObj [(cp "name", JStr name); (cp "model", JStr name)].

Definition tags_listing (names : list pystr) : ollama_reply :=
  Responded 200 (Return (JObj [(cp "models", JArr (map tags_entry names))])).

(** An entry of the listing that has the name [name]. *)
Definition entry_named (entry : json) (name : pystr) : Prop :=
  exists e, entry = JObj e /\ dict_get (cp "name") e = Some (JStr name).

End Connection.

(* ================================================================== *)
(** * The transcription service (services/speech_to_text.py) *)
(* ================================================================== *)

Module Speech.

Import Fallback Json LLMService.

Local Open Scope N_scope.

(** [p.rfind(c)] for a one-character [c]: the last index of [c], or -1. *)
Fixpoint rfind (c : N) (p : pystr) : Z :=
  match p with
  | [] => (-1)%Z
  | x :: r =>
      let i := rfind c r in
      if (0 <=? i)%Z then (i + 1)%Z
      else if x =? c then 0%Z else (-1)%Z
  end.

(** [p[i:j]] for indices that are not negative. *)
Definition slice (p : pystr) (i j : Z) : pystr :=
  firstn (Z.to_nat j - Z.to_nat i) (skipn (Z.to_nat i) p).

(** The loop of [genericpath._splitext] that skips the leading dots of the
    file name; it runs at most [fuel] times, and [len(p)] times are enough. *)
Fixpoint skip_dots (fuel : nat) (p : pystr) (filenameIndex dotIndex : Z)
  : pystr * pystr :=
  match fuel with
  | O => (p, [])
  | S fuel' =>
      if (filenameIndex <? dotIndex)%Z then
        if negb (pystr_eqb (slice p filenameIndex (filenameIndex + 1)) (cp "."))
        then (slice p 0 dotIndex, skipn (Z.to_nat dotIndex) p)
        else skip_dots fuel' p (filenameIndex + 1) dotIndex
      else (p, [])
  end.

(** [os.path.splitext(p)] on a POSIX system. *)
Definition splitext (p : pystr) : pystr * pystr :=
  let sepIndex := rfind 47 p in
  let dotIndex := rfind 46 p in
  if (sepIndex <? dotIndex)%Z then skip_dots (length p) p (sepIndex + 1) dotIndex
  else (p, []).

(** [file_ext in ['.wav', '.mp3', '.m4a', '.flac']] *)
Definition supported (file_ext : pystr) : bool :=
  existsb (pystr_eqb file_ext) [cp ".wav"; cp ".mp3"; cp ".m4a"; cp ".flac"].

(** What the three library calls of the conversion do together
    ([AudioSegment.from_file], [tempfile.mktemp], [audio.export]): the WAV
    file is written at [temp_path]; or one of them raises, and the export
    may have left a file behind. *)
Inductive conversion : Type :=
| Converted (temp_path : pystr)
| ConversionFailed (left_behind : option pystr).

(** What the service does not decide.  An error is given as [str(e)]. *)
Record speech_env : Type := mk_speech_env {
  convert : pystr -> conversion;
  model_transcribe : pystr -> result pystr pystr;  (* self.model.transcribe(path)["text"] *)
  remove_failure : pystr -> option pystr           (* os.remove(path) *)
}.

Definition exists_file (path : pystr) (files : list pystr) : bool :=
  existsb (pystr_eqb path) files.

Definition write_file (path : pystr) (files : list pystr) : list pystr :=
  if exists_file path files then files else path :: files.

(** [os.remove(path)] *)
Definition os_remove (se : speech_env) (path : pystr) (files : list pystr)
  : list pystr * result pystr unit :=
  if exists_file path files then
    match remove_failure se path with
    | Some msg => (files, Raise msg)
    | None => (filter (fun f => negb (pystr_eqb path f)) files, Return tt)
    end
  else
    (files,
     Raise (cp "[Errno 2] No such file or directory: '" ++ path ++ cp "'")).

(** [SpeechToTextService._prepare_audio], on the files that exist: the files
    afterwards and the path that is returned.  The extension in small
    letters is only compared with four ASCII texts, for which [lower] agrees
    with [str.lower]: no code point outside ASCII becomes one of their
    letters. *)
Definition _prepare_audio (se : speech_env) (audio_path : pystr)
  (files : list pystr) : list pystr * pystr :=
  let file_ext := lower (snd (splitext audio_path)) in
  if supported file_ext then (files, audio_path)
  else
    match convert se audio_path with
    | Converted temp_path => (write_file temp_path files, temp_path)
    | ConversionFailed (Some path) => (write_file path files, audio_path)
    | ConversionFailed None => (files, audio_path)
    end.

Definition transcription_failed (msg : pystr) : exn :=
  Exception (cp "Failed to transcribe audio: " ++ msg).

(** [SpeechToTextService.transcribe_audio] *)
Definition transcribe_audio (se : speech_env) (audio_path : pystr)
  (files : list pystr) : list pystr * result exn pystr :=
  let (files1, converted_path) := _prepare_audio se audio_path files in
  match model_transcribe se converted_path with
  | Raise msg => (files1, Raise (transcription_failed msg))
  | Return text =>
      if negb (pystr_eqb converted_path audio_path) then
        match os_remove se converted_path files1 with
        | (files2, Return _) => (files2, Return (strip text))
        | (files2, Raise msg) => (files2, Raise (transcription_failed msg))
        end
      else (files1, Return (strip text))
  end.

(** A service whose conversion writes [/tmp/tmpab12.wav] and whose model
    fails on every file. *)
Definition failing_model : speech_env :=
  mk_speech_env (fun _ => Converted (cp "/tmp/tmpab12.wav"))
                (fun _ => Raise (cp "out of memory"))
                (fun _ => None).

(** A service whose model hears the same words in every file. *)
Definition hearing_model : speech_env :=
  mk_speech_env (fun _ => Converted (cp "/tmp/tmpab12.wav"))
                (fun _ => Return (cp " Hello everyone. "))
                (fun _ => None).

End Speech.

(* ================================================================== *)
(** * The calendar service (services/calendar_service.py) and the route
      [/calendar_integration] *)
(* ================================================================== *)

Module Calendar.

Import Fallback Json LLMService App Models.

Local Open Scope Z_scope.

(** A [datetime] without time zone, as the number of microseconds since
    0001-01-01 00:00:00; the last one is 9999-12-31 23:59:59.999999. *)
Definition datetime_max : Z := 315537897599999999.

Definition timedelta_days (days : Z) : Z := days * 86400000000.

Definition timedelta_hours (hours : Z) : Z := hours * 3600000000.

(** [d + delta], which raises an [OverflowError] outside the years 1 to
    9999. *)
Definition datetime_add (d delta : Z) : result pystr Z :=
  if (0 <=? d + delta) && (d + delta <=? datetime_max)
  then Return (d + delta)
  else Raise (cp "date value out of range").

(** The body of the request to [events().insert]; the time zone and the
    reminders are constants. *)
Record event : Type := mk_event {
  ev_summary : pystr;
  ev_description : pystr;
  ev_start : pystr;
  ev_end : pystr;
  ev_attendees : option (list pystr)
}.

(** The four keys that [create_event] reads from the event that the API
    returns. *)
Record created_event : Type := mk_created {
  ce_id : pystr;
  ce_htmlLink : pystr;
  ce_summary : pystr;
  ce_start : pystr
}.

(** What [events().insert(...).execute()] does. *)
Inductive insert_outcome : Type :=
| Inserted (created : created_event)
| HttpError (error : pystr)
| InsertRaises (error : pystr).

(** The attributes of a [Credentials] object that [authenticate] reads. *)
Record credentials : Type := mk_credentials {
  valid : bool;
  expired : bool;
  refresh_token : bool
}.

(** What one call of [create_event] takes from the libraries and the
    system.  An error is given as [str(e)]. *)
Record calendar_env : Type := mk_calendar_env {
  token_file_exists : bool;                  (* os.path.exists('token.json') *)
  from_authorized_user_file : result pystr credentials;
  refresh_error : option pystr;              (* creds.refresh(Request()) *)
  credentials_file_exists : bool;            (* os.path.exists('credentials.json') *)
  run_local_server_error : option pystr;     (* the flow of InstalledAppFlow *)
  token_write_error : option pystr;          (* open and write of token.json *)
  build_error : option pystr;                (* build('calendar', 'v3', ...) *)
  now : Z;                                   (* datetime.now() in _parse_due_date *)
  strptime : pystr -> pystr -> option Z;     (* None for a ValueError *)
  isoformat : Z -> pystr;
  created_stamp : pystr;     (* datetime.now().strftime('%Y-%m-%d %H:%M:%S') *)
  insert : event -> insert_outcome;
  item_query_error : option pystr            (* sqlite3, ActionItem.get_by_id *)
}.

(** The service object and the calendar: whether [self.service] is set,
    whether [token.json] was written, and the events whose insertion the
    API has confirmed. *)
Record calendar : Type := mk_calendar {
  service_built : bool;
  token_written : bool;
  events : list event
}.

Definition raise_if {A : Type} (error : option pystr) (k : result pystr A)
  : result pystr A :=
  match error with
  | Some msg => Raise msg
  | None => k
  end.

(** The part of [authenticate] before [build]: whether the token has to be
    written, or [False] is returned. *)
Inductive token_step : Type :=
| TokenValid
| TokenToWrite
| NoCredentials.

Definition obtain_credentials (ce : calendar_env) : result pystr token_step :=
  creds <- (if token_file_exists ce
            then c <- from_authorized_user_file ce ;; Return (Some c)
            else Return None) ;;
  let needs_new :=
    match creds with
    | None => true
    | Some c => negb (valid c)
    end in
  if needs_new then
    let refreshable :=
      match creds with
      | None => false
      | Some c => expired c && refresh_token c
      end in
    if refreshable then raise_if (refresh_error ce) (Return TokenToWrite)
    else if credentials_file_exists ce
         then raise_if (run_local_server_error ce) (Return TokenToWrite)
         else Return NoCredentials
  else Return TokenValid.

(** [CalendarService.authenticate] *)
Definition authenticate (ce : calendar_env) (c : calendar)
  : calendar * result pystr bool :=
  match obtain_credentials ce with
  | Raise msg => (c, Raise msg)
  | Return NoCredentials => (c, Return false)
  | Return step =>
      let write := match step with TokenToWrite => true | _ => false end in
      match (if write then token_write_error ce else None) with
      | Some msg => (c, Raise msg)
      | None =>
          let c1 := mk_calendar (service_built c)
                                (token_written c || write) (events c) in
          match build_error ce with
          | Some msg => (c1, Raise msg)
          | None =>
              (mk_calendar true (token_written c1) (events c1), Return true)
          end
      end
  end.

(** The formats that [_parse_due_date] tries, in this order. *)
Definition formats : list pystr :=
  [cp "%Y-%m-%d"; cp "%m/%d/%Y"; cp "%d/%m/%Y"; cp "%Y-%m-%d %H:%M"].

Fixpoint try_formats (ce : calendar_env) (due_date_str : pystr)
  (fmts : list pystr) : option Z :=
  match fmts with
  | [] => None
  | fmt :: rest =>
      match strptime ce due_date_str fmt with
      | Some d => Some d
      | None => try_formats ce due_date_str rest
      end
  end.

(** [CalendarService._parse_due_date] *)
Definition _parse_due_date (ce : calendar_env) (due_date_str : pystr)
  : result pystr Z :=
  if negb (truthy due_date_str)
     || pystr_eqb due_date_str (cp "No due date specified")
  then datetime_add (now ce) (timedelta_days 7)
  else
    match try_formats ce due_date_str formats with
    | Some d => Return d
    | None => datetime_add (now ce) (timedelta_days 7)
    end.

(** The dictionary [event] of [create_event]. *)
Definition event_of (ce : calendar_env) (action_item : action_item_row)
  (due_date end_date : Z) : event :=
  mk_event
    (cp "Action Item: " ++ firstn 50 (ai_description action_item) ++ cp "...")
    (strip (cp "
Action Item from Meeting

Description: " ++ ai_description action_item ++ cp "
Assignee: " ++ ai_assignee action_item ++ cp "
Priority: " ++ ai_priority action_item ++ cp "
Created: " ++ created_stamp ce ++ cp "
                "))
    (isoformat ce due_date)
    (isoformat ce end_date)
    (if truthy (ai_assignee action_item)
        && contains (cp "@") (ai_assignee action_item)
     then Some [ai_assignee action_item]
     else None).

(** The two handlers of [create_event] tell an [HttpError] from the other
    exceptions. *)
Inductive raised : Type :=
| RaisedHttpError (error : pystr)
| RaisedException (error : pystr).

(** The body of the [try] of [create_event]; [action_item] is [None] when
    [ActionItem.get_by_id] found no row. *)
Definition create_try (ce : calendar_env) (action_item : option action_item_row)
  (c : calendar) : calendar * result raised created_event :=
  match action_item with
  | None =>
      (c, Raise (RaisedException
                   (cp "'NoneType' object has no attribute 'get'")))
  | Some item =>
      match _parse_due_date ce (ai_due_date item) with
      | Raise msg => (c, Raise (RaisedException msg))
      | Return due_date =>
          match datetime_add due_date (timedelta_hours 1) with
          | Raise msg => (c, Raise (RaisedException msg))
          | Return end_date =>
              let ev := event_of ce item due_date end_date in
              match insert ce ev with
              | Inserted created =>
                  (mk_calendar (service_built c) (token_written c)
                               (events c ++ [ev]),
                   Return created)
              | HttpError error => (c, Raise (RaisedHttpError error))
              | InsertRaises error => (c, Raise (RaisedException error))
              end
          end
      end
  end.

(** [CalendarService.create_event] *)
Definition create_event (ce : calendar_env) (action_item : option action_item_row)
  (c : calendar) : calendar * result exn created_event :=
  let authenticated :=
    if service_built c then (c, Return true) else authenticate ce c in
  match authenticated with
  | (c1, Raise msg) => (c1, Raise (Exception msg))
  | (c1, Return false) =>
      (c1, Raise (Exception (cp "Calendar authentication failed")))
  | (c1, Return true) =>
      match create_try ce action_item c1 with
      | (c2, Return created) => (c2, Return created)
      | (c2, Raise (RaisedHttpError error)) =>
          (c2, Raise (Exception
                        (cp "Failed to create calendar event: " ++ error)))
      | (c2, Raise (RaisedException error)) =>
          (c2, Raise (Exception (cp "Calendar integration failed: " ++ error)))
      end
  end.

(** One entry of [results]; its [status] is the constant ['success']. *)
Record calendar_result : Type := mk_calendar_result {
  item_id : Z;
  event_id : pystr
}.

(** The loop of [calendar_integration]; [envs n] is what the libraries do
    during the step number [n]. *)
Fixpoint add_events (envs : nat -> calendar_env) (n : nat)
  (selected_items : list Z) (w : world) (results : list calendar_result)
  (c : calendar) : calendar * result exn (list calendar_result) :=
  match selected_items with
  | [] => (c, Return results)
  | id :: rest =>
      match ActionItem_get_by_id (item_query_error (envs n)) id w with
      | Raise e => (c, Raise e)
      | Return action_item =>
          match create_event (envs n) action_item c with
          | (c1, Raise e) => (c1, Raise e)
          | (c1, Return calendar_event) =>
              add_events envs (S n) rest w
                (results ++ [mk_calendar_result id (ce_id calendar_event)]) c1
          end
      end
  end.

(** The answers of the route. *)
Inductive calendar_answer : Type :=
| CalendarError (error : pystr) (status : Z)
| CalendarSuccess (results : list calendar_result).

(** [calendar_integration], for a request whose JSON document is an object;
    [action_items] is the value of its key [action_items], a list of
    integers, when the key is there. *)
Definition calendar_integration (envs : nat -> calendar_env)
  (action_items : option (list Z)) (w : world) (c : calendar)
  : calendar * calendar_answer :=
  let selected_items :=
    match action_items with
    | Some ids => ids
    | None => []
    end in
  match add_events envs 0 selected_items w [] c with
  | (c1, Return results) => (c1, CalendarSuccess results)
  | (c1, Raise e) => (c1, CalendarError (str_of_exn e) 500)
  end.

(** A calendar that accepts every event, on 2024-01-06 09:00:00, with a
    valid token. *)
Definition accepting_calendar : calendar_env :=
  mk_calendar_env true (Return (mk_credentials true false true)) None true
    None None None 63840128400000000 (fun _ _ => None)
    (fun d => str_of_Z d) (cp "2024-01-06 09:00:00")
    (fun ev => Inserted (mk_created (cp "evt1") (cp "https://calendar/evt1")
                                    (ev_summary ev) (ev_start ev)))
    None.

(** The same calendar when the API refuses the events. *)
Definition refusing_calendar : calendar_env :=
  mk_calendar_env true (Return (mk_credentials true false true)) None true
    None None None 63840128400000000 (fun _ _ => None)
    (fun d => str_of_Z d) (cp "2024-01-06 09:00:00")
    (fun _ => HttpError (cp "<HttpError 403 Forbidden>"))
    None.

(** The first call is accepted, the later ones are refused. *)
Definition refusing_after_one (n : nat) : calendar_env :=
  match n with
  | O => accepting_calendar
  | S _ => refusing_calendar
  end.

Definition new_calendar : calendar := mk_calendar false false [].

End Calendar.

(* ================================================================== *)
(** * The clean-up of the temporary files (services/file_service.py) *)
(* ================================================================== *)

Module TempFiles.

Import Fallback Json LLMService.

Local Open Scope N_scope.

(** What [cleanup_temp_files] takes from the system.  [too_old name] is the
    outcome of [os.path.getctime] on the file and of the comparison of its
    age with [max_age_hours * 3600] seconds. *)
Record cleanup_env : Type := mk_cleanup_env {
  listdir_error : option pystr;               (* os.listdir(self.temp_dir) *)
  too_old : pystr -> result pystr bool;
  remove_error : pystr -> option pystr        (* os.remove(filepath) *)
}.

Definition in_dir (filename : pystr) (dir : list pystr) : bool :=
  existsb (pystr_eqb filename) dir.

(** [os.remove(os.path.join(self.temp_dir, filename))] on the names of the
    directory. *)
Definition os_remove (ce : cleanup_env) (filename : pystr) (dir : list pystr)
  : list pystr * result pystr unit :=
  if in_dir filename dir then
    match remove_error ce filename with
    | Some msg => (dir, Raise msg)
    | None => (filter (fun f => negb (pystr_eqb filename f)) dir, Return tt)
    end
  else (dir, Raise (cp "[Errno 2] No such file or directory")).

(** The loop over the names that [os.listdir] gave; the result is the
    directory afterwards.  An exception leaves the loop and is printed by the
    handler. *)
Fixpoint cleanup_loop (ce : cleanup_env) (names dir : list pystr)
  : list pystr :=
  match names with
  | [] => dir
  | filename :: rest =>
      if startswith (cp "meeting_") filename then
        match too_old ce filename with
        | Raise _ => dir
        | Return true =>
            match os_remove ce filename dir with
            | (dir1, Return _) => cleanup_loop ce rest dir1
            | (dir1, Raise _) => dir1
            end
        | Return false => cleanup_loop ce rest dir
        end
      else cleanup_loop ce rest dir
  end.

(** [FileService.cleanup_temp_files]: the names in the temporary directory
    after the call. *)
Definition cleanup_temp_files (ce : cleanup_env) (dir : list pystr)
  : list pystr :=
  match listdir_error ce with
  | Some _ => dir
  | None => cleanup_loop ce dir dir
  end.

(** The files that a complete clean-up keeps. *)
Definition kept (ce : cleanup_env) (filename : pystr) : bool :=
  negb (startswith (cp "meeting_") filename
        && match too_old ce filename with
           | Return true => true
           | _ => false
           end).

(** No call fails on the file [filename]. *)
Definition no_failure (ce : cleanup_env) (filename : pystr) : Prop :=
  (exists old, too_old ce filename = Return old) /\
  remove_error ce filename = None.

(** Every file is old; the file [meeting_b.pdf] cannot be removed. *)
Definition locked_file : cleanup_env :=
  mk_cleanup_env None (fun _ => Return true)
    (fun f => if pystr_eqb f (cp "meeting_b.pdf")
              then Some (cp "[Errno 13] Permission denied") else None).

End TempFiles.

Import Fallback Json LLMService App Spec.

Unset Implicit Arguments.

(* ================================================================== *)
(** ** Lemmas on strings *)
(* ================================================================== *)

Section StringFacts.

Local Open Scope N_scope.

Lemma lstrip_length (s : pystr) : (length (lstrip s) <= length s)%nat.
Proof.
  induction s as [|c r IH]; simpl; [lia|].
  destruct (isspace c); simpl; lia.
Qed.

(** [lstrip] leaves [s] alone exactly when [s] does not start with white
    space. *)
Lemma lstrip_fix (s : pystr) :
  lstrip s = s <-> match s with [] => True | c :: _ => isspace c = false end.
Proof.
  destruct s as [|c r]; simpl; [tauto|].
  destruct (isspace c) eqn:E; split; intro H; try congruence.
  pose proof (lstrip_length r) as L. rewrite H in L. simpl in L. lia.
Qed.

Lemma lstrip_head (s : pystr) :
  match lstrip s with [] => True | c :: _ => isspace c = false end.
Proof.
  induction s as [|c r IH]; simpl; [exact I|].
  destruct (isspace c) eqn:E; [exact IH | exact E].
Qed.

Lemma lstrip_idem (s : pystr) : lstrip (lstrip s) = lstrip s.
Proof. apply lstrip_fix, lstrip_head. Qed.

(** [lstrip] drops a prefix. *)
Lemma lstrip_suffix (s : pystr) : exists p, s = p ++ lstrip s.
Proof.
  induction s as [|c r [p IH]]; simpl.
  - exists []. reflexivity.
  - destruct (isspace c).
    + exists (c :: p). simpl. now rewrite <- IH.
    + exists []. reflexivity.
Qed.

(** [rstrip] drops a suffix. *)
Lemma rstrip_prefix (s : pystr) : exists q, s = rstrip s ++ q.
Proof.
  unfold rstrip. destruct (lstrip_suffix (rev s)) as [p Hp].
  exists (rev p).
  rewrite <- rev_app_distr, <- Hp. now rewrite rev_involutive.
Qed.

Lemma rstrip_fix (s : pystr) : rstrip s = s <-> lstrip (rev s) = rev s.
Proof.
  unfold rstrip. split; intro H.
  - rewrite <- H at 2. now rewrite rev_involutive.
  - rewrite H. apply rev_involutive.
Qed.

Lemma strip_stripped (s : pystr) : stripped (strip s).
Proof.
  unfold stripped, strip. split.
  - destruct (rstrip_prefix (lstrip s)) as [q Hq].
    apply lstrip_fix.
    destruct (rstrip (lstrip s)) as [|c r] eqn:E; [exact I|].
    pose proof (lstrip_head s) as Hh. rewrite Hq in Hh. exact Hh.
  - apply rstrip_fix. unfold rstrip. rewrite rev_involutive. apply lstrip_idem.
Qed.

Lemma stripped_strip (s : pystr) : stripped s -> strip s = s.
Proof. intros [H1 H2]. unfold strip. now rewrite H1. Qed.

Lemma strip_idem (s : pystr) : strip (strip s) = strip s.
Proof. apply stripped_strip, strip_stripped. Qed.

(** A non-empty suffix of a string without trailing white space has none
    either. *)
Lemma rstrip_fix_suffix (p u : pystr) :
  u <> [] -> rstrip (p ++ u) = p ++ u -> rstrip u = u.
Proof.
  intros Hu H. apply rstrip_fix. apply rstrip_fix in H.
  rewrite rev_app_distr in H. apply lstrip_fix in H. apply lstrip_fix.
  destruct (rev u) as [|c r] eqn:E.
  - exact I.
  - simpl in H. exact H.
Qed.

Lemma lstrip_In (x : N) (s : pystr) : In x (lstrip s) -> In x s.
Proof.
  destruct (lstrip_suffix s) as [p Hp]. intro H.
  rewrite Hp. apply in_or_app. now right.
Qed.

Lemma strip_In (x : N) (s : pystr) : In x (strip s) -> In x s.
Proof.
  unfold strip. intro H. apply lstrip_In.
  destruct (rstrip_prefix (lstrip s)) as [q Hq].
  rewrite Hq. apply in_or_app. now left.
Qed.

Lemma truthy_true (s : pystr) : truthy s = true <-> s <> [].
Proof. destruct s; simpl; split; congruence. Qed.

Lemma truthy_false (s : pystr) : truthy s = false <-> s = [].
Proof. destruct s; simpl; split; congruence. Qed.

Lemma pystr_eqb_eq (a b : pystr) : pystr_eqb a b = true <-> a = b.
Proof.
  unfold pystr_eqb. destruct (list_eq_dec N.eq_dec a b); split; congruence.
Qed.

(** [startswith] and [in] against their meaning on lists. *)
Lemma startswith_spec (p s : pystr) :
  startswith p s = true <-> exists suf, s = p ++ suf.
Proof.
  revert s. induction p as [|a p IH]; intros s; simpl.
  - split; [intros _; now exists s | reflexivity].
  - destruct s as [|b s]; simpl.
    + split; [discriminate | intros [suf H]; discriminate].
    + rewrite andb_true_iff, N.eqb_eq, IH. split.
      * intros [-> [suf ->]]. now exists suf.
      * intros [suf H]. injection H as -> ->. split; [reflexivity | now exists suf].
Qed.


(** Lines and newlines. *)
Lemma split_lines_nonempty (s : pystr) : split_lines s <> [].
Proof.
  destruct s as [|c r]; simpl; [discriminate|].
  destruct (c =? 10); [discriminate|].
  destruct (split_lines r); discriminate.
Qed.

Lemma split_lines_no_newline (s l : pystr) :
  In l (split_lines s) -> ~ In 10 l.
Proof.
  revert l. induction s as [|c r IH]; intros l; simpl.
  - intros [<- | []]. intros [].
  - destruct (c =? 10) eqn:E.
    + intros [<- | H]; [intros [] | now apply IH].
    + destruct (split_lines r) as [|l0 ls] eqn:Er.
      * intros [<- | []]. intros [H | []]. subst. discriminate.
      * intros [<- | H].
        -- intros [H | H]; [subst; discriminate|].
           apply (IH l0); [now left | exact H].
        -- apply IH. now right.
Qed.

Lemma split_lines_line (l : pystr) : ~ In 10 l -> split_lines l = [l].
Proof.
  induction l as [|c r IH]; intro H; simpl; [reflexivity|].
  destruct (c =? 10) eqn:E.
  - apply N.eqb_eq in E. subst. exfalso. apply H. now left.
  - rewrite IH; [reflexivity|]. intro H'. apply H. now right.
Qed.

Lemma split_lines_app (l rest : pystr) :
  ~ In 10 l -> split_lines (l ++ 10 :: rest) = l :: split_lines rest.
Proof.
  induction l as [|c r IH]; intro H; simpl; [reflexivity|].
  destruct (c =? 10) eqn:E.
  - apply N.eqb_eq in E. subst. exfalso. apply H. now left.
  - rewrite IH; [reflexivity|]. intro H'. apply H. now right.
Qed.

(** Splitting what was joined gives the lines back. *)
Lemma split_join_lines (ls : list pystr) :
  ls <> [] -> Forall (fun l => ~ In 10 l) ls ->
  split_lines (join_lines ls) = ls.
Proof.
  induction ls as [|l rest IH]; intros Hne Hall; [congruence|].
  inversion Hall as [|? ? Hl Hrest]; subst.
  destruct rest as [|l' rest'].
  - simpl. now apply split_lines_line.
  - change (join_lines (l :: l' :: rest')) with (l ++ 10 :: join_lines (l' :: rest')).
    rewrite split_lines_app by exact Hl.
    rewrite IH; [reflexivity | discriminate | exact Hrest].
Qed.

End StringFacts.

(* ================================================================== *)
(** ** The decoder always answers *)
(* ================================================================== *)

Section DecoderBudget.

Local Open Scope N_scope.

Lemma skip_ws_length (s : pystr) : (length (skip_ws s) <= length s)%nat.
Proof.
  induction s as [|c r IH]; simpl; [lia|].
  destruct (is_ws c); simpl; lia.
Qed.

Lemma span_digits_length (s ds rest : pystr) :
  span_digits s = (ds, rest) -> (length rest <= length s)%nat.
Proof.
  revert ds rest. induction s as [|c r IH]; intros ds rest; simpl.
  - intros [= <- <-]. simpl. lia.
  - destruct (is_digit c).
    + destruct (span_digits r) as [ds' rest'] eqn:E. intros [= <- <-].
      specialize (IH _ _ eq_refl). lia.
    + intros [= <- <-]. simpl. lia.
Qed.

Ltac break_match :=
  match goal with
  | H : context [match ?x with _ => _ end] |- _ => destruct x eqn:?
  | H : context [if ?x then _ else _] |- _ => destruct x eqn:?
  | H : context [let (_, _) := ?x in _] |- _ => destruct x eqn:?
  end.

(** A number takes at least one character. *)
Lemma match_number_length (s lexeme rest : pystr) (fl : bool) :
  match_number s = Some (fl, lexeme, rest) -> (length rest < length s)%nat.
Proof.
  unfold match_number. intro H.
  repeat (break_match; try discriminate).
  all: repeat match goal with
    | E : span_digits _ = _ |- _ => apply span_digits_length in E
    end.
  all: repeat match goal with
    | E : (_, _) = (_, _) |- _ => injection E as ? ?
    | E : Some _ = Some _ |- _ => injection E as ?
    end.
  all: subst; simpl in *; lia.
Qed.

(** [scanstring] needs no budget, and consumes the closing quote. *)
Lemma scanstring_scans (n : nat) :
  forall s acc, (length s <= n)%nat ->
    scanstring s acc <> NoFuel /\
    forall v rest, scanstring s acc = Scanned v rest ->
                   (length rest < length s)%nat.
Proof.
  induction n as [|n IH]; intros s acc Hn.
  - destruct s; simpl in *; [|lia]. split; [discriminate | intros; discriminate].
  - destruct s as [|c r]; simpl in *.
    + split; [discriminate | intros; discriminate].
    + assert (Hrec : forall s' acc', (length s' <= length r)%nat ->
                scanstring s' acc' <> NoFuel /\
                forall v rest, scanstring s' acc' = Scanned v rest ->
                               (length rest < S (length r))%nat).
      { intros s' acc' Hs'. destruct (IH s' acc') as [A B]; [lia|].
        split; [exact A|]. intros v rest Hv. specialize (B _ _ Hv). lia. }
      repeat match goal with
             | |- context [if ?x then _ else _] => destruct x
             | |- context [match ?x with _ => _ end] => destruct x
             end;
        try (split; [discriminate | intros; discriminate]);
        try (apply Hrec; simpl; lia).
      split; [discriminate|]. intros v rest [= <- <-]. lia.
Qed.

Lemma scanstring_fuel (s acc : pystr) : scanstring s acc <> NoFuel.
Proof. apply (scanstring_scans (length s)). lia. Qed.

Lemma scanstring_length (s acc v rest : pystr) :
  scanstring s acc = Scanned v rest -> (length rest < length s)%nat.
Proof. apply (scanstring_scans (length s)). lia. Qed.

Lemma startswith_skipn (p s : pystr) :
  startswith p s = true -> p <> [] ->
  (length (skipn (length p) s) < length s)%nat.
Proof.
  intros H Hp. apply startswith_spec in H. destruct H as [suf ->].
  rewrite skipn_app, Nat.sub_diag, skipn_all. simpl.
  rewrite length_app. destruct p; [congruence | simpl; lia].
Qed.

Ltac unfold_scanner H :=
  cbn [scan_once parse_array parse_elems parse_object parse_pairs] in H.

Ltac length_facts :=
  repeat match goal with
  | E : skip_ws ?s = _ |- _ =>
      let L := fresh "L" in
      pose proof (skip_ws_length s) as L; rewrite E in L; clear E
  | E : scanstring _ _ = Scanned _ _ |- _ => apply scanstring_length in E
  | E : match_number _ = Some _ |- _ => apply match_number_length in E
  | E : startswith (cp _) _ = true |- _ =>
      apply startswith_skipn in E; [|discriminate]
  end.

(** Every scanning step that succeeds consumes at least one character. *)
Lemma scanner_shrinks (fuel : nat) :
  (forall s v rest, scan_once fuel s = Scanned v rest ->
                    (length rest < length s)%nat) /\
  (forall s v rest, parse_array fuel s = Scanned v rest ->
                    (length rest < length s)%nat) /\
  (forall s acc v rest, parse_elems fuel s acc = Scanned v rest ->
                        (length rest < length s)%nat) /\
  (forall s v rest, parse_object fuel s = Scanned v rest ->
                    (length rest < length s)%nat) /\
  (forall s acc v rest, parse_pairs fuel s acc = Scanned v rest ->
                        (length rest < length s)%nat).
Proof.
  induction fuel as [|f (IH1 & IH2 & IH3 & IH4 & IH5)].
  - repeat split; intros; discriminate.
  - split; [|split; [|split; [|split]]]; intros until rest; intro H;
      unfold_scanner H;
      repeat (break_match; try discriminate);
      repeat match goal with
      | E : scan_once f _ = Scanned _ _ |- _ => apply IH1 in E
      | E : parse_array f _ = Scanned _ _ |- _ => apply IH2 in E
      | E : parse_elems f _ _ = Scanned _ _ |- _ => apply IH3 in E
      | E : parse_object f _ = Scanned _ _ |- _ => apply IH4 in E
      | E : parse_pairs f _ _ = Scanned _ _ |- _ => apply IH5 in E
      end;
      length_facts;
      try (injection H as <- <-);
      repeat match goal with
      | L : context [skip_ws ?s] |- _ =>
          lazymatch goal with
          | _ : (length (skip_ws s) <= length s)%nat |- _ => fail
          | _ => pose proof (skip_ws_length s)
          end
      end;
      simpl in *; lia.
Qed.

Lemma scan_once_length (fuel : nat) (s : pystr) (v : json) (rest : pystr) :
  scan_once fuel s = Scanned v rest -> (length rest < length s)%nat.
Proof. apply (scanner_shrinks fuel). Qed.

(** A budget of three calls for each character is never used up. *)
Lemma scanner_fuel (fuel : nat) :
  (forall s, (3 * length s + 1 <= fuel)%nat -> scan_once fuel s <> NoFuel) /\
  (forall s, (3 * length s + 3 <= fuel)%nat -> parse_array fuel s <> NoFuel) /\
  (forall s acc, (3 * length s + 2 <= fuel)%nat ->
                 parse_elems fuel s acc <> NoFuel) /\
  (forall s, (3 * length s + 3 <= fuel)%nat -> parse_object fuel s <> NoFuel) /\
  (forall s acc, (3 * length s + 2 <= fuel)%nat ->
                 parse_pairs fuel s acc <> NoFuel).
Proof.
  induction fuel as [|f (IH1 & IH2 & IH3 & IH4 & IH5)].
  - repeat split; intros; simpl in *; lia.
  - split; [|split; [|split; [|split]]]; intros until 1; intro Hx;
      unfold_scanner Hx;
      repeat (break_match; try discriminate);
      repeat match goal with
      | E : scan_once f _ = Scanned _ _ |- _ => apply scan_once_length in E
      | E : scanstring _ _ = NoFuel |- _ => now apply scanstring_fuel in E
      end;
      length_facts;
      repeat match goal with
      | L : context [skip_ws ?s] |- _ =>
          lazymatch goal with
          | _ : (length (skip_ws s) <= length s)%nat |- _ => fail
          | _ => pose proof (skip_ws_length s)
          end
      end;
      match goal with
      | E : scan_once f _ = NoFuel |- _ => revert E; apply IH1
      | E : parse_array f _ = NoFuel |- _ => revert E; apply IH2
      | E : parse_elems f _ _ = NoFuel |- _ => revert E; apply IH3
      | E : parse_object f _ = NoFuel |- _ => revert E; apply IH4
      | E : parse_pairs f _ _ = NoFuel |- _ => revert E; apply IH5
      end;
      simpl in *; lia.
Qed.

Ltac sub_call g g' Hle IH1 IH2 IH3 IH4 IH5 :=
  match goal with
  | H : context [scan_once g ?s] |- _ =>
      let E := fresh "E" in
      destruct (scan_once g s) eqn:E;
      [ rewrite (IH1 _ _ E ltac:(discriminate) g' Hle)
      | rewrite (IH1 _ _ E ltac:(discriminate) g' Hle)
      | congruence ]
  | H : context [parse_array g ?s] |- _ =>
      let E := fresh "E" in
      destruct (parse_array g s) eqn:E;
      [ rewrite (IH2 _ _ E ltac:(discriminate) g' Hle)
      | rewrite (IH2 _ _ E ltac:(discriminate) g' Hle)
      | congruence ]
  | H : context [parse_elems g ?s ?acc] |- _ =>
      let E := fresh "E" in
      destruct (parse_elems g s acc) eqn:E;
      [ rewrite (IH3 _ _ _ E ltac:(discriminate) g' Hle)
      | rewrite (IH3 _ _ _ E ltac:(discriminate) g' Hle)
      | congruence ]
  | H : context [parse_object g ?s] |- _ =>
      let E := fresh "E" in
      destruct (parse_object g s) eqn:E;
      [ rewrite (IH4 _ _ E ltac:(discriminate) g' Hle)
      | rewrite (IH4 _ _ E ltac:(discriminate) g' Hle)
      | congruence ]
  | H : context [parse_pairs g ?s ?acc] |- _ =>
      let E := fresh "E" in
      destruct (parse_pairs g s acc) eqn:E;
      [ rewrite (IH5 _ _ _ E ltac:(discriminate) g' Hle)
      | rewrite (IH5 _ _ _ E ltac:(discriminate) g' Hle)
      | congruence ]
  end.

(** A result that was reached within the budget is the result for every
    larger budget. *)
Lemma scanner_budget_free (fuel : nat) :
  (forall s r, scan_once fuel s = r -> r <> NoFuel ->
     forall fuel', (fuel <= fuel')%nat -> scan_once fuel' s = r) /\
  (forall s r, parse_array fuel s = r -> r <> NoFuel ->
     forall fuel', (fuel <= fuel')%nat -> parse_array fuel' s = r) /\
  (forall s acc r, parse_elems fuel s acc = r -> r <> NoFuel ->
     forall fuel', (fuel <= fuel')%nat -> parse_elems fuel' s acc = r) /\
  (forall s r, parse_object fuel s = r -> r <> NoFuel ->
     forall fuel', (fuel <= fuel')%nat -> parse_object fuel' s = r) /\
  (forall s acc r, parse_pairs fuel s acc = r -> r <> NoFuel ->
     forall fuel', (fuel <= fuel')%nat -> parse_pairs fuel' s acc = r).
Proof.
  induction fuel as [|g (IH1 & IH2 & IH3 & IH4 & IH5)].
  - split; [|split; [|split; [|split]]]; intros; subst; simpl in *; congruence.
  - split; [|split; [|split; [|split]]]; intros until r; intros H Hr fuel' Hle;
      (destruct fuel' as [|g']; [lia|]);
      assert (Hle' : (g <= g')%nat) by lia;
      cbn [scan_once parse_array parse_elems parse_object parse_pairs] in H |- *;
      subst r;
      repeat first
        [ reflexivity
        | sub_call g g' Hle' IH1 IH2 IH3 IH4 IH5
        | match goal with
          | H : context [match ?x with _ => _ end] |- _ => destruct x eqn:?
          | H : context [if ?x then _ else _] |- _ => destruct x eqn:?
          end ].
Qed.

(** [raw_decode] never runs out of budget, and a larger budget gives the same
    answer: the decoder of the model is the total function that [json.loads]
    is, and [None] always stands for a [JSONDecodeError]. *)
Lemma raw_decode_fuel (s : pystr) : raw_decode s <> NoFuel.
Proof.
  unfold raw_decode, fuel_for. apply (scanner_fuel (3 * length s + 1)).
  pose proof (skip_ws_length s). lia.
Qed.

Lemma raw_decode_budget_free (s : pystr) (fuel : nat) :
  (fuel_for s <= fuel)%nat -> scan_once fuel (skip_ws s) = raw_decode s.
Proof.
  intro H.
  apply (proj1 (scanner_budget_free (fuel_for s)) (skip_ws s) (raw_decode s));
    [reflexivity | apply raw_decode_fuel | exact H].
Qed.

Lemma json_loads_none (s : pystr) :
  json_loads s = None <->
  startswith [0xFEFF] s = true \/ raw_decode s = DecodeError \/
  exists v rest, raw_decode s = Scanned v rest /\ skip_ws rest <> [].
Proof.
  unfold json_loads. pose proof (raw_decode_fuel s) as Hf.
  destruct (startswith [0xFEFF] s); [split; auto|].
  destruct (raw_decode s) as [v rest| |]; [| |congruence].
  - destruct (skip_ws rest) eqn:E; split.
    + discriminate.
    + intros [H | [H | (v' & rest' & [= <- <-] & H)]]; congruence.
    + intros _. right. right. exists v, rest. split; [reflexivity|]. congruence.
    + reflexivity.
  - split; auto.
Qed.

End DecoderBudget.

(* ================================================================== *)
(** ** The line-based fallback *)
(* ================================================================== *)

Section FallbackFacts.

Local Open Scope N_scope.

Lemma loop_body_app (acc : list action_item) (raw : pystr) :
  loop_body acc raw = acc ++ line_items raw.
Proof.
  unfold line_items, loop_body.
  destruct (line_test (strip raw)); [|now rewrite app_nil_r].
  destruct (truthy (re_sub_bullet (strip raw))); [reflexivity|].
  now rewrite app_nil_r.
Qed.

Lemma fold_loop_body (lines : list pystr) (acc : list action_item) :
  fold_left loop_body lines acc = acc ++ flat_map line_items lines.
Proof.
  revert acc. induction lines as [|raw rest IH]; intro acc; simpl.
  - now rewrite app_nil_r.
  - rewrite IH, loop_body_app. now rewrite <- app_assoc.
Qed.

Lemma line_items_emits (raw : pystr) :
  line_items raw =
  if emits raw then [text_item (line_description raw)] else [].
Proof.
  unfold line_items, loop_body, emits, line_description.
  destruct (line_test (strip raw)); simpl; [|reflexivity].
  destruct (truthy (re_sub_bullet (strip raw))); reflexivity.
Qed.

Lemma flat_map_line_items (lines : list pystr) :
  flat_map line_items lines =
  map (fun raw => text_item (line_description raw)) (filter emits lines).
Proof.
  induction lines as [|raw rest IH]; simpl; [reflexivity|].
  rewrite line_items_emits, IH. destruct (emits raw); reflexivity.
Qed.

(** The fallback keeps the first ten of the lines that add a record. *)
Lemma parse_text_filter (text : pystr) :
  _parse_text_action_items text =
  map (fun raw => text_item (line_description raw))
      (firstn 10 (filter emits (split_lines text))).
Proof.
  unfold _parse_text_action_items.
  rewrite fold_loop_body, app_nil_l, flat_map_line_items.
  apply firstn_map.
Qed.

Lemma parse_text_length (text : pystr) :
  (length (_parse_text_action_items text) <= 10)%nat.
Proof. unfold _parse_text_action_items. apply firstn_le_length. Qed.


(** For a trimmed line the code removes the bullet as the specification
    says. *)
Lemma unbulleted_re_sub (line : pystr) :
  stripped line -> unbulleted line = re_sub_bullet line.
Proof.
  intros [Hl Hr]. destruct line as [|c r]; [reflexivity|].
  unfold unbulleted, re_sub_bullet.
  destruct ((c =? 45) || (c =? 42)).
  - unfold strip. destruct (lstrip r) as [|x t] eqn:E; [reflexivity|].
    destruct (lstrip_suffix r) as [p Hp]. rewrite E in Hp.
    apply (rstrip_fix_suffix (c :: p)); [discriminate|].
    simpl. rewrite <- Hp. exact Hr.
  - apply stripped_strip. now split.
Qed.



End FallbackFacts.

(** C3, as the specification states it, fails: the line of scenario 4 holds
    the word action, so the extractor does not return the empty
    sequence. *)
Lemma scenario4_not_empty : _parse_action_items scenario4 <> Return [].
Proof. vm_compute. discriminate. Qed.

(** C3, amended: the text "No action items this week." has no bracket, its
    only line qualifies through the word action, and the extractor returns
    one record, whose description is the whole line, with the default
    assignee, due date and priority. *)
Theorem scenario4_one_item :
  re_search scenario4 = None /\
  _parse_action_items scenario4 = Return [text_item scenario4].
Proof. split; vm_compute; reflexivity. Qed.




(* ================================================================== *)
(** ** The structured path *)
(* ================================================================== *)

Section StructuredFacts.

Local Open Scope N_scope.







(** A record of the structured path has a trimmed description. *)
Lemma cleaned_item_description (d : list (pystr * json)) (ci : action_item) :
  cleaned_item d = Return ci -> exists s, description ci = strip s.
Proof.
  unfold cleaned_item, get_strip. intro H.
  repeat match goal with
         | H : context [match ?x with _ => _ end] |- _ =>
             destruct x; cbn [bind] in H; try discriminate
         end;
    injection H as <-; simpl; eauto.
Qed.

Lemma for_items_Forall (P : action_item -> Prop) :
  (forall d ci, cleaned_item d = Return ci ->
                truthy (description ci) = true -> P ci) ->
  forall items acc out,
    Forall P acc -> for_items items acc = Return out -> Forall P out.
Proof.
  intros HP. induction items as [|item rest IH]; intros acc out Hacc H.
  - simpl in H. now injection H as <-.
  - cbn [for_items] in H.
    destruct (clean_body acc item) as [c|e] eqn:E; [|discriminate].
    cbn [bind] in H. apply (IH c out); [|exact H].
    unfold clean_body in E.
    destruct item; try (injection E as <-; exact Hacc).
    destruct (dict_has _ _); [|injection E as <-; exact Hacc].
    destruct (cleaned_item pairs) as [ci|] eqn:Eci; [|discriminate].
    cbn [bind] in E. injection E as <-.
    destruct (truthy (description ci)) eqn:Et; [|exact Hacc].
    apply Forall_app. split; [exact Hacc|].
    constructor; [|constructor]. now apply (HP pairs).
Qed.

(** The extractor always returns, and what it returns comes from one of its
    three exits. *)
Lemma parse_action_items_exits (response : pystr) :
  (exists out,
      parse_try response = Return out /\
      _parse_action_items response = Return out) \/
  (parse_try response = Raise JSONDecodeError /\
   _parse_action_items response = Return (_parse_text_action_items response)) \/
  (exists e, e <> JSONDecodeError /\ parse_try response = Raise e /\
             _parse_action_items response = Return []).
Proof.
  unfold _parse_action_items.
  destruct (parse_try response) as [out|[]].
  - left. now exists out.
  - right. left. now split.
  - right. right. exists AttributeError. repeat split. discriminate.
  - right. right. exists TypeError. repeat split. discriminate.
Qed.

End StructuredFacts.

(* ================================================================== *)
(** ** The descriptions that the extractor returns *)
(* ================================================================== *)

Section DescriptionFacts.

Local Open Scope N_scope.

Lemma re_sub_bullet_In (x : N) (line : pystr) :
  In x (re_sub_bullet line) -> In x line.
Proof.
  destruct line as [|c r]; simpl; [tauto|].
  destruct ((c =? 45) || (c =? 42)); [|tauto].
  intro H. right. now apply lstrip_In.
Qed.

Lemma unbulleted_stripped (line : pystr) : stripped (unbulleted line).
Proof.
  destruct line as [|c r]; simpl.
  - split; reflexivity.
  - destruct ((c =? 45) || (c =? 42)); apply strip_stripped.
Qed.

(** What a line that adds a record puts into the description. *)
Lemma line_description_facts (lines : list pystr) (raw : pystr) :
  In raw lines -> Forall (fun l => ~ In 10 l) lines -> emits raw = true ->
  line_description raw <> [] /\ stripped (line_description raw) /\
  ~ In 10 (line_description raw).
Proof.
  intros Hin Hall He. unfold emits in He. apply andb_true_iff in He.
  destruct He as [_ He]. apply truthy_true in He.
  unfold line_description. split; [exact He|]. split.
  - rewrite <- (unbulleted_re_sub (strip raw) (strip_stripped raw)).
    apply unbulleted_stripped.
  - intro H. apply re_sub_bullet_In, strip_In in H.
    rewrite Forall_forall in Hall. now apply (Hall raw).
Qed.

Lemma firstn_subset_In (A : Type) (n : nat) (l : list A) (x : A) :
  In x (firstn n l) -> In x l.
Proof.
  intro H. rewrite <- (firstn_skipn n l). apply in_or_app. now left.
Qed.

(** Every record of the fallback has a description that is not empty, is
    trimmed, and holds no newline. *)
Lemma parse_text_descriptions (text : pystr) :
  Forall (fun r => description r <> [] /\ stripped (description r) /\
                   ~ In 10 (description r))
         (_parse_text_action_items text).
Proof.
  rewrite parse_text_filter. apply Forall_map, Forall_forall.
  intros raw H. apply firstn_subset_In, filter_In in H. destruct H as [Hin He].
  apply (line_description_facts (split_lines text) raw Hin); [|exact He].
  apply Forall_forall. intros l. apply split_lines_no_newline.
Qed.

Lemma parse_text_not_blank (text : pystr) :
  Forall (fun r => strip (description r) <> [])
         (_parse_text_action_items text).
Proof.
  eapply Forall_impl; [|apply parse_text_descriptions].
  intros r (Hne & Hs & _). now rewrite (stripped_strip _ Hs).
Qed.

Lemma parse_try_not_blank (response : pystr) (out : list action_item) :
  parse_try response = Return out ->
  Forall (fun r => strip (description r) <> []) out.
Proof.
  unfold parse_try.
  destruct (re_search response) as [json_str|].
  - destruct (json_loads json_str) as [v|]; [|discriminate].
    destruct (iterate v) as [items|]; [|discriminate]. cbn [bind].
    apply for_items_Forall; [|constructor].
    intros d ci Hci Ht. destruct (cleaned_item_description d ci Hci) as [s Hs].
    rewrite Hs in *. rewrite strip_idem. now apply truthy_true.
  - intros [= <-]. apply parse_text_not_blank.
Qed.

(** Running the fallback again on the descriptions of its own result, one
    on each line, does not give more records. *)
Lemma parse_text_render_length (text : pystr) :
  (length (_parse_text_action_items (render (_parse_text_action_items text)))
   <= length (_parse_text_action_items text))%nat.
Proof.
  pose proof (parse_text_descriptions text) as Hd.
  set (out := _parse_text_action_items text) in *.
  destruct out as [|r0 rest] eqn:Eo.
  - vm_compute. lia.
  - rewrite <- Eo in *. unfold render.
    rewrite parse_text_filter, length_map, length_firstn.
    rewrite split_join_lines.
    + pose proof (filter_length_le emits (map description out)) as L.
      rewrite length_map in L. lia.
    + rewrite Eo. discriminate.
    + apply Forall_map. eapply Forall_impl; [|exact Hd].
      intros r (_ & _ & H). exact H.
Qed.

End DescriptionFacts.






(** C7: on every input, each record that the extractor returns, from the
    structured path or from the fallback, has a description that is not empty
    after trimming; on the text of scenario 1 the result is the single
    record of "Send report" for Bob, due 2024-01-05, priority High, the
    entry with the empty description being dropped. *)
Theorem descriptions_not_blank :
  (forall response,
    exists out,
      _parse_action_items response = Return out /\
      Forall (fun r => strip (description r) <> []) out) /\
  (forall text,
      Forall (fun r => strip (description r) <> [])
             (_parse_text_action_items text)) /\
  _parse_action_items scenario1 =
    Return [mk_item (cp "Send report") (cp "Bob") (cp "2024-01-05") (cp "High")].
Proof.
  split; [|split].
  - intro response.
    destruct (parse_action_items_exits response)
      as [(out & Ht & Hp) | [(Ht & Hp) | (e & He & Ht & Hp)]].
    + exists out. split; [exact Hp|]. now apply (parse_try_not_blank response).
    + eexists. split; [exact Hp|]. apply parse_text_not_blank.
    + exists []. split; [exact Hp | constructor].
  - apply parse_text_not_blank.
  - vm_compute. reflexivity.
Qed.

(** C8, as the specification states it, fails: on this text the fallback
    runs and returns one record; its description, taken as a text, is a
    JSON array of eleven objects, and the extractor returns eleven records
    on it: more than the one record of the fallback, and more than 10. *)
Lemma rerun_longer :
  fallback_runs bullet_with_array /\
  length (_parse_text_action_items bullet_with_array) = 1%nat /\
  exists again,
    _parse_action_items (render (_parse_text_action_items bullet_with_array))
      = Return again /\
    length again = 11%nat.
Proof.
  split.
  { right. eexists. split; [vm_compute; reflexivity|]. vm_compute. reflexivity. }
  split; [vm_compute; reflexivity|].
  eexists. split; [vm_compute; reflexivity|]. reflexivity.
Qed.

(** C8, amended: the fallback returns at most 10 records; running the
    extractor again on their descriptions, one on each line, does not
    raise, and unless the structured path runs to its end on that text (the
    text holds a bracketed region that is JSON), the new result is no longer
    than the fallback result; running the fallback itself again never gives
    a longer result. *)
Theorem rerun_not_longer :
  forall text,
    let out := _parse_text_action_items text in
    (length out <= 10)%nat /\
    (exists again,
        _parse_action_items (render out) = Return again /\
        (~ structured_path_returns (render out) ->
         (length again <= length out)%nat)) /\
    (length (_parse_text_action_items (render out)) <= length out)%nat.
Proof.
  intros text out. subst out.
  split; [apply parse_text_length|].
  split; [|apply parse_text_render_length].
  set (rendered := render (_parse_text_action_items text)).
  destruct (parse_action_items_exits rendered)
    as [(again & Ht & Hp) | [(Ht & Hp) | (e & He & Ht & Hp)]].
  - exists again. split; [exact Hp|]. intro Hns.
    unfold parse_try in Ht.
    destruct (re_search rendered) as [json_str|] eqn:Es.
    + exfalso. apply Hns.
      destruct (json_loads json_str) as [v|] eqn:Ev; [|discriminate].
      destruct (iterate v) as [items|] eqn:Ei; [|discriminate].
      cbn [bind] in Ht. unfold structured_path_returns.
      exists json_str, v, items, again. auto.
    + injection Ht as <-. apply parse_text_render_length.
  - eexists. split; [exact Hp|]. intros _. apply parse_text_render_length.
  - exists []. split; [exact Hp|]. intros _. simpl. lia.
Qed.

(* ================================================================== *)
(** ** The calls to the backend *)
(* ================================================================== *)

Section ServiceFacts.

(** [_call_ollama] sends one request, whatever the reply. *)
Lemma call_ollama_posts (self : service) (prompt system_prompt : pystr)
  (net : network) :
  fst (_call_ollama self prompt system_prompt net) =
  mk_network (replies net)
             (posts net ++ [mk_post (model self) prompt system_prompt]).
Proof.
  unfold _call_ollama.
  destruct (read_reply (replies net (length (posts net)))); reflexivity.
Qed.


(** Neither adapter raises. *)
Lemma generate_summary_returns (self : service) (transcription : pystr)
  (net : network) :
  exists summary,
    generate_summary self transcription net =
    (mk_network (replies net)
       (posts net ++ [mk_post (model self) (summary_prompt transcription)
                              summary_system_prompt]),
     Return summary).
Proof.
  unfold generate_summary.
  pose proof (call_ollama_posts self (summary_prompt transcription)
                summary_system_prompt net) as H.
  destruct (_call_ollama self (summary_prompt transcription)
              summary_system_prompt net) as [net' [summary|e]];
    simpl in H; subst net'; eauto.
Qed.

Lemma extract_action_items_returns (self : service) (transcription : pystr)
  (net : network) :
  exists items,
    extract_action_items self transcription net =
    (mk_network (replies net)
       (posts net ++ [mk_post (model self) (extract_prompt transcription)
                              extract_system_prompt]),
     Return items).
Proof.
  unfold extract_action_items.
  pose proof (call_ollama_posts self (extract_prompt transcription)
                extract_system_prompt net) as H.
  destruct (_call_ollama self (extract_prompt transcription)
              extract_system_prompt net) as [net' [response|e]];
    simpl in H; subst net'; [|eauto].
  destruct (_parse_action_items response); eauto.
Qed.

End ServiceFacts.

(* ================================================================== *)
(** ** The upload route *)
(* ================================================================== *)

Section RouteFacts.

Lemma grows_refl (w : world) : grows w w.
Proof. repeat split; exists []; now rewrite app_nil_r. Qed.

Lemma grows_trans (w1 w2 w3 : world) : grows w1 w2 -> grows w2 w3 -> grows w1 w3.
Proof.
  intros ([m1 H1] & [a1 H2] & [p1 H3]) ([m2 H4] & [a2 H5] & [p2 H6]).
  repeat split.
  - exists (m1 ++ m2). now rewrite H4, H1, app_assoc.
  - exists (a1 ++ a2). now rewrite H5, H2, app_assoc.
  - exists (p1 ++ p2). now rewrite H6, H3, app_assoc.
Qed.

Lemma pystr_eqb_refl (a : pystr) : pystr_eqb a a = true.
Proof. now apply pystr_eqb_eq. Qed.

(** After [file.save] the file is there. *)
Lemma file_save_exists (e : env) (filepath : pystr) (w w1 : world) :
  file_save e filepath w = (w1, Return tt) ->
  file_exists filepath w1 = true /\ grows w w1.
Proof.
  unfold file_save. destruct (file_save_error e filepath); [discriminate|].
  intros [= <-]. split; [|repeat split; exists []; simpl; now rewrite app_nil_r].
  unfold file_exists at 1. simpl.
  destruct (file_exists filepath w) eqn:E; [exact E|].
  simpl. now rewrite pystr_eqb_refl.
Qed.

(** After [os.remove] the file is gone. *)
Lemma removed_not_exists (filepath : pystr) (fs : list pystr) :
  existsb (pystr_eqb filepath)
          (filter (fun f => negb (pystr_eqb filepath f)) fs) = false.
Proof.
  induction fs as [|f rest IH]; simpl; [reflexivity|].
  destruct (pystr_eqb filepath f) eqn:E; simpl; [exact IH|].
  now rewrite E, IH.
Qed.

(** What each step of the handler does to the world. *)
Lemma on_net_summary (e : env) (t : pystr) (w : world) :
  exists w1 summary,
    on_net (generate_summary (llm_service e) t) w = (w1, Return summary) /\
    files w1 = files w /\ grows w w1.
Proof.
  unfold on_net.
  destruct (generate_summary_returns (llm_service e) t (net w)) as [summary ->].
  eexists. exists summary. split; [reflexivity|]. split; [reflexivity|].
  repeat split; simpl; try (exists []; now rewrite app_nil_r).
  eexists. reflexivity.
Qed.

Lemma on_net_extract (e : env) (t : pystr) (w : world) :
  exists w1 items,
    on_net (extract_action_items (llm_service e) t) w = (w1, Return items) /\
    files w1 = files w /\ grows w w1.
Proof.
  unfold on_net.
  destruct (extract_action_items_returns (llm_service e) t (net w)) as [items ->].
  eexists. exists items. split; [reflexivity|]. split; [reflexivity|].
  repeat split; simpl; try (exists []; now rewrite app_nil_r).
  eexists. reflexivity.
Qed.

Lemma meeting_save_run (e : env) (title date att t summary : pystr) (w : world) :
  exists w1 r,
    meeting_save e title date att t summary w = (w1, r) /\
    files w1 = files w /\ grows w w1.
Proof.
  unfold meeting_save. destruct (insert_meeting_error e).
  - exists w. eexists. split; [reflexivity|]. split; [reflexivity|].
    apply grows_refl.
  - eexists. eexists. split; [reflexivity|]. split; [reflexivity|].
    repeat split; simpl; try (exists []; now rewrite app_nil_r).
    eexists. reflexivity.
Qed.

Lemma action_item_save_run (e : env) (n : nat) (mid : Z) (d a dd p : pystr)
  (w : world) :
  exists w1 r,
    action_item_save e n mid d a dd p w = (w1, r) /\
    files w1 = files w /\ grows w w1.
Proof.
  unfold action_item_save. destruct (insert_action_item_error e n).
  - exists w. eexists. split; [reflexivity|]. split; [reflexivity|].
    apply grows_refl.
  - eexists. eexists. split; [reflexivity|]. split; [reflexivity|].
    repeat split; simpl; try (exists []; now rewrite app_nil_r).
    eexists. reflexivity.
Qed.

Lemma save_action_items_run (e : env) (mid : Z) (items : list action_item) :
  forall n w,
  exists w1 r,
    save_action_items e mid items n w = (w1, r) /\
    files w1 = files w /\ grows w w1.
Proof.
  induction items as [|item rest IH]; intros n w.
  - exists w. eexists. split; [reflexivity|]. split; [reflexivity|].
    apply grows_refl.
  - cbn [save_action_items]. unfold mbind.
    destruct (action_item_save_run e n mid (description item) (assignee item)
                (due_date item) (priority item) w) as (w1 & r & -> & Hf & Hg).
    destruct r as [id|ex].
    + destruct (IH (S n) w1) as (w2 & r2 & -> & Hf2 & Hg2).
      exists w2, r2. split; [reflexivity|]. split; [congruence|].
      eapply grows_trans; eassumption.
    + exists w1. eexists. split; [reflexivity|]. now split.
Qed.

Lemma os_remove_run (e : env) (filepath : pystr) (w : world) :
  file_exists filepath w = true ->
  (exists ex, os_remove e filepath w = (w, Raise ex)) \/
  (exists w1, os_remove e filepath w = (w1, Return tt) /\
              file_exists filepath w1 = false /\ grows w w1).
Proof.
  intro H. unfold os_remove. rewrite H.
  destruct (remove_error e filepath).
  - left. eexists. reflexivity.
  - right. eexists. split; [reflexivity|]. split.
    + unfold file_exists. simpl. apply removed_not_exists.
    + repeat split; simpl; exists []; now rewrite app_nil_r.
Qed.

Lemma file_exists_files (filepath : pystr) (w w' : world) :
  files w' = files w -> file_exists filepath w' = file_exists filepath w.
Proof. unfold file_exists. now intros ->. Qed.

(** The handler after the upload was stored: either a step raises, and the
    file stays, or the answer is the 200 answer, and the file is gone. *)
Lemma process_saved_cases (e : env) (req : request) (filepath : pystr)
  (w : world) :
  file_exists filepath w = true ->
  (exists w' ex,
      process_saved e req filepath w = (w', Raise ex) /\
      file_exists filepath w' = true /\ grows w w') \/
  (exists w' t mid summary items,
      process_saved e req filepath w =
        (w', Return (mk_response
                       (ResultBody true mid summary items
                          (if (500 <? length t)%nat
                           then firstn 500 t ++ cp "..." else t))
                       200)) /\
      transcribe_audio e filepath = Return t /\
      file_exists filepath w' = false /\ grows w w').
Proof.
  intro Hex. destruct (process_saved e req filepath w) as [w' r] eqn:E.
  unfold process_saved, mbind, lift in E.
  destruct (transcribe_audio e filepath) as [t|ex] eqn:Et.
  2:{ injection E as <- <-. left. exists w, ex. split; [reflexivity|].
      split; [exact Hex | apply grows_refl]. }
  destruct (on_net_summary e t w) as (w1 & summary & Hs & Hf1 & Hg1).
  rewrite Hs in E.
  destruct (on_net_extract e t w1) as (w2 & items & Hx & Hf2 & Hg2).
  rewrite Hx in E.
  destruct (meeting_save_run e (form_get (meeting_title req) (cp "Untitled Meeting"))
              (form_get (meeting_date req) (today e))
              (form_get (attendees req) []) t summary w2)
    as (w3 & r3 & Hm & Hf3 & Hg3).
  rewrite Hm in E.
  assert (G3 : grows w w3).
  { eapply grows_trans; [|exact Hg3]. eapply grows_trans; eassumption. }
  assert (F3 : file_exists filepath w3 = true).
  { rewrite (file_exists_files filepath w2 w3 Hf3),
      (file_exists_files filepath w1 w2 Hf2),
      (file_exists_files filepath w w1 Hf1). exact Hex. }
  destruct r3 as [mid|ex].
  2:{ injection E as <- <-. left. exists w3, ex. auto. }
  destruct (save_action_items_run e mid items 0%nat w3)
    as (w4 & r4 & Hi & Hf4 & Hg4).
  rewrite Hi in E.
  assert (G4 : grows w w4) by (eapply grows_trans; eassumption).
  assert (F4 : file_exists filepath w4 = true).
  { now rewrite (file_exists_files filepath w3 w4 Hf4). }
  destruct r4 as [[]|ex].
  2:{ injection E as <- <-. left. exists w4, ex. auto. }
  destruct (os_remove_run e filepath w4 F4) as [[ex Hr] | (w5 & Hr & F5 & Hg5)];
    rewrite Hr in E; injection E as <- <-.
  - left. exists w4, ex. auto.
  - right. exists w5, t, mid, summary, items.
    split; [reflexivity|]. split; [reflexivity|]. split; [exact F5|].
    eapply grows_trans; eassumption.
Qed.

Lemma shown_transcription_eq (t : pystr) :
  (if (500 <? length t)%nat then firstn 500 t ++ cp "..." else t) =
  shown_transcription t.
Proof.
  unfold shown_transcription.
  destruct (Nat.ltb_spec 500 (length t)), (Nat.leb_spec (length t) 500);
    try reflexivity; lia.
Qed.

End RouteFacts.




(** C9: whenever [POST /process_audio] answers 200, the field
    [transcription] of the answer is the whole transcription when it has at
    most 500 characters, and else its first 500 characters followed by
    "...". *)
Theorem answer_shows_transcription (e : env) (req : request) (w w' : world)
  (r : response) :
  process_audio e req w = (w', r) ->
  status r = 200%Z ->
  exists filename t mid summary items,
    audio_file req = Some filename /\
    transcribe_audio e (upload_path e filename) = Return t /\
    payload r = ResultBody true mid summary items (shown_transcription t).
Proof.
  unfold process_audio, process_audio_try. intros H Hs.
  destruct (audio_file req) as [filename|].
  2:{ injection H as <- <-. discriminate. }
  destruct (pystr_eqb filename []).
  { injection H as <- <-. discriminate. }
  unfold mbind at 1 in H.
  destruct (file_save e (upload_path e filename) w) as [w1 [[]|ex]] eqn:Es.
  2:{ injection H as <- <-. discriminate. }
  apply file_save_exists in Es. destruct Es as [Hex _].
  destruct (process_saved_cases e req (upload_path e filename) w1 Hex)
    as [(w2 & ex & Hp & _) | (w2 & t & mid & summary & items & Hp & Ht & _)];
    rewrite Hp in H; injection H as <- <-; [discriminate|].
  exists filename, t, mid, summary, items.
  split; [reflexivity|]. split; [exact Ht|].
  simpl. now rewrite shown_transcription_eq.
Qed.

Lemma answer_shows_transcription_witness :
  exists filename t mid summary items,
    audio_file demo_request = Some filename /\
    transcribe_audio demo_env (upload_path demo_env filename) = Return t /\
    payload (snd (process_audio demo_env demo_request
                    (start_world answering_backend))) =
    ResultBody true mid summary items (shown_transcription t).
Proof.
  apply (answer_shows_transcription demo_env demo_request
           (start_world answering_backend)
           (fst (process_audio demo_env demo_request
                   (start_world answering_backend)))).
  - vm_compute. reflexivity.
  - vm_compute. reflexivity.
Defined.

(** C10: once the upload is stored, the handler removes the file on the
    success path only.  In every run in which a later step raises, the
    route answers 500 with the error text, the file is still in the upload
    folder, and nothing that was written before the failure is taken back;
    in every run that reaches the end, the answer is the 200 answer and the
    file is gone. *)
Theorem upload_removed_on_success_only (e : env) (req : request) (w : world)
  (filename : pystr) :
  audio_file req = Some filename ->
  filename <> [] ->
  file_save_error e (upload_path e filename) = None ->
  match process_audio_try e req w with
  | (w', Raise ex) =>
      process_audio e req w = (w', mk_response (ErrorBody (str_of_exn ex)) 500) /\
      file_exists (upload_path e filename) w' = true /\
      grows w w'
  | (w', Return r) =>
      process_audio e req w = (w', r) /\ status r = 200%Z /\
      file_exists (upload_path e filename) w' = false /\
      grows w w'
  end.
Proof.
  intros Ha Hn Hs.
  destruct (pystr_eqb filename []) eqn:En.
  { apply pystr_eqb_eq in En. contradiction. }
  destruct (file_save e (upload_path e filename) w) as [w1 [[]|ex]] eqn:Es.
  2:{ unfold file_save in Es. rewrite Hs in Es. discriminate. }
  assert (T : process_audio_try e req w =
              process_saved e req (upload_path e filename) w1).
  { unfold process_audio_try. rewrite Ha, En. unfold mbind. now rewrite Es. }
  apply file_save_exists in Es. destruct Es as [Hex Hg].
  unfold process_audio. rewrite T.
  destruct (process_saved_cases e req (upload_path e filename) w1 Hex)
    as [(w2 & ex & Hp & Hf & Hg2)
       | (w2 & t & mid & summary & items & Hp & Ht & Hf & Hg2)];
    rewrite Hp.
  - split; [reflexivity|]. split; [exact Hf|]. eapply grows_trans; eassumption.
  - split; [reflexivity|]. split; [reflexivity|]. split; [exact Hf|].
    eapply grows_trans; eassumption.
Qed.

Lemma upload_removed_on_success_only_witness :
  let w := start_world answering_backend in
  let w' := fst (process_audio second_insert_fails demo_request w) in
  process_audio second_insert_fails demo_request w =
    (w', mk_response (ErrorBody (cp "database is locked")) 500) /\
  file_exists (cp "uploads/meeting.wav") w' = true /\
  grows w w'.
Proof.
  exact (upload_removed_on_success_only second_insert_fails demo_request
           (start_world answering_backend) (cp "meeting.wav")
           eq_refl ltac:(discriminate) eq_refl).
Defined.

(** In the run in which the second insertion fails, the meeting and the
    first action item stay in the tables, and both requests were sent. *)
Example second_insert_fails_keeps_rows :
  let w' := fst (process_audio second_insert_fails demo_request
                   (start_world answering_backend)) in
  map m_id (meetings w') = [1%Z] /\
  map ai_description (action_items w') = [cp "Send report"] /\
  length (posts (net w')) = 2%nat /\
  files w' = [cp "uploads/meeting.wav"].
Proof. vm_compute. repeat split. Qed.

(** In the run in which every step succeeds, the answer shows the summary
    and the two action items, and the upload folder is empty again. *)
Example demo_run_succeeds :
  let run := process_audio demo_env demo_request (start_world answering_backend) in
  snd run =
    mk_response
      (ResultBody true 1 (cp "# Shipping on Friday")
         [text_item (cp "Send report"); text_item (cp "Book room")]
         (cp "We agreed to ship on Friday."))
      200 /\
  files (fst run) = [].
Proof. vm_compute. repeat split. Qed.

(* ================================================================== *)
(** ** Further properties of the service *)
(* ================================================================== *)

Import Props.

Section MoreServiceFacts.

Local Open Scope N_scope.

Lemma read_reply_stripped (reply : ollama_reply) (text : pystr) :
  read_reply reply = Return text -> stripped text.
Proof.
  unfold read_reply. intro H.
  repeat match goal with
         | H : context [match ?x with _ => _ end] |- _ => destruct x; try discriminate
         | H : context [if ?x then _ else _] |- _ => destruct x; try discriminate
         end;
    injection H as <-; apply strip_stripped.
Qed.

Lemma split_lines_join (a b : pystr) :
  split_lines (a ++ 10 :: b) = split_lines a ++ split_lines b.
Proof.
  induction a as [|c r IH]; [reflexivity|].
  simpl. destruct (c =? 10).
  - now rewrite IH.
  - rewrite IH. pose proof (split_lines_nonempty r) as Hne.
    destruct (split_lines r); [congruence | reflexivity].
Qed.

Lemma firstn_app_firstn (A : Type) (n m : nat) (x y : list A) :
  (n <= m)%nat -> firstn n (x ++ y) = firstn n (firstn n x ++ firstn m y).
Proof.
  revert m x. induction n as [|n IH]; intros m x H; [reflexivity|].
  destruct x as [|a x'].
  - simpl app. rewrite firstn_firstn. f_equal. lia.
  - cbn [firstn app]. f_equal. apply IH. lia.
Qed.

Lemma re_sub_bullet_suffix (line : pystr) :
  exists p, line = p ++ re_sub_bullet line.
Proof.
  destruct line as [|c r]; [now exists []|]. simpl.
  destruct ((c =? 45) || (c =? 42)).
  - destruct (lstrip_suffix r) as [p Hp]. exists (c :: p). simpl. now rewrite <- Hp.
  - now exists [].
Qed.

(** What is left of a line is a piece of the line. *)
Lemma line_description_part (raw : pystr) :
  exists pre post, raw = pre ++ line_description raw ++ post.
Proof.
  unfold line_description, strip.
  destruct (lstrip_suffix raw) as [p Hp].
  destruct (rstrip_prefix (lstrip raw)) as [q Hq].
  destruct (re_sub_bullet_suffix (rstrip (lstrip raw))) as [p' Hp'].
  exists (p ++ p'), q.
  rewrite <- app_assoc, (app_assoc p'), <- Hp', <- Hq. exact Hp.
Qed.

End MoreServiceFacts.

(** X1: [_format_summary] puts the heading "# Meeting Summary" and an
    empty line before a text that does not start with [#], and leaves any
    other text alone; its result always starts with [#], and formatting a
    formatted summary changes nothing. *)
Theorem format_summary_heading (raw_summary : pystr) :
  startswith (cp "#") (_format_summary raw_summary) = true /\
  _format_summary (_format_summary raw_summary) = _format_summary raw_summary /\
  (startswith (cp "#") raw_summary = true ->
   _format_summary raw_summary = raw_summary) /\
  (startswith (cp "#") raw_summary = false ->
   _format_summary raw_summary = cp "# Meeting Summary

" ++ raw_summary).
Proof.
  unfold _format_summary.
  destruct (startswith (cp "#") raw_summary) eqn:E; cbn [negb].
  - rewrite E. cbn [negb].
    split; [reflexivity|]. split; [reflexivity|]. split; [reflexivity | discriminate].
  - split; [reflexivity|]. split; [reflexivity|].
    split; [discriminate | reflexivity].
Qed.

(** X2: [_call_ollama] sends exactly one request.  A text that it returns
    has no white space at either end; a reply with a status other than 200
    raises "LLM service unavailable: Ollama API error: " followed by the
    status, whatever the body; a 200 reply whose JSON object has no key
    [response] gives the empty text and no error; every error that it
    raises starts with "LLM service unavailable: ". *)
Theorem call_ollama_outcomes (self : service) (prompt system_prompt : pystr)
  (net : network) :
  let reply := replies net (length (posts net)) in
  let out := _call_ollama self prompt system_prompt net in
  posts (fst out) = posts net ++ [mk_post (model self) prompt system_prompt] /\
  replies (fst out) = replies net /\
  (forall text, snd out = Return text -> stripped text) /\
  (forall status_code body,
      reply = Responded status_code body -> status_code <> 200%Z ->
      snd out = Raise (Exception (cp "LLM service unavailable: Ollama API error: "
                                  ++ str_of_Z status_code))) /\
  (forall d,
      reply = Responded 200 (Return (JObj d)) ->
      dict_get (cp "response") d = None -> snd out = Return []) /\
  (forall e, snd out = Raise e ->
             startswith (cp "LLM service unavailable: ") (str_of_exn e) = true).
Proof.
  intros reply out. subst out reply. unfold _call_ollama.
  destruct (read_reply (replies net (length (posts net)))) as [text|msg] eqn:E;
    cbn [fst snd posts replies].
  - split; [reflexivity|]. split; [reflexivity|]. split.
    { intros t [= <-]. now apply (read_reply_stripped _ _ E). }
    split.
    { intros sc body Hr Hs. rewrite Hr in E. unfold read_reply in E.
      destruct (sc =? 200)%Z eqn:Es;
        [apply Z.eqb_eq in Es; contradiction | discriminate]. }
    split; [|discriminate].
    intros d Hr Hd. rewrite Hr in E. simpl in E. rewrite Hd in E.
    now injection E as <-.
  - split; [reflexivity|]. split; [reflexivity|]. split; [discriminate|].
    split.
    { intros sc body Hr Hs. rewrite Hr in E. unfold read_reply in E.
      destruct (sc =? 200)%Z eqn:Es; [apply Z.eqb_eq in Es; contradiction|].
      injection E as <-. reflexivity. }
    split.
    { intros d Hr Hd. rewrite Hr in E. simpl in E. rewrite Hd in E. discriminate. }
    intros e [= <-]. reflexivity.
Qed.

(** X3: [generate_summary] never raises and sends one request.  The summary
    is never empty: it starts with [#], or, when the backend failed, with
    "Error generating summary: LLM service unavailable: ".  When the
    backend answers with a text, the summary is that text formatted. *)
Theorem generate_summary_text (self : service) (transcription : pystr)
  (net : network) :
  exists summary,
    generate_summary self transcription net =
      (mk_network (replies net)
         (posts net ++ [mk_post (model self) (summary_prompt transcription)
                                summary_system_prompt]),
       Return summary) /\
    summary <> [] /\
    (startswith (cp "#") summary = true \/
     startswith (cp "Error generating summary: LLM service unavailable: ")
                summary = true) /\
    (forall text,
        read_reply (replies net (length (posts net))) = Return text ->
        summary = _format_summary text) /\
    (forall msg,
        read_reply (replies net (length (posts net))) = Raise msg ->
        summary = cp "Error generating summary: LLM service unavailable: " ++ msg).
Proof.
  unfold generate_summary, _call_ollama.
  destruct (read_reply (replies net (length (posts net)))) as [text|msg].
  - exists (_format_summary text). split; [reflexivity|].
    assert (H : startswith (cp "#") (_format_summary text) = true).
    { unfold _format_summary.
      destruct (startswith (cp "#") text) eqn:E; simpl negb; cbv iota; auto. }
    split.
    { intro H0. rewrite H0 in H. discriminate. }
    split; [now left|]. split; [now intros t [= <-] | discriminate].
  - eexists. split; [reflexivity|]. cbn [str_of_exn].
    split; [discriminate|]. split; [right; reflexivity|].
    split; [discriminate|]. intros m [= <-]. reflexivity.
Qed.

(** X4: [extract_action_items] never raises and sends one request.  When the
    backend failed it returns the empty list; when the backend answered with
    a text it returns what [_parse_action_items] returns on that text; in
    every case each record has a description that is not empty after
    trimming. *)
Theorem extract_action_items_safe (self : service) (transcription : pystr)
  (net : network) :
  exists items,
    extract_action_items self transcription net =
      (mk_network (replies net)
         (posts net ++ [mk_post (model self) (extract_prompt transcription)
                                extract_system_prompt]),
       Return items) /\
    Forall (fun r => strip (description r) <> []) items /\
    (forall response,
        read_reply (replies net (length (posts net))) = Return response ->
        _parse_action_items response = Return items) /\
    (forall msg,
        read_reply (replies net (length (posts net))) = Raise msg ->
        items = []).
Proof.
  unfold extract_action_items, _call_ollama.
  destruct (read_reply (replies net (length (posts net)))) as [response|msg].
  - destruct (parse_action_items_exits response)
      as [(out & Ht & Hp) | [(Ht & Hp) | (e & He & Ht & Hp)]]; rewrite Hp.
    + exists out. split; [reflexivity|].
      split; [now apply (parse_try_not_blank response)|].
      split; [now intros r [= <-] | discriminate].
    + eexists. split; [reflexivity|].
      split; [apply parse_text_not_blank|].
      split; [now intros r [= <-] | discriminate].
    + exists []. split; [reflexivity|]. split; [constructor|].
      split; [now intros r [= <-] | discriminate].
  - exists []. split; [reflexivity|]. split; [constructor|].
    split; [discriminate | reflexivity].
Qed.



(** X6: the fallback works line by line: on two texts joined by a newline it
    returns the first ten of the records of the first text followed by
    the records of the second. *)
Theorem fallback_of_joined_texts (a b : pystr) :
  _parse_text_action_items (a ++ cp "
" ++ b) =
  firstn 10 (_parse_text_action_items a ++ _parse_text_action_items b).
Proof.
  change (cp "
" ++ b) with (10%N :: b).
  unfold _parse_text_action_items.
  rewrite !fold_loop_body, !app_nil_l, split_lines_join, flat_map_app.
  apply firstn_app_firstn. lia.
Qed.

(** X7: the fallback invents nothing: every record that it returns has the
    default assignee, due date and priority, and its description is a piece
    of one line of the text, without a newline and without white space at
    either end. *)
Theorem fallback_records_come_from_lines (text : pystr) :
  Forall (fun r =>
            r = text_item (description r) /\
            stripped (description r) /\
            exists raw pre post,
              In raw (split_lines text) /\
              raw = pre ++ description r ++ post)
         (_parse_text_action_items text).
Proof.
  pose proof (parse_text_descriptions text) as Hd.
  rewrite parse_text_filter in *. apply Forall_map. apply Forall_map in Hd.
  rewrite Forall_forall in *. intros raw Hin.
  split; [reflexivity|]. split; [apply (Hd raw Hin)|].
  destruct (line_description_part raw) as (pre & post & Hp).
  exists raw, pre, post. split; [|exact Hp].
  apply firstn_subset_In, filter_In in Hin. apply Hin.
Qed.

(* ================================================================== *)
(** ** Further properties of the upload route *)
(* ================================================================== *)

Section MoreRouteFacts.

(** The loop over the action items, when every insertion succeeds. *)
Lemma save_action_items_return (e : env) (mid : Z) (items : list action_item) :
  forall n w w',
    save_action_items e mid items n w = (w', Return tt) ->
    w' = mk_world (files w) (meetings w) (meetings_seq w)
           (action_items w ++ item_rows e mid (action_items_seq w) items)
           (action_items_seq w + Z.of_nat (length items)) (net w).
Proof.
  induction items as [|item rest IH]; intros n w w' H.
  - cbn in H. injection H as <-. destruct w. cbn.
    now rewrite app_nil_r, Z.add_0_r.
  - cbn [save_action_items] in H. unfold mbind, action_item_save in H.
    destruct (insert_action_item_error e n); [discriminate|].
    apply IH in H. subst w'. cbn [files meetings meetings_seq action_items
      action_items_seq net item_rows length].
    rewrite <- app_assoc. cbn [app]. f_equal. lia.
Qed.

(** The loop over the action items, when the insertion number [k] is the
    first that fails. *)
Lemma save_action_items_fault (e : env) (mid : Z) (items : list action_item) :
  forall n w k msg,
    (k < length items)%nat ->
    (forall i, (i < k)%nat -> insert_action_item_error e (n + i) = None) ->
    insert_action_item_error e (n + k) = Some msg ->
    save_action_items e mid items n w =
    (mk_world (files w) (meetings w) (meetings_seq w)
       (action_items w ++ item_rows e mid (action_items_seq w) (firstn k items))
       (action_items_seq w + Z.of_nat k) (net w),
     Raise (Exception msg)).
Proof.
  induction items as [|item rest IH]; intros n w k msg Hk Hok Hbad.
  - simpl in Hk. lia.
  - cbn [save_action_items]. unfold mbind, action_item_save.
    destruct k as [|k].
    + rewrite Nat.add_0_r in Hbad. rewrite Hbad. destruct w. cbn.
      now rewrite app_nil_r, Z.add_0_r.
    + assert (H0 : insert_action_item_error e n = None).
      { rewrite <- (Nat.add_0_r n). apply Hok. lia. }
      rewrite H0.
      rewrite (IH (S n) _ k msg).
      * cbn [files meetings meetings_seq action_items action_items_seq net
          item_rows firstn].
        rewrite <- app_assoc. cbn [app]. f_equal. f_equal. lia.
      * simpl in Hk. lia.
      * intros i Hi. rewrite <- (Hok (S i)) by lia. f_equal. lia.
      * rewrite <- Hbad. f_equal. lia.
Qed.

(** The handler after the upload was stored, up to the loop over the
    action items. *)
Lemma process_saved_unfold (e : env) (req : request) (filepath : pystr)
  (w : world) (t summary : pystr) (items : list action_item)
  (net1 net2 : network) :
  transcribe_audio e filepath = Return t ->
  generate_summary (llm_service e) t (net w) = (net1, Return summary) ->
  extract_action_items (llm_service e) t net1 = (net2, Return items) ->
  insert_meeting_error e = None ->
  process_saved e req filepath w =
  mbind (save_action_items e (meetings_seq w + 1) items 0)
    (fun _ =>
       mbind (os_remove e filepath)
         (fun _ =>
            ret (mk_response
                   (ResultBody true (meetings_seq w + 1) summary items
                      (if (500 <? length t)%nat
                       then firstn 500 t ++ cp "..." else t))
                   200)))
    (mk_world (files w)
       (meetings w ++ [meeting_row_of e req (meetings_seq w + 1) t summary])
       (meetings_seq w + 1) (action_items w) (action_items_seq w) net2).
Proof.
  intros Ht Hg Hx Hm.
  unfold process_saved, mbind, lift, on_net, meeting_save.
  rewrite Ht, Hg. cbn [net]. rewrite Hx.
  cbn [files meetings meetings_seq action_items action_items_seq net].
  rewrite Hm. reflexivity.
Qed.

End MoreRouteFacts.

Section RouteInversion.

(** What a run that reaches the [return] of the handler has done. *)
Lemma process_saved_return (e : env) (req : request) (filepath : pystr)
  (w w' : world) (r : response) :
  process_saved e req filepath w = (w', Return r) ->
  exists t summary items,
    transcribe_audio e filepath = Return t /\
    r = mk_response
          (ResultBody true (meetings_seq w + 1) summary items
             (shown_transcription t)) 200 /\
    files w' = filter (fun f => negb (pystr_eqb filepath f)) (files w) /\
    meetings w' =
      meetings w ++ [meeting_row_of e req (meetings_seq w + 1) t summary] /\
    meetings_seq w' = (meetings_seq w + 1)%Z /\
    action_items w' =
      action_items w ++
      item_rows e (meetings_seq w + 1) (action_items_seq w) items /\
    action_items_seq w' = (action_items_seq w + Z.of_nat (length items))%Z /\
    replies (net w') = replies (net w) /\
    posts (net w') = posts (net w) ++ [summary_post e t; extract_post e t].
Proof.
  intro T.
  destruct (transcribe_audio e filepath) as [t|ex] eqn:Ht.
  2:{ unfold process_saved, mbind, lift in T. rewrite Ht in T. discriminate. }
  destruct (generate_summary_returns (llm_service e) t (net w)) as [summary Hg].
  match type of Hg with
  | _ = (?n1, _) =>
      destruct (extract_action_items_returns (llm_service e) t n1) as [items Hx]
  end.
  destruct (insert_meeting_error e) as [msg|] eqn:Hm.
  { unfold process_saved, mbind, lift, on_net, meeting_save in T.
    rewrite Ht, Hg in T. cbn [net] in T. rewrite Hx in T.
    cbn [files meetings meetings_seq action_items action_items_seq net] in T.
    rewrite Hm in T. discriminate. }
  rewrite (process_saved_unfold e req filepath w t summary items _ _ Ht Hg Hx Hm) in T.
  unfold mbind at 1 in T.
  match type of T with
  | context [save_action_items ?a ?b ?c ?d ?w3] =>
      destruct (save_action_items a b c d w3) as [w4 [[]|ex]] eqn:Es;
        [|discriminate]
  end.
  apply save_action_items_return in Es. subst w4.
  unfold mbind, os_remove, ret, file_exists in T.
  cbn [files meetings meetings_seq action_items action_items_seq net] in T.
  destruct (existsb (pystr_eqb filepath) (files w)); [|discriminate].
  destruct (remove_error e filepath); [discriminate|].
  injection T as <- <-.
  exists t, summary, items. split; [reflexivity|].
  rewrite shown_transcription_eq.
  cbn [files meetings meetings_seq action_items action_items_seq net replies posts].
  repeat (split; [reflexivity|]).
  unfold summary_post, extract_post. now rewrite <- app_assoc.
Qed.

Lemma file_save_return (e : env) (filepath : pystr) (w w1 : world) :
  file_save e filepath w = (w1, Return tt) ->
  file_save_error e filepath = None /\
  meetings w1 = meetings w /\ meetings_seq w1 = meetings_seq w /\
  action_items w1 = action_items w /\
  action_items_seq w1 = action_items_seq w /\ net w1 = net w.
Proof.
  unfold file_save. destruct (file_save_error e filepath); [discriminate|].
  intros [= <-]. repeat split.
Qed.

End RouteInversion.

Lemma process_audio_cases (e : env) (req : request) (w : world) :
  (audio_file req = None /\
   process_audio e req w =
     (w, mk_response (ErrorBody (cp "No audio file provided")) 400)) \/
  (audio_file req = Some [] /\
   process_audio e req w =
     (w, mk_response (ErrorBody (cp "No file selected")) 400)) \/
  (exists filename w' r,
      audio_file req = Some filename /\ filename <> [] /\
      process_audio e req w = (w', r) /\
      (status r = 200 \/ status r = 500)%Z).
Proof.
  unfold process_audio, process_audio_try.
  destruct (audio_file req) as [filename|]; [|now left].
  destruct (pystr_eqb filename []) eqn:En.
  { apply pystr_eqb_eq in En. subst filename. right. left. now split. }
  right. right. exists filename.
  assert (Hne : filename <> []).
  { intro H. subst filename. discriminate. }
  unfold mbind at 1.
  destruct (file_save e (upload_path e filename) w) as [w1 [[]|ex]] eqn:Es.
  - apply file_save_exists in Es. destruct Es as [Hex _].
    destruct (process_saved_cases e req (upload_path e filename) w1 Hex)
      as [(w2 & ex & Hp & _) | (w2 & t & mid & summary & items & Hp & _)];
      rewrite Hp; eexists; eexists; repeat split; auto.
  - eexists. eexists. repeat split; auto.
Qed.

(** X8: [process_audio] answers 200, 400 or 500.  It answers 400 exactly
    when the form has no field [audio_file] ("No audio file provided") or
    the file name is empty ("No file selected"), and then nothing was
    stored, inserted or sent. *)
Theorem process_audio_status (e : env) (req : request) (w : world) :
  let out := process_audio e req w in
  (status (snd out) = 200 \/ status (snd out) = 400 \/ status (snd out) = 500)%Z /\
  (status (snd out) = 400%Z <->
   audio_file req = None \/ audio_file req = Some []) /\
  (status (snd out) = 400%Z -> fst out = w) /\
  (audio_file req = None ->
   snd out = mk_response (ErrorBody (cp "No audio file provided")) 400) /\
  (audio_file req = Some [] ->
   snd out = mk_response (ErrorBody (cp "No file selected")) 400).
Proof.
  intro out. subst out.
  destruct (process_audio_cases e req w)
    as [[Ha ->] | [[Ha ->] | (filename & w' & r & Ha & Hne & -> & Hs)]];
    cbn [fst snd status]; rewrite Ha.
  - intuition (auto; try discriminate; try congruence).
  - intuition (auto; try discriminate; try congruence).
  - destruct Hs as [Hs | Hs]; rewrite Hs;
      intuition (auto; try discriminate; try congruence).
Qed.

(** What a run that answers with a result has done. *)
Lemma process_audio_success (e : env) (req : request) (w w' : world)
  (mid : Z) (summary : pystr) (items : list action_item) (shown : pystr) :
  process_audio e req w =
    (w', mk_response (ResultBody true mid summary items shown) 200) ->
  exists filename t,
    audio_file req = Some filename /\
    transcribe_audio e (upload_path e filename) = Return t /\
    shown = shown_transcription t /\
    mid = (meetings_seq w + 1)%Z /\
    meetings w' = meetings w ++ [meeting_row_of e req mid t summary] /\
    meetings_seq w' = mid /\
    action_items w' =
      action_items w ++ item_rows e mid (action_items_seq w) items /\
    action_items_seq w' = (action_items_seq w + Z.of_nat (length items))%Z /\
    posts (net w') = posts (net w) ++ [summary_post e t; extract_post e t] /\
    file_exists (upload_path e filename) w' = false.
Proof.
  unfold process_audio. intro H.
  destruct (process_audio_try e req w) as [w0 [r|ex]] eqn:T; [|discriminate].
  injection H as -> ->. unfold process_audio_try in T.
  destruct (audio_file req) as [filename|]; [|discriminate].
  destruct (pystr_eqb filename []); [discriminate|].
  unfold mbind at 1 in T.
  destruct (file_save e (upload_path e filename) w) as [w1 [[]|ex]] eqn:Es;
    [|discriminate].
  apply file_save_return in Es.
  destruct Es as (_ & E1 & E2 & E3 & E4 & E5).
  apply process_saved_return in T.
  destruct T as (t & summary' & items' & Ht & Hr & Hf & Hm & Hs & Ha & Hq & _ & Hp).
  injection Hr as -> -> -> ->.
  exists filename, t. rewrite E1, E2, E3, E4, E5 in *.
  repeat (split; [reflexivity || assumption|]).
  unfold file_exists. rewrite Hf. apply removed_not_exists.
Qed.

(** X9: when [process_audio] answers with a result, the tables hold what the
    answer shows: one new meeting row, whose id is the [meeting_id] of the
    answer and which holds the whole transcription and the summary of the
    answer; one new action-item row for each item of the answer, in the same
    order, all of that meeting and not completed; two requests were sent to
    the backend, and the upload is gone. *)
Theorem success_is_persisted (e : env) (req : request) (w w' : world)
  (mid : Z) (summary : pystr) (items : list action_item) (shown : pystr) :
  process_audio e req w =
    (w', mk_response (ResultBody true mid summary items shown) 200) ->
  exists filename t,
    audio_file req = Some filename /\
    transcribe_audio e (upload_path e filename) = Return t /\
    shown = shown_transcription t /\
    mid = (meetings_seq w + 1)%Z /\
    meetings w' = meetings w ++ [meeting_row_of e req mid t summary] /\
    meetings_seq w' = mid /\
    action_items w' =
      action_items w ++ item_rows e mid (action_items_seq w) items /\
    action_items_seq w' = (action_items_seq w + Z.of_nat (length items))%Z /\
    posts (net w') = posts (net w) ++ [summary_post e t; extract_post e t] /\
    file_exists (upload_path e filename) w' = false.
Proof. exact (process_audio_success e req w w' mid summary items shown). Qed.

Lemma success_is_persisted_witness :
  let w' := fst (process_audio demo_env demo_request
                   (start_world answering_backend)) in
  exists filename t,
    audio_file demo_request = Some filename /\
    transcribe_audio demo_env (upload_path demo_env filename) = Return t /\
    cp "We agreed to ship on Friday." = shown_transcription t /\
    1%Z = (meetings_seq (start_world answering_backend) + 1)%Z /\
    meetings w' =
      meetings (start_world answering_backend) ++
      [meeting_row_of demo_env demo_request 1 t (cp "# Shipping on Friday")] /\
    meetings_seq w' = 1%Z /\
    action_items w' =
      action_items (start_world answering_backend) ++
      item_rows demo_env 1 (action_items_seq (start_world answering_backend))
        [text_item (cp "Send report"); text_item (cp "Book room")] /\
    action_items_seq w' =
      (action_items_seq (start_world answering_backend) + Z.of_nat 2)%Z /\
    posts (net w') =
      posts (net (start_world answering_backend)) ++
      [summary_post demo_env t; extract_post demo_env t] /\
    file_exists (upload_path demo_env filename) w' = false.
Proof.
  apply (success_is_persisted demo_env demo_request
           (start_world answering_backend)
           (fst (process_audio demo_env demo_request
                   (start_world answering_backend)))
           1 (cp "# Shipping on Friday")
           [text_item (cp "Send report"); text_item (cp "Book room")]
           (cp "We agreed to ship on Friday.")).
  vm_compute. reflexivity.
Defined.

(** X10: nothing is rolled back when an insertion fails.  When the
    insertion of the action item number [k] (counted from 0) is the first
    that fails, [process_audio] answers 500 with the text of that error; the
    meeting row and the rows of the [k] items before it are in the tables,
    the two requests were sent to the backend, and the upload is still in
    the folder. *)
Theorem failed_insert_keeps_earlier_rows (e : env) (req : request)
  (w : world) (filename t msg : pystr) (k : nat) :
  audio_file req = Some filename ->
  filename <> [] ->
  file_save_error e (upload_path e filename) = None ->
  transcribe_audio e (upload_path e filename) = Return t ->
  insert_meeting_error e = None ->
  (forall i, (i < k)%nat -> insert_action_item_error e i = None) ->
  insert_action_item_error e k = Some msg ->
  exists summary items net2 w',
    generate_summary (llm_service e) t (net w) =
      (mk_network (replies (net w)) (posts (net w) ++ [summary_post e t]),
       Return summary) /\
    extract_action_items (llm_service e) t
      (mk_network (replies (net w)) (posts (net w) ++ [summary_post e t])) =
      (net2, Return items) /\
    ((k < length items)%nat ->
     process_audio e req w = (w', mk_response (ErrorBody msg) 500) /\
     meetings w' =
       meetings w ++ [meeting_row_of e req (meetings_seq w + 1) t summary] /\
     action_items w' =
       action_items w ++
       item_rows e (meetings_seq w + 1) (action_items_seq w) (firstn k items) /\
     net w' = net2 /\
     file_exists (upload_path e filename) w' = true).
Proof.
  intros Ha Hne Hs Ht Hm Hok Hbad.
  destruct (generate_summary_returns (llm_service e) t (net w)) as [summary Hg].
  match type of Hg with
  | _ = (?n1, _) =>
      destruct (extract_action_items_returns (llm_service e) t n1) as [items Hx]
  end.
  match type of Hx with _ = (?n2, _) => set (net2 := n2) in * end.
  destruct (file_save e (upload_path e filename) w) as [w1 r1] eqn:Es.
  assert (Es' := Es). unfold file_save in Es'. rewrite Hs in Es'.
  injection Es' as Ew1 <-.
  assert (Hsave := Es). apply file_save_exists in Hsave. destruct Hsave as [Hex _].
  assert (E1 : meetings w1 = meetings w) by now subst w1.
  assert (E2 : meetings_seq w1 = meetings_seq w) by now subst w1.
  assert (E3 : action_items w1 = action_items w) by now subst w1.
  assert (E4 : action_items_seq w1 = action_items_seq w) by now subst w1.
  assert (E5 : net w1 = net w) by now subst w1.
  clear Ew1.
  eexists summary, items, net2, _.
  split; [exact Hg|]. split; [exact Hx|]. intro Hk.
  assert (T : process_audio_try e req w =
              process_saved e req (upload_path e filename) w1).
  { unfold process_audio_try. rewrite Ha.
    destruct (pystr_eqb filename []) eqn:En;
      [apply pystr_eqb_eq in En; contradiction|].
    unfold mbind. now rewrite Es. }
  unfold process_audio. rewrite T.
  rewrite <- E5 in Hg, Hx.
  rewrite (process_saved_unfold e req (upload_path e filename) w1 t summary
             items _ _ Ht Hg Hx Hm).
  unfold mbind at 1.
  rewrite (save_action_items_fault e (meetings_seq w1 + 1) items 0 _ k msg Hk Hok Hbad).
  cbn [files meetings meetings_seq action_items action_items_seq net str_of_exn].
  rewrite E1, E2, E3, E4.
  split; [reflexivity|]. cbn [meetings action_items net].
  repeat (split; [reflexivity|]). exact Hex.
Qed.

Lemma failed_insert_keeps_earlier_rows_witness :
  let w := start_world answering_backend in
  exists w',
    process_audio second_insert_fails demo_request w =
      (w', mk_response (ErrorBody (cp "database is locked")) 500) /\
    map m_id (meetings w') = [1%Z] /\
    map ai_description (action_items w') = [cp "Send report"] /\
    file_exists (cp "uploads/meeting.wav") w' = true.
Proof.
  destruct (failed_insert_keeps_earlier_rows second_insert_fails demo_request
              (start_world answering_backend) (cp "meeting.wav")
              (cp "We agreed to ship on Friday.") (cp "database is locked") 1
              eq_refl ltac:(discriminate) eq_refl eq_refl eq_refl
              ltac:(intros i Hi; destruct i; [reflexivity | lia]) eq_refl)
    as (summary & items & net2 & w' & Hg & Hx & H).
  injection Hg as <-. injection Hx as <- <-.
  destruct (H ltac:(cbn; lia)) as (Hp & Hm & Hi & _ & Hf).
  exists w'. split; [exact Hp|]. rewrite Hm, Hi. repeat split. exact Hf.
Defined.

(** X11: when the transcription fails, [process_audio] answers 500 with
    "Failed to transcribe audio: " followed by the error of the speech
    model; no request is sent to the backend, no row is inserted, and the
    upload stays in the folder. *)
Theorem transcription_failure_stops_early (e : env) (req : request)
  (w : world) (filename msg : pystr) :
  audio_file req = Some filename ->
  filename <> [] ->
  file_save_error e (upload_path e filename) = None ->
  whisper_transcribe e (upload_path e filename) = Raise msg ->
  exists w',
    process_audio e req w =
      (w', mk_response
             (ErrorBody (cp "Failed to transcribe audio: " ++ msg)) 500) /\
    meetings w' = meetings w /\ action_items w' = action_items w /\
    net w' = net w /\
    file_exists (upload_path e filename) w' = true.
Proof.
  intros Ha Hne Hs Hw.
  destruct (file_save e (upload_path e filename) w) as [w1 r1] eqn:Es.
  assert (Es' := Es). unfold file_save in Es'. rewrite Hs in Es'.
  injection Es' as Ew1 <-.
  assert (Hsave := Es). apply file_save_exists in Hsave. destruct Hsave as [Hex _].
  exists w1.
  unfold process_audio, process_audio_try. rewrite Ha.
  destruct (pystr_eqb filename []) eqn:En;
    [apply pystr_eqb_eq in En; contradiction|].
  unfold mbind at 1. rewrite Es.
  unfold process_saved, mbind, lift, transcribe_audio. rewrite Hw.
  cbn [str_of_exn]. split; [reflexivity|]. subst w1. repeat split. exact Hex.
Qed.

Lemma transcription_failure_stops_early_witness :
  exists w',
    process_audio
      (mk_env demo_service (fun name => name) (cp "2024-01-05")
         (cp "2024-01-05T10:00:00") (fun _ => None)
         (fun _ => Raise (cp "out of memory")) None (fun _ => None)
         (fun _ => None))
      demo_request (start_world answering_backend) =
      (w', mk_response
             (ErrorBody (cp "Failed to transcribe audio: " ++ cp "out of memory"))
             500) /\
    meetings w' = [] /\ action_items w' = [] /\
    net w' = answering_backend /\
    file_exists (cp "uploads/meeting.wav") w' = true.
Proof.
  exact (transcription_failure_stops_early
           (mk_env demo_service (fun name => name) (cp "2024-01-05")
              (cp "2024-01-05T10:00:00") (fun _ => None)
              (fun _ => Raise (cp "out of memory")) None (fun _ => None)
              (fun _ => None))
           demo_request (start_world answering_backend) (cp "meeting.wav")
           (cp "out of memory") eq_refl ltac:(discriminate) eq_refl eq_refl).
Defined.

(* ================================================================== *)
(** ** The tables *)
(* ================================================================== *)

Import Models TableProps.

Section TableFacts.

Local Open Scope Z_scope.

Lemma tbl_find_app (A : Type) (p : A -> bool) (l l' : list A) :
  find p (l ++ l') =
  match find p l with Some x => Some x | None => find p l' end.
Proof.
  induction l as [|a l IH]; [reflexivity|]. simpl.
  destruct (p a); [reflexivity | exact IH].
Qed.

Lemma tbl_find_none (A : Type) (p : A -> bool) (l : list A) :
  Forall (fun x => p x = false) l -> find p l = None.
Proof.
  induction 1 as [|a l Ha _ IH]; [reflexivity|]. simpl. now rewrite Ha.
Qed.

Lemma tbl_find_map (A : Type) (p : A -> bool) (f : A -> A) (l : list A) :
  (forall x, p (f x) = p x) ->
  find p (map f l) = option_map f (find p l).
Proof.
  intro H. induction l as [|a l IH]; [reflexivity|]. simpl.
  rewrite H. destruct (p a); [reflexivity | exact IH].
Qed.

Lemma tbl_map_id (A : Type) (f : A -> A) (l : list A) :
  (forall x, In x l -> f x = x) -> map f l = l.
Proof.
  induction l as [|a l IH]; intro H; [reflexivity|]. simpl.
  rewrite H by now left. f_equal. apply IH. intros x Hx. apply H. now right.
Qed.

Lemma update_meeting_row_id (self : meeting_obj) (id : Z) (r : meeting_row) :
  m_id (update_meeting_row self id r) = m_id r /\
  m_created_at (update_meeting_row self id r) = m_created_at r.
Proof. unfold update_meeting_row. destruct (m_id r =? id); now split. Qed.

Lemma update_action_item_row_keeps (self : action_item_obj) (id : Z)
  (r : action_item_row) :
  ai_id (update_action_item_row self id r) = ai_id r /\
  ai_meeting_id (update_action_item_row self id r) = ai_meeting_id r /\
  ai_created_at (update_action_item_row self id r) = ai_created_at r.
Proof. unfold update_action_item_row. destruct (ai_id r =? id); now repeat split. Qed.

(** The insertions of the upload route are the [save] of the two classes on
    a new object. *)
Lemma meeting_save_is_Meeting_save (e : env)
  (title date att transcription summary : pystr) (w : world) :
  meeting_save e title date att transcription summary w =
  Meeting_save (insert_meeting_error e) (now_isoformat e)
    (mk_meeting_obj None title date att transcription summary) w.
Proof. reflexivity. Qed.

Lemma action_item_save_is_ActionItem_save (e : env) (n : nat) (mid : Z)
  (d a dd p : pystr) (w : world) :
  action_item_save e n mid d a dd p w =
  ActionItem_save (insert_action_item_error e n) (now_isoformat e)
    (mk_action_item_obj None mid d a dd p false) w.
Proof. reflexivity. Qed.

(** *** The order of texts *)

Lemma text_compare_refl (a : pystr) : text_compare a a = Eq.
Proof. induction a as [|x a IH]; simpl; [reflexivity|]. now rewrite N.compare_refl. Qed.

Lemma text_compare_eq (a b : pystr) : text_compare a b = Eq -> a = b.
Proof.
  revert b. induction a as [|x a IH]; intros [|y b]; simpl; try discriminate;
    [reflexivity|].
  destruct (N.compare_spec x y) as [Hxy|Hxy|Hxy]; try discriminate.
  intro H. subst. f_equal. now apply IH.
Qed.

Lemma text_compare_antisym (a b : pystr) :
  text_compare b a = CompOpp (text_compare a b).
Proof.
  revert b. induction a as [|x a IH]; intros [|y b]; simpl; try reflexivity.
  rewrite (N.compare_antisym x y).
  destruct (N.compare x y); simpl; [apply IH | reflexivity | reflexivity].
Qed.

Lemma text_compare_lt_trans (a b c : pystr) :
  text_compare a b = Lt -> text_compare b c = Lt -> text_compare a c = Lt.
Proof.
  revert b c. induction a as [|x a IH]; intros [|y b] [|z c]; simpl;
    try discriminate; try reflexivity.
  destruct (N.compare_spec x y) as [Hxy|Hxy|Hxy]; try discriminate;
    destruct (N.compare_spec y z) as [Hyz|Hyz|Hyz]; try discriminate;
    intros H1 H2.
  - subst. rewrite N.compare_refl. now apply (IH b).
  - subst. now apply N.compare_lt_iff in Hyz as ->.
  - subst. now apply N.compare_lt_iff in Hxy as ->.
  - assert (Hxz : (x < z)%N) by (eapply N.lt_trans; eassumption).
    now apply N.compare_lt_iff in Hxz as ->.
Qed.

Lemma text_compare_gt_lt (a b : pystr) :
  text_compare a b = Gt <-> text_compare b a = Lt.
Proof.
  rewrite (text_compare_antisym a b).
  destruct (text_compare a b); simpl; split; congruence.
Qed.

(** [a] is not after [b]. *)
Lemma text_le_trans (a b c : pystr) :
  text_compare a b <> Gt -> text_compare b c <> Gt -> text_compare a c <> Gt.
Proof.
  intros H1 H2.
  destruct (text_compare a b) eqn:E1; [| |congruence];
    destruct (text_compare b c) eqn:E2; try congruence.
  - apply text_compare_eq in E1, E2. subst. now rewrite text_compare_refl.
  - apply text_compare_eq in E1. subst. now rewrite E2.
  - apply text_compare_eq in E2. subst. now rewrite E1.
  - now rewrite (text_compare_lt_trans a b c E1 E2).
Qed.

Lemma item_order_total (a b : action_item_row) :
  item_order a b = true \/ item_order b a = true.
Proof.
  unfold item_order.
  rewrite (text_compare_antisym (ai_priority a) (ai_priority b)),
    (text_compare_antisym (ai_created_at a) (ai_created_at b)).
  destruct (text_compare (ai_priority a) (ai_priority b)); simpl; auto.
  destruct (text_compare (ai_created_at a) (ai_created_at b)); simpl; auto.
Qed.

Lemma item_order_trans (a b c : action_item_row) :
  item_order a b = true -> item_order b c = true -> item_order a c = true.
Proof.
  unfold item_order.
  destruct (text_compare (ai_priority a) (ai_priority b)) eqn:E1;
    try discriminate;
    destruct (text_compare (ai_priority b) (ai_priority c)) eqn:E2;
    try discriminate.
  - apply text_compare_eq in E1, E2. rewrite E1, E2, text_compare_refl.
    intros H1 H2.
    assert (G1 : text_compare (ai_created_at a) (ai_created_at b) <> Gt)
      by (destruct (text_compare (ai_created_at a) (ai_created_at b)); congruence).
    assert (G2 : text_compare (ai_created_at b) (ai_created_at c) <> Gt)
      by (destruct (text_compare (ai_created_at b) (ai_created_at c)); congruence).
    pose proof (text_le_trans _ _ _ G1 G2) as G.
    destruct (text_compare (ai_created_at a) (ai_created_at c)); congruence.
  - apply text_compare_eq in E1. rewrite E1, E2. reflexivity.
  - apply text_compare_eq in E2. rewrite <- E2, E1. reflexivity.
  - intros _ _. apply text_compare_gt_lt in E1, E2.
    pose proof (text_compare_lt_trans _ _ _ E2 E1) as E.
    apply text_compare_gt_lt in E. now rewrite E.
Qed.

Lemma meeting_order_total (a b : meeting_row) :
  meeting_order a b = true \/ meeting_order b a = true.
Proof.
  unfold meeting_order.
  rewrite (text_compare_antisym (m_created_at a) (m_created_at b)).
  destruct (text_compare (m_created_at a) (m_created_at b)); simpl; auto.
Qed.

Lemma meeting_order_trans (a b c : meeting_row) :
  meeting_order a b = true -> meeting_order b c = true ->
  meeting_order a c = true.
Proof.
  unfold meeting_order. intros H1 H2.
  assert (G1 : text_compare (m_created_at c) (m_created_at b) <> Gt).
  { rewrite (text_compare_antisym (m_created_at b) (m_created_at c)).
    destruct (text_compare (m_created_at b) (m_created_at c));
      simpl; congruence. }
  assert (G2 : text_compare (m_created_at b) (m_created_at a) <> Gt).
  { rewrite (text_compare_antisym (m_created_at a) (m_created_at b)).
    destruct (text_compare (m_created_at a) (m_created_at b));
      simpl; congruence. }
  pose proof (text_le_trans _ _ _ G1 G2) as G.
  rewrite (text_compare_antisym (m_created_at a) (m_created_at c)) in G.
  destruct (text_compare (m_created_at a) (m_created_at c));
    simpl in G; congruence.
Qed.

(** *** Sorting by insertion *)

Lemma insert_row_perm (A : Type) (before : A -> A -> bool) (x : A)
  (l : list A) : Permutation (insert_row before x l) (x :: l).
Proof.
  induction l as [|y r IH]; simpl; [reflexivity|].
  destruct (before x y); [reflexivity|].
  rewrite IH. apply perm_swap.
Qed.

Lemma order_by_perm (A : Type) (before : A -> A -> bool) (rows : list A) :
  Permutation (order_by before rows) rows.
Proof.
  induction rows as [|x r IH]; simpl; [reflexivity|].
  rewrite insert_row_perm. now constructor.
Qed.

Lemma insert_row_sorted (A : Type) (before : A -> A -> bool) :
  (forall a b, before a b = true \/ before b a = true) ->
  (forall a b c, before a b = true -> before b c = true -> before a c = true) ->
  forall x l,
    StronglySorted (fun a b => before a b = true) l ->
    StronglySorted (fun a b => before a b = true) (insert_row before x l).
Proof.
  intros Htot Htrans x l Hs. induction Hs as [|y r Hr IH Hy]; simpl.
  - constructor; constructor.
  - destruct (before x y) eqn:E.
    + constructor; [now constructor|].
      constructor; [exact E|].
      eapply Forall_impl; [|exact Hy]. intros z Hz. now apply (Htrans x y z).
    + constructor; [exact IH|].
      assert (Hyx : before y x = true).
      { destruct (Htot x y); congruence. }
      eapply Permutation_Forall;
        [symmetry; apply insert_row_perm | now constructor].
Qed.

Lemma order_by_sorted (A : Type) (before : A -> A -> bool) :
  (forall a b, before a b = true \/ before b a = true) ->
  (forall a b c, before a b = true -> before b c = true -> before a c = true) ->
  forall rows,
    StronglySorted (fun a b => before a b = true) (order_by before rows).
Proof.
  intros Htot Htrans rows. induction rows as [|x r IH]; simpl.
  - constructor.
  - now apply insert_row_sorted.
Qed.

Lemma order_by_selects (A : Type) (keep : A -> bool) (before : A -> A -> bool)
  (table : list A) :
  (forall a b, before a b = true \/ before b a = true) ->
  (forall a b c, before a b = true -> before b c = true -> before a c = true) ->
  selects keep before table (order_by before (filter keep table)).
Proof.
  intros Htot Htrans. split; [apply order_by_perm | now apply order_by_sorted].
Qed.

(** In a sorted list, an element may come before each one after it. *)
Lemma sorted_before (A : Type) (R : A -> A -> Prop) (pre mid post : list A)
  (x y : A) :
  StronglySorted R (pre ++ x :: mid ++ y :: post) -> R x y.
Proof.
  induction pre as [|a pre IH]; simpl; intro H.
  - inversion H as [|? ? _ Hx]; subst.
    rewrite Forall_forall in Hx. apply Hx.
    apply in_or_app. right. now left.
  - inversion H; subst. now apply IH.
Qed.

End TableFacts.

Section TableInvariant.

Local Open Scope Z_scope.

Lemma NoDup_snoc (A : Type) (l : list A) (x : A) :
  NoDup l -> ~ In x l -> NoDup (l ++ [x]).
Proof.
  intros Hl Hx. apply (Permutation_NoDup (Permutation_cons_append l x)).
  now constructor.
Qed.

Lemma fresh_id (A : Type) (id_of : A -> Z) (seq : Z) (l : list A) :
  Forall (fun r => id_of r <= seq) l -> ~ In (seq + 1) (map id_of l).
Proof.
  intros H Hin. apply in_map_iff in Hin. destruct Hin as (r & Hr & Hin).
  rewrite Forall_forall in H. specialize (H r Hin). lia.
Qed.

(** The tables stay in order when a meeting is inserted. *)
Lemma db_ok_insert_meeting (w : world) (row : meeting_row) :
  db_ok w -> m_id row = meetings_seq w + 1 ->
  db_ok (mk_world (files w) (meetings w ++ [row]) (meetings_seq w + 1)
           (action_items w) (action_items_seq w) (net w)).
Proof.
  intros (H1 & H2 & H3 & H4 & H5) Hid. unfold db_ok. cbn.
  rewrite map_app. cbn [map]. repeat split.
  - apply NoDup_snoc; [exact H1|]. rewrite Hid. now apply fresh_id.
  - apply Forall_app. split.
    + eapply Forall_impl; [|exact H2]. cbn. intros r Hr. lia.
    + constructor; [lia | constructor].
  - exact H3.
  - exact H4.
  - eapply Forall_impl; [|exact H5]. cbn. intros r Hr.
    apply in_or_app. now left.
Qed.

(** The tables stay in order when an action item of a meeting of the table
    is inserted. *)
Lemma db_ok_insert_item (w : world) (row : action_item_row) :
  db_ok w -> ai_id row = action_items_seq w + 1 ->
  In (ai_meeting_id row) (map m_id (meetings w)) ->
  db_ok (mk_world (files w) (meetings w) (meetings_seq w)
           (action_items w ++ [row]) (action_items_seq w + 1) (net w)).
Proof.
  intros (H1 & H2 & H3 & H4 & H5) Hid Hm. unfold db_ok. cbn.
  rewrite map_app. cbn [map]. repeat split.
  - exact H1.
  - exact H2.
  - apply NoDup_snoc; [exact H3|]. rewrite Hid. now apply fresh_id.
  - apply Forall_app. split.
    + eapply Forall_impl; [|exact H4]. cbn. intros r Hr. lia.
    + constructor; [lia | constructor].
  - apply Forall_app. split; [exact H5|]. constructor; [exact Hm | constructor].
Qed.

Lemma db_ok_same_tables (w w' : world) :
  meetings w' = meetings w -> meetings_seq w' = meetings_seq w ->
  action_items w' = action_items w ->
  action_items_seq w' = action_items_seq w -> db_ok w -> db_ok w'.
Proof. unfold db_ok. now intros -> -> -> ->. Qed.

(** *** Rules for [triple] *)

Lemma triple_bind (A B : Type) (I P : world -> Prop) (m : M A)
  (Q : A -> world -> Prop) (k : A -> M B) (R : B -> world -> Prop) :
  triple I P m Q -> (forall a, triple I (Q a) (k a) R) ->
  triple I P (mbind m k) R.
Proof.
  intros Hm Hk w Hw. unfold mbind. specialize (Hm w Hw).
  destruct (m w) as [w1 [a|ex]]; [|exact Hm]. now apply Hk.
Qed.

Lemma triple_ret (A : Type) (I P : world -> Prop) (a : A) :
  triple I P (ret a) (fun _ => P).
Proof. intros w Hw. exact Hw. Qed.

Lemma triple_lift (A : Type) (P : world -> Prop) (r : result exn A) :
  triple P P (lift r) (fun _ => P).
Proof. intros w Hw. unfold lift. destruct r; exact Hw. Qed.

Lemma triple_weaken (A : Type) (I P P' : world -> Prop) (m : M A)
  (Q Q' : A -> world -> Prop) :
  (forall w, P' w -> P w) -> (forall a w, Q a w -> Q' a w) ->
  triple I P m Q -> triple I P' m Q'.
Proof.
  intros HP HQ Hm w Hw. specialize (Hm w (HP w Hw)).
  destruct (m w) as [w1 [a|ex]]; [now apply HQ | exact Hm].
Qed.

Lemma on_net_db_ok (A : Type) (f : network -> network * result exn A) :
  triple db_ok db_ok (on_net f) (fun _ => db_ok).
Proof.
  intros w Hw. unfold on_net. destruct (f (net w)) as [n [a|ex]];
    now apply (db_ok_same_tables w).
Qed.

Lemma meeting_save_db_ok (e : env) (title date att t summary : pystr) :
  triple db_ok db_ok (meeting_save e title date att t summary)
    (fun mid w => db_ok w /\ In mid (map m_id (meetings w))).
Proof.
  intros w Hw. unfold meeting_save.
  destruct (insert_meeting_error e); [exact Hw|]. split.
  - now apply db_ok_insert_meeting.
  - cbn. rewrite map_app. apply in_or_app. right. now left.
Qed.

Lemma save_action_items_db_ok (e : env) (mid : Z) (items : list action_item) :
  forall n,
    triple db_ok (fun w => db_ok w /\ In mid (map m_id (meetings w)))
      (save_action_items e mid items n) (fun _ => db_ok).
Proof.
  induction items as [|item rest IH]; intros n.
  - intros w [Hw _]. exact Hw.
  - cbn [save_action_items].
    apply (triple_bind _ _ _ _ _
             (fun _ w => db_ok w /\ In mid (map m_id (meetings w))));
      [|intros _; apply IH].
    intros w [Hw Hin]. unfold action_item_save.
    destruct (insert_action_item_error e n); [exact Hw|]. split.
    + now apply db_ok_insert_item.
    + exact Hin.
Qed.

Lemma os_remove_db_ok (e : env) (filepath : pystr) :
  triple db_ok db_ok (os_remove e filepath) (fun _ => db_ok).
Proof.
  intros w Hw. unfold os_remove.
  destruct (file_exists filepath w); [|exact Hw].
  destruct (remove_error e filepath); [exact Hw|].
  now apply (db_ok_same_tables w).
Qed.

Lemma file_save_db_ok (e : env) (filepath : pystr) :
  triple db_ok db_ok (file_save e filepath) (fun _ => db_ok).
Proof.
  intros w Hw. unfold file_save.
  destruct (file_save_error e filepath); [exact Hw|].
  now apply (db_ok_same_tables w).
Qed.

Lemma process_saved_db_ok (e : env) (req : request) (filepath : pystr) :
  triple db_ok db_ok (process_saved e req filepath) (fun _ => db_ok).
Proof.
  unfold process_saved.
  eapply triple_bind; [apply triple_lift|]. intros t.
  eapply triple_bind; [apply on_net_db_ok|]. intros summary.
  eapply triple_bind; [apply on_net_db_ok|]. intros items.
  eapply triple_bind; [apply meeting_save_db_ok|]. intros mid.
  eapply triple_bind; [apply save_action_items_db_ok|]. intros u1.
  eapply triple_bind; [apply os_remove_db_ok|]. intros u2.
  apply triple_ret.
Qed.

Lemma process_audio_db_ok (e : env) (req : request) (w : world) :
  db_ok w -> db_ok (fst (process_audio e req w)).
Proof.
  intro Hw.
  assert (T : triple db_ok db_ok (process_audio_try e req) (fun _ => db_ok)).
  { unfold process_audio_try. destruct (audio_file req) as [filename|];
      [|apply triple_ret].
    destruct (pystr_eqb filename []); [apply triple_ret|].
    eapply triple_bind; [apply file_save_db_ok|]. intros u.
    apply process_saved_db_ok. }
  specialize (T w Hw). unfold process_audio.
  destruct (process_audio_try e req w) as [w' [r|ex]]; exact T.
Qed.

(** The rows of the items of one run. *)
Lemma item_rows_facts (e : env) (mid : Z) (items : list action_item) :
  forall seq,
    map ai_description (item_rows e mid seq items) = map description items /\
    filter (fun r => ai_meeting_id r =? mid) (item_rows e mid seq items) =
      item_rows e mid seq items /\
    length (item_rows e mid seq items) = length items.
Proof.
  induction items as [|item rest IH]; intro seq; [now repeat split|].
  destruct (IH (seq + 1)) as (H1 & H2 & H3).
  cbn [item_rows map filter length ai_meeting_id ai_description].
  rewrite Z.eqb_refl, H1, H2, H3. now repeat split.
Qed.

End TableInvariant.

(** X12: a new meeting can be read back.  On tables in order, [Meeting.save]
    on an object without id inserts a row under the next id and returns that
    id; [Meeting.get_by_id] then gives the saved fields for that id and what
    it gave before for every other id; the tables are still in order. *)
Theorem Meeting_insert_then_get (now : pystr) (self : meeting_obj) (w : world) :
  mo_id self = None ->
  db_ok w ->
  exists w',
    Meeting_save None now self w = (w', Return (meetings_seq w + 1)%Z) /\
    Meeting_get_by_id None (meetings_seq w + 1) w' =
      Return (Some (mk_meeting_row (meetings_seq w + 1) (mo_title self)
                      (mo_date self) (mo_attendees self)
                      (mo_transcription self) (mo_summary self) now)) /\
    (forall other, other <> (meetings_seq w + 1)%Z ->
       Meeting_get_by_id None other w' = Meeting_get_by_id None other w) /\
    db_ok w'.
Proof.
  intros Hid Hw. unfold Meeting_save. rewrite Hid.
  eexists. split; [reflexivity|]. unfold Meeting_get_by_id. cbn [meetings].
  split; [|split].
  - rewrite tbl_find_app, tbl_find_none.
    + cbn. now rewrite Z.eqb_refl.
    + destruct Hw as (_ & H2 & _). eapply Forall_impl; [|exact H2].
      cbn. intros r Hr. apply Z.eqb_neq. lia.
  - intros other Ho. rewrite tbl_find_app. cbn.
    destruct (Z.eqb_spec (meetings_seq w + 1) other); [congruence|].
    now destruct (find _ (meetings w)).
  - now apply db_ok_insert_meeting.
Qed.

Lemma Meeting_insert_then_get_witness :
  exists w',
    Meeting_save None (cp "2024-01-05T10:00:00")
      (mk_meeting_obj None (cp "Weekly") (cp "2024-01-05") (cp "Ann, Bob")
         (cp "We agreed to ship on Friday.") (cp "# Shipping"))
      (start_world answering_backend) = (w', Return 1%Z) /\
    Meeting_get_by_id None 1 w' =
      Return (Some (mk_meeting_row 1 (cp "Weekly") (cp "2024-01-05")
                      (cp "Ann, Bob") (cp "We agreed to ship on Friday.")
                      (cp "# Shipping") (cp "2024-01-05T10:00:00"))) /\
    (forall other, other <> 1%Z ->
       Meeting_get_by_id None other w' =
       Meeting_get_by_id None other (start_world answering_backend)) /\
    db_ok w'.
Proof.
  apply (Meeting_insert_then_get (cp "2024-01-05T10:00:00")
           (mk_meeting_obj None (cp "Weekly") (cp "2024-01-05") (cp "Ann, Bob")
              (cp "We agreed to ship on Friday.") (cp "# Shipping"))
           (start_world answering_backend) eq_refl).
  unfold db_ok. cbn. repeat split; constructor.
Defined.

(** X13: [Meeting.save] on an object with an id updates the row of that id
    and returns the id.  The ids and the creation times of all rows, the
    other rows and the action items are left as they are; when no row has
    the id, nothing is stored and the id is returned all the same. *)
Theorem Meeting_update_then_get (now : pystr) (self : meeting_obj) (w : world)
  (id : Z) :
  mo_id self = Some id ->
  exists w',
    Meeting_save None now self w = (w', Return id) /\
    map m_id (meetings w') = map m_id (meetings w) /\
    map m_created_at (meetings w') = map m_created_at (meetings w) /\
    action_items w' = action_items w /\
    (forall r, Meeting_get_by_id None id w = Return (Some r) ->
       Meeting_get_by_id None id w' =
       Return (Some (mk_meeting_row id (mo_title self) (mo_date self)
                       (mo_attendees self) (mo_transcription self)
                       (mo_summary self) (m_created_at r)))) /\
    (Meeting_get_by_id None id w = Return None -> meetings w' = meetings w) /\
    (forall other, other <> id ->
       Meeting_get_by_id None other w' = Meeting_get_by_id None other w).
Proof.
  intro Hid. unfold Meeting_save. rewrite Hid.
  eexists. split; [reflexivity|]. unfold Meeting_get_by_id. cbn [meetings action_items].
  split; [|split; [|split; [reflexivity|split; [|split]]]].
  - rewrite map_map. apply map_ext. intro r. apply update_meeting_row_id.
  - rewrite map_map. apply map_ext. intro r. apply update_meeting_row_id.
  - intros r [= Hr]. rewrite tbl_find_map, Hr.
    + cbn. apply find_some in Hr. destruct Hr as [_ Hr].
      unfold update_meeting_row. rewrite Hr. apply Z.eqb_eq in Hr.
      now rewrite Hr.
    + intro x. now rewrite (proj1 (update_meeting_row_id self id x)).
  - intros [= Hr]. apply tbl_map_id. intros x Hx.
    unfold update_meeting_row.
    destruct (m_id x =? id)%Z eqn:E; [|reflexivity].
    exfalso. now rewrite (find_none _ _ Hr x Hx) in E.
  - intros other Ho. rewrite tbl_find_map.
    + destruct (find (fun r => (m_id r =? other)%Z) (meetings w)) as [r|] eqn:Hr;
        [|reflexivity].
      cbn. apply find_some in Hr. destruct Hr as [_ Hr].
      apply Z.eqb_eq in Hr. unfold update_meeting_row.
      destruct (Z.eqb_spec (m_id r) id); [congruence | reflexivity].
    + intro x. now rewrite (proj1 (update_meeting_row_id self id x)).
Qed.

Lemma Meeting_update_then_get_witness :
  exists w',
    Meeting_save None (cp "2024-02-01T09:00:00")
      (mk_meeting_obj (Some 7%Z) (cp "Weekly") (cp "2024-01-05") []
         (cp "text") (cp "# New summary"))
      (start_world answering_backend) = (w', Return 7%Z) /\
    meetings w' = [].
Proof.
  destruct (Meeting_update_then_get (cp "2024-02-01T09:00:00")
              (mk_meeting_obj (Some 7%Z) (cp "Weekly") (cp "2024-01-05") []
                 (cp "text") (cp "# New summary"))
              (start_world answering_backend) 7 eq_refl)
    as (w' & Hs & _ & _ & _ & _ & Hn & _).
  exists w'. split; [exact Hs|]. exact (Hn eq_refl).
Defined.

(** X14: [ActionItem.save] on an object with an id never moves the item to
    another meeting: it returns the id, and the id, the meeting and the
    creation time of every row are as before, as are the meetings; a row
    with another id is not changed at all, and tables in order stay in
    order. *)
Theorem ActionItem_update_keeps_meeting (now : pystr) (self : action_item_obj)
  (w : world) (id : Z) :
  ao_id self = Some id ->
  exists w',
    ActionItem_save None now self w = (w', Return id) /\
    map ai_id (action_items w') = map ai_id (action_items w) /\
    map ai_meeting_id (action_items w') = map ai_meeting_id (action_items w) /\
    map ai_created_at (action_items w') = map ai_created_at (action_items w) /\
    meetings w' = meetings w /\
    (forall other, other <> id ->
       ActionItem_get_by_id None other w' = ActionItem_get_by_id None other w) /\
    (db_ok w -> db_ok w').
Proof.
  intro Hid. unfold ActionItem_save. rewrite Hid.
  eexists. split; [reflexivity|]. cbn [meetings action_items].
  assert (E1 : map ai_id (map (update_action_item_row self id) (action_items w))
               = map ai_id (action_items w)).
  { rewrite map_map. apply map_ext. intro r. apply update_action_item_row_keeps. }
  assert (E2 : map ai_meeting_id
                 (map (update_action_item_row self id) (action_items w))
               = map ai_meeting_id (action_items w)).
  { rewrite map_map. apply map_ext. intro r. apply update_action_item_row_keeps. }
  split; [exact E1|]. split; [exact E2|]. split; [|split; [reflexivity|split]].
  - rewrite map_map. apply map_ext. intro r. apply update_action_item_row_keeps.
  - intros other Ho. unfold ActionItem_get_by_id. cbn [action_items].
    rewrite tbl_find_map.
    + destruct (find (fun r => (ai_id r =? other)%Z) (action_items w)) as [r|] eqn:Hr;
        [|reflexivity].
      cbn. apply find_some in Hr. destruct Hr as [_ Hr].
      apply Z.eqb_eq in Hr. unfold update_action_item_row.
      destruct (Z.eqb_spec (ai_id r) id); [congruence | reflexivity].
    + intro x. now rewrite (proj1 (update_action_item_row_keeps self id x)).
  - intros (H1 & H2 & H3 & H4 & H5). unfold db_ok.
    cbn [meetings meetings_seq action_items action_items_seq].
    rewrite E1. repeat split; auto.
    + apply Forall_map. eapply Forall_impl; [|exact H4]. cbn. intros r Hr.
      now rewrite (proj1 (update_action_item_row_keeps self id r)).
    + apply Forall_map. eapply Forall_impl; [|exact H5]. cbn. intros r Hr.
      now rewrite (proj1 (proj2 (update_action_item_row_keeps self id r))).
Qed.

Lemma ActionItem_update_keeps_meeting_witness :
  exists w',
    ActionItem_save None (cp "2024-02-01T09:00:00")
      (mk_action_item_obj (Some 2%Z) 99 (cp "Tidy wiki") (cp "Bob")
         (cp "2024-03-01") (cp "High") true)
      (mk_world [] [] 0 three_priorities 3 answering_backend) = (w', Return 2%Z) /\
    map ai_meeting_id (action_items w') = [1%Z; 1%Z; 1%Z].
Proof.
  destruct (ActionItem_update_keeps_meeting (cp "2024-02-01T09:00:00")
              (mk_action_item_obj (Some 2%Z) 99 (cp "Tidy wiki") (cp "Bob")
                 (cp "2024-03-01") (cp "High") true)
              (mk_world [] [] 0 three_priorities 3 answering_backend) 2 eq_refl)
    as (w' & Hs & _ & Hm & _).
  exists w'. split; [exact Hs | exact Hm].
Defined.

(** X15: [ActionItem.get_by_meeting_id] lists the rows of the meeting, and
    no other row, ordered by the text of the priority in descending order:
    the items with priority "Medium" come first, then those with "Low", and
    those with "High" come last.  This holds for every order in which the
    database may give rows with equal keys. *)
Theorem action_items_listed_by_priority_text (w : world) (meeting_id : Z)
  (out : list action_item_row) :
  selects (fun r => (ai_meeting_id r =? meeting_id)%Z) item_order
          (action_items w) out ->
  (forall r, In r out <-> In r (action_items w) /\ ai_meeting_id r = meeting_id) /\
  (forall pre x mid y post ra rb,
      out = pre ++ x :: mid ++ y :: post ->
      priority_rank (ai_priority x) = Some ra ->
      priority_rank (ai_priority y) = Some rb ->
      (ra <= rb)%nat).
Proof.
  intros [Hp Hs]. split.
  - intro r. split.
    + intro H. apply (Permutation_in _ Hp), filter_In in H.
      destruct H as [H1 H2]. apply Z.eqb_eq in H2. now split.
    + intros [H1 H2]. apply (Permutation_in _ (Permutation_sym Hp)).
      apply filter_In. split; [exact H1 | now apply Z.eqb_eq].
  - intros pre x mid y post ra rb Ho Hx Hy. subst out.
    apply sorted_before in Hs. unfold item_order in Hs.
    unfold priority_rank in Hx, Hy.
    destruct (pystr_eqb (ai_priority x) (cp "Medium")) eqn:X1;
      [apply pystr_eqb_eq in X1; injection Hx as <-; lia|].
    destruct (pystr_eqb (ai_priority x) (cp "Low")) eqn:X2.
    { apply pystr_eqb_eq in X2. injection Hx as <-. rewrite X2 in Hs.
      destruct (pystr_eqb (ai_priority y) (cp "Medium")) eqn:Y1.
      { apply pystr_eqb_eq in Y1. rewrite Y1 in Hs. vm_compute in Hs.
        discriminate. }
      destruct (pystr_eqb (ai_priority y) (cp "Low")) eqn:Y2;
        [injection Hy as <-; lia|].
      destruct (pystr_eqb (ai_priority y) (cp "High")) eqn:Y3;
        [injection Hy as <-; lia | discriminate]. }
    destruct (pystr_eqb (ai_priority x) (cp "High")) eqn:X3; [|discriminate].
    apply pystr_eqb_eq in X3. injection Hx as <-. rewrite X3 in Hs.
    destruct (pystr_eqb (ai_priority y) (cp "Medium")) eqn:Y1.
    { apply pystr_eqb_eq in Y1. rewrite Y1 in Hs. vm_compute in Hs.
      discriminate. }
    destruct (pystr_eqb (ai_priority y) (cp "Low")) eqn:Y2.
    { apply pystr_eqb_eq in Y2. rewrite Y2 in Hs. vm_compute in Hs.
      discriminate. }
    destruct (pystr_eqb (ai_priority y) (cp "High")) eqn:Y3;
      [injection Hy as <-; lia | discriminate].
Qed.

Lemma action_items_listed_by_priority_text_witness :
  ActionItem_get_by_meeting_id None 1
    (mk_world [] [] 0 three_priorities 3 answering_backend) =
    Return (order_by item_order three_priorities) /\
  map ai_priority (order_by item_order three_priorities) =
    [cp "Medium"; cp "Low"; cp "High"] /\
  (forall r, In r (order_by item_order three_priorities) <->
             In r three_priorities /\ ai_meeting_id r = 1%Z).
Proof.
  split; [reflexivity|]. split; [vm_compute; reflexivity|].
  apply (action_items_listed_by_priority_text
           (mk_world [] [] 0 three_priorities 3 answering_backend) 1
           (order_by item_order three_priorities)).
  exact (order_by_selects _ (fun r => (ai_meeting_id r =? 1)%Z) item_order
           three_priorities item_order_total item_order_trans).
Defined.

(** X16: when [sqlite3] does not raise, [ActionItem.get_by_meeting_id] and
    [Meeting.get_all] return a list: each row that the query selects, once,
    in an order that respects the [ORDER BY] clause; for a meeting without
    action items, or an id that no meeting has, the list is empty.  When
    [sqlite3] raises, the error reaches the caller as it is. *)
Theorem list_queries_select (w : world) (meeting_id : Z) :
  (exists out,
      ActionItem_get_by_meeting_id None meeting_id w = Return out /\
      selects (fun r => (ai_meeting_id r =? meeting_id)%Z) item_order
              (action_items w) out /\
      (Forall (fun r => ai_meeting_id r <> meeting_id) (action_items w) ->
       out = [])) /\
  (exists out,
      Meeting_get_all None w = Return out /\
      selects (fun _ => true) meeting_order (meetings w) out /\
      length out = length (meetings w)) /\
  (forall msg,
      ActionItem_get_by_meeting_id (Some msg) meeting_id w = Raise (Exception msg) /\
      Meeting_get_all (Some msg) w = Raise (Exception msg)).
Proof.
  split; [|split].
  - eexists. split; [reflexivity|]. split.
    + apply order_by_selects; [apply item_order_total | apply item_order_trans].
    + intro H.
      assert (E : filter (fun r => (ai_meeting_id r =? meeting_id)%Z)
                    (action_items w) = []).
      { induction H as [|r l Hr _ IH]; [reflexivity|]. simpl.
        apply Z.eqb_neq in Hr. now rewrite Hr. }
      now rewrite E.
  - eexists. split; [reflexivity|].
    assert (E : filter (fun _ : meeting_row => true) (meetings w) = meetings w).
    { induction (meetings w) as [|r l IH]; [reflexivity|]. simpl. now rewrite IH. }
    split.
    + rewrite <- E at 2.
      apply order_by_selects; [apply meeting_order_total | apply meeting_order_trans].
    + apply Permutation_length, order_by_perm.
  - intro msg. split; reflexivity.
Qed.

(** X17: what [process_audio] answered can be read back.  On tables in
    order, after an answer with a result, [Meeting.get_by_id] finds under the
    [meeting_id] of the answer a row with the summary of the answer and the
    transcription that the answer shows, and [ActionItem.get_by_meeting_id]
    lists exactly the rows of the items of the answer, in some order. *)
Theorem answer_can_be_read_back (e : env) (req : request) (w w' : world)
  (mid : Z) (summary : pystr) (items : list action_item) (shown : pystr)
  (out : list action_item_row) :
  db_ok w ->
  process_audio e req w =
    (w', mk_response (ResultBody true mid summary items shown) 200) ->
  selects (fun r => (ai_meeting_id r =? mid)%Z) item_order (action_items w') out ->
  (exists r,
      Meeting_get_by_id None mid w' = Return (Some r) /\
      m_id r = mid /\ m_summary r = summary /\
      shown = shown_transcription (m_transcription r)) /\
  Permutation out (item_rows e mid (action_items_seq w) items) /\
  Permutation (map ai_description out) (map description items) /\
  length out = length items.
Proof.
  intros Hw Hp [Hperm _].
  apply process_audio_success in Hp.
  destruct Hp as (filename & t & _ & _ & Hshown & Hmid & Hm & _ & Ha & _).
  destruct Hw as (_ & H2 & _ & _ & H5).
  split.
  - eexists. unfold Meeting_get_by_id. rewrite Hm, tbl_find_app, tbl_find_none.
    + cbn. rewrite Z.eqb_refl. repeat split. exact Hshown.
    + eapply Forall_impl; [|exact H2]. cbn. intros r Hr. apply Z.eqb_neq. lia.
  - assert (E : filter (fun r => (ai_meeting_id r =? mid)%Z) (action_items w')
                = item_rows e mid (action_items_seq w) items).
    { rewrite Ha, filter_app.
      rewrite (proj1 (proj2 (item_rows_facts e mid items (action_items_seq w)))).
      assert (E0 : filter (fun r => (ai_meeting_id r =? mid)%Z) (action_items w) = []).
      { clear Ha Hperm. induction H5 as [|r l Hr _ IH]; [reflexivity|]. simpl.
        assert (Hne : ai_meeting_id r <> mid).
        { intro Heq. apply (fresh_id _ m_id (meetings_seq w) (meetings w) H2).
          rewrite <- Hmid, <- Heq. exact Hr. }
        apply Z.eqb_neq in Hne. now rewrite Hne. }
      now rewrite E0. }
    rewrite E in Hperm. split; [exact Hperm|]. split.
    + rewrite <- (proj1 (item_rows_facts e mid items (action_items_seq w))).
      now apply Permutation_map.
    + rewrite (Permutation_length Hperm).
      apply (item_rows_facts e mid items (action_items_seq w)).
Qed.

Lemma answer_can_be_read_back_witness :
  let w' := fst (process_audio demo_env demo_request
                   (start_world answering_backend)) in
  let out := order_by item_order
               (filter (fun r => (ai_meeting_id r =? 1)%Z) (action_items w')) in
  (exists r,
      Meeting_get_by_id None 1 w' = Return (Some r) /\
      m_id r = 1%Z /\ m_summary r = cp "# Shipping on Friday" /\
      cp "We agreed to ship on Friday." = shown_transcription (m_transcription r)) /\
  Permutation out
    (item_rows demo_env 1 (action_items_seq (start_world answering_backend))
       [text_item (cp "Send report"); text_item (cp "Book room")]) /\
  Permutation (map ai_description out)
    (map description [text_item (cp "Send report"); text_item (cp "Book room")]) /\
  length out = 2%nat.
Proof.
  apply (answer_can_be_read_back demo_env demo_request
           (start_world answering_backend)
           (fst (process_audio demo_env demo_request
                   (start_world answering_backend)))
           1 (cp "# Shipping on Friday")
           [text_item (cp "Send report"); text_item (cp "Book room")]
           (cp "We agreed to ship on Friday.")).
  - unfold db_ok. cbn. repeat split; constructor.
  - vm_compute. reflexivity.
  - apply order_by_selects; [apply item_order_total | apply item_order_trans].
Defined.

(** X18: [process_audio] keeps the tables in order, whatever step fails: the
    ids of each table stay distinct, and every action item, also one that
    was inserted before a later insertion failed, belongs to a meeting of
    the table. *)
Theorem process_audio_keeps_db_ok (e : env) (req : request) (w : world) :
  db_ok w -> db_ok (fst (process_audio e req w)).
Proof. exact (process_audio_db_ok e req w). Qed.

Lemma process_audio_keeps_db_ok_witness :
  db_ok (fst (process_audio second_insert_fails demo_request
                (start_world answering_backend))).
Proof.
  apply (process_audio_keeps_db_ok second_insert_fails demo_request
           (start_world answering_backend)).
  unfold db_ok. cbn. repeat split; constructor.
Defined.

(* ================================================================== *)
(** ** The text export and the export route *)
(* ================================================================== *)

Import FileService.

Section ExportFacts.

Local Open Scope N_scope.

Lemma join_lines_cons (l : pystr) (rest : list pystr) :
  rest <> [] -> join_lines (l :: rest) = l ++ 10 :: join_lines rest.
Proof. destruct rest; [congruence | reflexivity]. Qed.

Lemma join_lines_app (a b : list pystr) :
  a <> [] -> b <> [] ->
  join_lines (a ++ b) = join_lines a ++ 10 :: join_lines b.
Proof.
  induction a as [|l a IH]; intros Ha Hb; [congruence|].
  destruct a as [|l' a'].
  - simpl app. now rewrite join_lines_cons.
  - change ((l :: l' :: a') ++ b) with (l :: (l' :: a') ++ b).
    rewrite join_lines_cons by discriminate.
    rewrite IH by (discriminate || assumption).
    rewrite (join_lines_cons l (l' :: a')) by discriminate.
    now rewrite <- app_assoc.
Qed.

(** The text of some lines in a row is a piece of the text of all lines. *)
Lemma join_lines_block (a blk b : list pystr) :
  blk <> [] -> has_substring (join_lines blk) (join_lines (a ++ blk ++ b)).
Proof.
  intro Hb. unfold has_substring.
  assert (Hbb : forall b,
             exists suf, join_lines (blk ++ b) = join_lines blk ++ suf).
  { intro b0. destruct b0 as [|x b0].
    - exists []. now rewrite !app_nil_r.
    - exists (10 :: join_lines (x :: b0)).
      apply join_lines_app; [exact Hb | discriminate]. }
  destruct (Hbb b) as [suf Hs].
  destruct a as [|x a].
  - exists [], suf. exact Hs.
  - exists (join_lines (x :: a) ++ [10]), suf.
    rewrite join_lines_app; [|discriminate|].
    + rewrite Hs, <- app_assoc. reflexivity.
    + destruct blk; [congruence | discriminate].
Qed.

Lemma enumerate_lines_nth (items : list action_item_row) :
  forall (i : Z) (k : nat) (item : action_item_row),
    nth_error items k = Some item ->
    exists pre post,
      enumerate_lines i items =
      pre ++ item_lines (i + Z.of_nat k) item ++ post.
Proof.
  induction items as [|x rest IH]; intros i k item H.
  - destruct k; discriminate.
  - destruct k as [|k].
    + injection H as ->. exists [], (enumerate_lines (i + 1) rest).
      cbn [enumerate_lines Z.of_nat]. now rewrite Z.add_0_r.
    + destruct (IH (i + 1)%Z k item H) as (pre & post & E).
      exists (item_lines i x ++ pre), post.
      replace (i + Z.of_nat (S k))%Z with (i + 1 + Z.of_nat k)%Z by lia.
      cbn [enumerate_lines]. rewrite E, <- app_assoc. reflexivity.
Qed.

End ExportFacts.

(** X19: the text export of a meeting that is there, with text in every
    column as [process_audio] writes it, never fails.  The text
    starts and ends with a line of 60 signs [=]; it holds the title in
    capitals and the summary; and for every action item it holds, in the
    order of the list and numbered from 1 by position, the block of the four
    lines "k. description", "Assignee", "Due Date" and "Priority". *)
Theorem export_to_text_layout (te : text_env) (meeting : meeting_row)
  (action_items : list action_item_row) :
  exists text,
    export_to_text te (Some meeting) action_items = Return text /\
    startswith (char_times 61 60 ++ cp "
") text = true /\
    (exists pre, text = pre ++ cp "
" ++ char_times 61 60) /\
    has_substring (cp "MEETING SUMMARY: " ++ str_upper te (m_title meeting)) text /\
    has_substring (m_summary meeting) text /\
    (forall k item,
        nth_error action_items k = Some item ->
        has_substring (item_block (Z.of_nat k + 1) item) text).
Proof.
  eexists. split; [reflexivity|]. unfold text_lines.
  match goal with
  | |- context [join_lines ((?r :: ?x :: ?hd) ++ ?sec ++ [?r1; ?r2; ?r3])] =>
      set (HD := hd); set (SEC := sec); set (R2 := r2); set (T := x)
  end.
  split; [|split; [|split; [|split]]].
  - apply startswith_spec. eexists. cbn [app].
    rewrite join_lines_cons by discriminate.
    rewrite <- app_assoc. reflexivity.
  - exists (join_lines ((char_times 61 60 :: T :: HD) ++ SEC
                         ++ [char_times 61 60; R2])).
    replace ((char_times 61 60 :: T :: HD) ++ SEC
             ++ [char_times 61 60; R2; char_times 61 60])
      with (((char_times 61 60 :: T :: HD) ++ SEC ++ [char_times 61 60; R2])
            ++ [char_times 61 60])
      by (now rewrite <- !app_assoc).
    rewrite join_lines_app; [reflexivity | discriminate | discriminate].
  - apply (join_lines_block [char_times 61 60] [T]). discriminate.
  - subst HD.
    match goal with
    | |- has_substring ?l (join_lines (?hd ++ ?tl)) =>
        change (hd ++ tl) with (firstn 11 hd ++ [l] ++ (skipn 12 hd ++ tl));
        apply (join_lines_block (firstn 11 hd) [l])
    end.
    discriminate.
  - intros k item Hk.
    assert (Hsec : SEC = [cp "ACTION ITEMS:"; char_times 45 20]
                         ++ enumerate_lines 1 action_items).
    { subst SEC. destruct action_items; [destruct k; discriminate | reflexivity]. }
    rewrite Hsec. clear Hsec.
    destruct (enumerate_lines_nth action_items 1 k item Hk) as (pre & post & E).
    rewrite E.
    replace (1 + Z.of_nat k)%Z with (Z.of_nat k + 1)%Z by lia.
    unfold item_block.
    match goal with
    | |- has_substring _ (join_lines (?hd ++ (?sec ++ pre ++ ?il ++ post) ++ ?tl)) =>
        replace (hd ++ (sec ++ pre ++ il ++ post) ++ tl)
          with ((hd ++ sec ++ pre) ++ firstn 4 il ++ (skipn 4 il ++ post ++ tl))
    end.
    + apply join_lines_block. discriminate.
    + rewrite <- !app_assoc.
      rewrite (app_assoc (firstn 4 _)), firstn_skipn. reflexivity.
Qed.

(** X20: the answers of the export route.  An error of the database is
    answered with 500 and its text, whatever the format.  Otherwise a format
    other than [pdf] and [txt] is answered with 400 "Unsupported format",
    also when the meeting does not exist; the text export of a meeting
    that is there is answered with 200 and the type text/plain; and the
    export of a meeting that does not exist is answered with 500 and the
    text of an [AttributeError], not with 404. *)
Theorem export_meeting_answers (xe : export_env) (meeting_id : Z)
  (format : pystr) (w : world) :
  (forall msg, meeting_query_error xe = Some msg ->
     export_meeting xe meeting_id format w = JsonError msg 500) /\
  (forall msg, meeting_query_error xe = None ->
     items_query_error xe = Some msg ->
     export_meeting xe meeting_id format w = JsonError msg 500) /\
  (meeting_query_error xe = None -> items_query_error xe = None ->
   (format <> cp "pdf" -> format <> cp "txt" ->
    export_meeting xe meeting_id format w =
      JsonError (cp "Unsupported format") 400) /\
   (forall m out,
      Meeting_get_by_id None meeting_id w = Return (Some m) ->
      ActionItem_get_by_meeting_id None meeting_id w = Return out ->
      format = cp "txt" ->
      export_meeting xe meeting_id format w =
        TextAnswer (join_lines (text_lines (text_lib xe) m out)) 200
                   (cp "text/plain")) /\
   (Meeting_get_by_id None meeting_id w = Return None ->
    (format = cp "txt" ->
     export_meeting xe meeting_id format w =
       JsonError (cp "Failed to export text: 'NoneType' object has no attribute 'get'")
                 500) /\
    (format = cp "pdf" ->
     export_meeting xe meeting_id format w =
       JsonError (cp "Failed to export PDF: 'NoneType' object has no attribute 'get'")
                 500))).
Proof.
  unfold export_meeting, export_meeting_try.
  split; [|split].
  - intros msg ->. reflexivity.
  - intros msg -> ->. cbn [Meeting_get_by_id bind ActionItem_get_by_meeting_id].
    reflexivity.
  - intros -> ->. cbn [bind ActionItem_get_by_meeting_id].
    split; [|split].
    + intros H1 H2. unfold Meeting_get_by_id. cbn [bind].
      destruct (pystr_eqb format (cp "pdf")) eqn:E1;
        [apply pystr_eqb_eq in E1; contradiction|].
      destruct (pystr_eqb format (cp "txt")) eqn:E2;
        [apply pystr_eqb_eq in E2; contradiction|].
      reflexivity.
    + intros m out Hm [= <-] ->. rewrite Hm. cbn [bind]. reflexivity.
    + intro Hm. rewrite Hm. cbn [bind].
      split; intros ->; reflexivity.
Qed.

(** The route on an id that no meeting has. *)
Example export_of_missing_meeting :
  export_meeting demo_export_env 7 (cp "txt") (start_world answering_backend) =
    JsonError (cp "Failed to export text: 'NoneType' object has no attribute 'get'")
              500 /\
  export_meeting demo_export_env 7 (cp "docx") (start_world answering_backend) =
    JsonError (cp "Unsupported format") 400.
Proof. split; reflexivity. Qed.

(* ================================================================== *)
(** ** The connection check *)
(* ================================================================== *)

Import Connection.

Section ConnectionFacts.

Local Open Scope N_scope.

Lemma names_of_named (entries : list json) (ns : list pystr) :
  Forall2 entry_named entries ns -> names_of entries = Return (map JStr ns).
Proof.
  induction 1 as [|entry n entries ns (e & -> & He) _ IH]; [reflexivity|].
  cbn [names_of subscript_name bind]. rewrite He. cbn [bind].
  rewrite IH. reflexivity.
Qed.

Lemma any_in_texts (self_model : pystr) (ns : list pystr) :
  any_in self_model (map JStr ns) = Return (existsb (contains self_model) ns).
Proof.
  induction ns as [|n ns IH]; [reflexivity|].
  cbn [map any_in py_in bind existsb].
  destruct (contains self_model n); [reflexivity | exact IH].
Qed.

End ConnectionFacts.

(** X21: [_check_ollama_connection] never raises, and it changes the model
    in one case only: the request was answered with 200 and a JSON object,
    every entry of its list [models] has a [name], no name holds the model,
    and the list is not empty; the model then becomes the first name of the
    list.  In every other case, also when the request fails, the model is the
    one that was set. *)
Theorem connection_check_keeps_or_takes_first (reply : ollama_reply)
  (self_model : pystr) :
  _check_ollama_connection reply self_model = JStr self_model \/
  exists d models entries first rest,
    reply = Responded 200 (Return (JObj d)) /\
    get_models (JObj d) = Return models /\
    iterate models = Return entries /\
    names_of entries = Return (first :: rest) /\
    any_in self_model (first :: rest) = Return false /\
    _check_ollama_connection reply self_model = first.
Proof.
  unfold _check_ollama_connection, check_try.
  destruct reply as [msg | status_code body]; [left; reflexivity|].
  destruct (status_code =? 200)%Z eqn:Es; [|left; reflexivity].
  apply Z.eqb_eq in Es. subst status_code.
  destruct body as [v | msg]; [|left; reflexivity].
  destruct (get_models v) as [models | u] eqn:Eg; [|left; reflexivity].
  cbn [bind].
  destruct (iterate models) as [entries | pe] eqn:Ei; [|left; reflexivity].
  destruct (names_of entries) as [available | u] eqn:En; [|left; reflexivity].
  cbn [bind].
  destruct (any_in self_model available) as [found | u] eqn:Ea;
    [|left; reflexivity].
  cbn [bind].
  destruct found; [left; reflexivity|]. cbn [negb].
  destruct available as [|first rest]; [left; reflexivity|].
  right.
  destruct v as [| | | | |d]; try discriminate Eg.
  exists d, models, entries, first, rest. repeat split; assumption.
Qed.

(** X22: on an answer that lists models by name, the check compares by
    containment: the model is kept when it is a piece of the name of some
    listed model, also when no listed model has exactly that name, and it is
    kept when the list is empty; otherwise the first listed name is taken. *)
Theorem connection_check_on_listing (d : list (pystr * json))
  (entries : list json) (ns : list pystr) (self_model : pystr) :
  dict_get (cp "models") d = Some (JArr entries) ->
  Forall2 entry_named entries ns ->
  _check_ollama_connection (Responded 200 (Return (JObj d))) self_model =
    JStr (if existsb (contains self_model) ns then self_model
          else hd self_model ns).
Proof.
  intros Hd Hn.
  unfold _check_ollama_connection, check_try.
  cbn [Z.eqb Pos.eqb get_models]. rewrite Hd. cbn [bind iterate].
  rewrite (names_of_named entries ns Hn). cbn [bind].
  rewrite any_in_texts. cbn [bind].
  destruct (existsb (contains self_model) ns); [reflexivity|].
  cbn [negb]. destruct ns; reflexivity.
Qed.

Lemma connection_check_on_listing_witness :
  _check_ollama_connection
    (tags_listing [cp "mistral:7b"; cp "llama3.1:8b-instruct-q4_0"])
    (cp "llama3.1:8b") = JStr (cp "llama3.1:8b").
Proof.
  apply (connection_check_on_listing
           [(cp "models",
             JArr (map tags_entry [cp "mistral:7b"; cp "llama3.1:8b-instruct-q4_0"]))]
           (map tags_entry [cp "mistral:7b"; cp "llama3.1:8b-instruct-q4_0"])
           [cp "mistral:7b"; cp "llama3.1:8b-instruct-q4_0"]
           (cp "llama3.1:8b")).
  - reflexivity.
  - repeat constructor; eexists; split; reflexivity.
Defined.

(** The model of the service is replaced when no listed name holds it. *)
Example connection_check_switches :
  _check_ollama_connection (tags_listing [cp "mistral:7b"; cp "phi3"])
                           (cp "llama3.1:8b") = JStr (cp "mistral:7b") /\
  _check_ollama_connection (tags_listing []) (cp "llama3.1:8b")
    = JStr (cp "llama3.1:8b") /\
  _check_ollama_connection (PostRaises (cp "Connection refused"))
                           (cp "llama3.1:8b") = JStr (cp "llama3.1:8b").
Proof. repeat split; vm_compute; reflexivity. Qed.

(* ================================================================== *)
(** ** The transcription service *)
(* ================================================================== *)

Section SpeechFacts.

Import Speech.

Local Open Scope N_scope.

Lemma rfind_absent (c : N) (p : pystr) : ~ In c p -> rfind c p = (-1)%Z.
Proof.
  induction p as [|x r IH]; intro H; [reflexivity|].
  cbn [rfind]. rewrite IH by (intro; apply H; now right).
  cbn [Z.leb Z.compare].
  destruct (N.eqb_spec x c) as [->|]; [exfalso; apply H; now left | reflexivity].
Qed.

Lemma rfind_bounds (c : N) (p : pystr) :
  (-1 <= rfind c p < Z.of_nat (length p))%Z.
Proof.
  induction p as [|x r IH]; cbn [rfind length]; [lia|].
  destruct (0 <=? rfind c r)%Z eqn:E; [lia|].
  destruct (x =? c); lia.
Qed.

Lemma rfind_last (c : N) (a r : pystr) :
  ~ In c r -> rfind c (a ++ c :: r) = Z.of_nat (length a).
Proof.
  intro Hr. induction a as [|x a IH].
  - cbn [app rfind length]. rewrite (rfind_absent c r Hr).
    cbn [Z.leb Z.compare]. rewrite N.eqb_refl. reflexivity.
  - cbn [app rfind length]. rewrite IH.
    destruct (0 <=? Z.of_nat (length a))%Z eqn:E; [lia|].
    apply Z.leb_gt in E. lia.
Qed.

Lemma rfind_app_none (c : N) (a b : pystr) :
  ~ In c b -> rfind c (a ++ b) = rfind c a.
Proof.
  intro Hb. induction a as [|x a IH]; cbn [app]; [now apply rfind_absent|].
  cbn [rfind]. rewrite IH. reflexivity.
Qed.

Lemma slice_one (a : pystr) (c : N) (b : pystr) :
  slice (a ++ c :: b) (Z.of_nat (length a)) (Z.of_nat (length a) + 1) = [c].
Proof.
  unfold slice.
  replace (Z.to_nat (Z.of_nat (length a) + 1) - Z.to_nat (Z.of_nat (length a)))%nat
    with 1%nat by lia.
  rewrite Nat2Z.id, skipn_app, skipn_all, Nat.sub_diag. reflexivity.
Qed.

Lemma skip_dots_finds (p : pystr) (dotIndex k : Z) :
  pystr_eqb (slice p k (k + 1)) (cp ".") = false ->
  (k < dotIndex)%Z ->
  forall (fuel : nat) (filenameIndex : Z),
    (filenameIndex <= k)%Z ->
    (dotIndex - filenameIndex <= Z.of_nat fuel)%Z ->
    skip_dots fuel p filenameIndex dotIndex =
      (slice p 0 dotIndex, skipn (Z.to_nat dotIndex) p).
Proof.
  intros Hk Hlt. induction fuel as [|fuel IH]; intros i Hi Hf; [lia|].
  cbn [skip_dots].
  destruct (i <? dotIndex)%Z eqn:E; [|apply Z.ltb_ge in E; lia].
  destruct (pystr_eqb (slice p i (i + 1)) (cp ".")) eqn:Ed; [|reflexivity].
  cbn [negb]. apply IH; [|lia].
  destruct (Z.eq_dec i k) as [->|]; [congruence | lia].
Qed.

(** The extension of a path that ends with a character other than a dot and
    a slash, a dot, and characters without dot and slash. *)
Lemma splitext_extension (s0 : pystr) (c0 : N) (e : pystr) :
  c0 <> 46 -> c0 <> 47 -> ~ In 46 e -> ~ In 47 e ->
  splitext (s0 ++ c0 :: 46 :: e) = (s0 ++ [c0], 46 :: e).
Proof.
  intros H1 H2 H3 H4. unfold splitext.
  assert (Hp : s0 ++ c0 :: 46 :: e = (s0 ++ [c0]) ++ 46 :: e)
    by (now rewrite <- app_assoc).
  assert (Hdot : rfind 46 (s0 ++ c0 :: 46 :: e) = Z.of_nat (length (s0 ++ [c0]))).
  { rewrite Hp. now apply rfind_last. }
  assert (Hsep : rfind 47 (s0 ++ c0 :: 46 :: e) = rfind 47 s0).
  { apply rfind_app_none. intros [E|[E|E]]; [congruence | discriminate | tauto]. }
  rewrite Hdot, Hsep. rewrite length_app. cbn [length].
  pose proof (rfind_bounds 47 s0) as B.
  destruct (rfind 47 s0 <? Z.of_nat (length s0 + 1))%Z eqn:E;
    [|apply Z.ltb_ge in E; lia].
  rewrite (skip_dots_finds _ _ (Z.of_nat (length s0))).
  - unfold slice. f_equal.
    + rewrite Hp. cbn [Z.to_nat skipn]. rewrite Nat.sub_0_r, Nat2Z.id.
      replace (length s0 + 1)%nat with (length (s0 ++ [c0]))
        by (rewrite length_app; reflexivity).
      rewrite firstn_app, firstn_all, Nat.sub_diag. cbn [firstn].
      now rewrite app_nil_r.
    + rewrite Hp, Nat2Z.id.
      replace (length s0 + 1)%nat with (length (s0 ++ [c0]))
        by (rewrite length_app; reflexivity).
      rewrite skipn_app, skipn_all, Nat.sub_diag. reflexivity.
  - rewrite slice_one.
    destruct (pystr_eqb [c0] (cp ".")) eqn:Eq; [|reflexivity].
    apply pystr_eqb_eq in Eq. injection Eq as Eq. contradiction.
  - lia.
  - lia.
  - rewrite length_app. cbn [length]. lia.
Qed.

Lemma filter_absent (path : pystr) (files : list pystr) :
  exists_file path files = false ->
  filter (fun f => negb (pystr_eqb path f)) files = files.
Proof.
  unfold exists_file. induction files as [|f files IH]; [reflexivity|].
  cbn [existsb filter]. intro H. apply orb_false_iff in H as [H1 H2].
  rewrite H1. cbn [negb]. now rewrite IH.
Qed.

Lemma remove_written (se : speech_env) (path : pystr) (files : list pystr) :
  exists_file path files = false ->
  remove_failure se path = None ->
  os_remove se path (write_file path files) = (files, Return tt).
Proof.
  intros Hf Hr. unfold os_remove, write_file. rewrite Hf.
  unfold exists_file at 1. cbn [existsb]. rewrite pystr_eqb_refl. cbn [orb].
  rewrite Hr. cbn [filter]. rewrite pystr_eqb_refl. cbn [negb].
  now rewrite filter_absent.
Qed.

End SpeechFacts.

(** X23: an upload with a known extension is given to the speech model as
    it is.  For a path that ends with a character other than a dot and a
    slash, followed by one of the extensions [.wav], [.mp3], [.m4a] and
    [.flac] in capital or small letters, [transcribe_audio] converts
    nothing, writes and removes no file, and returns the text of the model
    without white space at its ends, or the error of the model after
    "Failed to transcribe audio: ". *)
Theorem known_extension_is_not_converted (se : Speech.speech_env)
  (s0 : pystr) (c0 : N) (e : pystr) (files : list pystr) :
  c0 <> 46%N -> c0 <> 47%N -> ~ In 46%N e -> ~ In 47%N e ->
  Speech.supported (lower (46%N :: e)) = true ->
  let audio_path := s0 ++ c0 :: 46%N :: e in
  Speech._prepare_audio se audio_path files = (files, audio_path) /\
  Speech.transcribe_audio se audio_path files =
    (files,
     match Speech.model_transcribe se audio_path with
     | Return text => Return (strip text)
     | Raise msg =>
         Raise (Exception (cp "Failed to transcribe audio: " ++ msg))
     end).
Proof.
  intros H1 H2 H3 H4 Hs audio_path.
  assert (Hp : Speech._prepare_audio se audio_path files = (files, audio_path)).
  { unfold Speech._prepare_audio, audio_path.
    rewrite splitext_extension by assumption. cbn [snd]. now rewrite Hs. }
  split; [exact Hp|].
  unfold Speech.transcribe_audio. rewrite Hp.
  destruct (Speech.model_transcribe se audio_path); [|reflexivity].
  now rewrite pystr_eqb_refl.
Qed.

Lemma known_extension_is_not_converted_witness :
  Speech.transcribe_audio Speech.hearing_model
    (cp "uploads/20240106_090000_standup.MP3") [cp "uploads/20240106_090000_standup.MP3"] =
    ([cp "uploads/20240106_090000_standup.MP3"], Return (cp "Hello everyone.")).
Proof.
  apply (known_extension_is_not_converted Speech.hearing_model
           (cp "uploads/20240106_090000_standu") 112%N (cp "MP3")
           [cp "uploads/20240106_090000_standup.MP3"]).
  - discriminate.
  - discriminate.
  - vm_compute. intuition discriminate.
  - vm_compute. intuition discriminate.
  - vm_compute. reflexivity.
Defined.

(** X24: the temporary file of a conversion is removed only when the speech
    model succeeds.  For a path without a known extension that was converted
    to a new temporary file: when the model fails, the error is re-raised
    with its prefix and the temporary file is left behind; when the model
    succeeds, the file is removed and the stripped text returned; when the
    removal fails, the text is lost and the error of the removal is raised,
    the file being left.  When the conversion fails, the model is given the
    upload itself and no file is removed. *)
Theorem temporary_file_left_on_failure (se : Speech.speech_env)
  (audio_path : pystr) (files : list pystr) :
  Speech.supported (lower (snd (Speech.splitext audio_path))) = false ->
  (forall temp_path,
      Speech.convert se audio_path = Speech.Converted temp_path ->
      temp_path <> audio_path ->
      Speech.exists_file temp_path files = false ->
      (forall msg,
          Speech.model_transcribe se temp_path = Raise msg ->
          Speech.transcribe_audio se audio_path files =
            (temp_path :: files, Raise (Speech.transcription_failed msg))) /\
      (forall text,
          Speech.model_transcribe se temp_path = Return text ->
          Speech.remove_failure se temp_path = None ->
          Speech.transcribe_audio se audio_path files =
            (files, Return (strip text))) /\
      (forall text msg,
          Speech.model_transcribe se temp_path = Return text ->
          Speech.remove_failure se temp_path = Some msg ->
          Speech.transcribe_audio se audio_path files =
            (temp_path :: files, Raise (Speech.transcription_failed msg)))) /\
  (Speech.convert se audio_path = Speech.ConversionFailed None ->
   Speech.transcribe_audio se audio_path files =
     (files,
      match Speech.model_transcribe se audio_path with
      | Return text => Return (strip text)
      | Raise msg => Raise (Speech.transcription_failed msg)
      end)).
Proof.
  intro Hs. split.
  - intros temp_path Hc Hne Hf.
    assert (Hp : Speech._prepare_audio se audio_path files =
                 (temp_path :: files, temp_path)).
    { unfold Speech._prepare_audio. rewrite Hs, Hc.
      unfold Speech.write_file. now rewrite Hf. }
    assert (Hneq : pystr_eqb temp_path audio_path = false).
    { destruct (pystr_eqb temp_path audio_path) eqn:E; [|reflexivity].
      apply pystr_eqb_eq in E. contradiction. }
    split; [|split].
    + intros msg Hm. unfold Speech.transcribe_audio. rewrite Hp, Hm.
      reflexivity.
    + intros text Hm Hr. unfold Speech.transcribe_audio.
      rewrite Hp, Hm, Hneq. cbn [negb].
      pose proof (remove_written se temp_path files Hf Hr) as R.
      unfold Speech.write_file in R. rewrite Hf in R. rewrite R. reflexivity.
    + intros text msg Hm Hr. unfold Speech.transcribe_audio.
      rewrite Hp, Hm, Hneq. cbn [negb].
      unfold Speech.os_remove, Speech.exists_file. cbn [existsb].
      rewrite pystr_eqb_refl. cbn [orb]. rewrite Hr. reflexivity.
  - intro Hc. unfold Speech.transcribe_audio, Speech._prepare_audio.
    rewrite Hs, Hc.
    destruct (Speech.model_transcribe se audio_path); [|reflexivity].
    now rewrite pystr_eqb_refl.
Qed.

Lemma temporary_file_left_on_failure_witness :
  Speech.transcribe_audio Speech.failing_model
    (cp "uploads/20240106_090000_standup.ogg")
    [cp "uploads/20240106_090000_standup.ogg"] =
    ([cp "/tmp/tmpab12.wav"; cp "uploads/20240106_090000_standup.ogg"],
     Raise (Exception (cp "Failed to transcribe audio: out of memory"))).
Proof.
  refine (proj1 (proj1 (temporary_file_left_on_failure Speech.failing_model
                   (cp "uploads/20240106_090000_standup.ogg")
                   [cp "uploads/20240106_090000_standup.ogg"] _)
                 (cp "/tmp/tmpab12.wav") _ _ _) (cp "out of memory") _).
  - vm_compute. reflexivity.
  - reflexivity.
  - discriminate.
  - vm_compute. reflexivity.
  - reflexivity.
Defined.

(** X25: whatever the libraries do, [transcribe_audio] returns a text
    without white space at its ends, or raises an error that starts with
    "Failed to transcribe audio: "; it never removes the upload itself nor
    any file that was there before, apart from the path that the conversion
    returned. *)
Theorem transcribe_audio_outcomes (se : Speech.speech_env)
  (audio_path : pystr) (files : list pystr) :
  let out := Speech.transcribe_audio se audio_path files in
  (forall text, snd out = Return text -> stripped text) /\
  (forall err, snd out = Raise err ->
     startswith (cp "Failed to transcribe audio: ") (str_of_exn err) = true) /\
  (forall f, In f files ->
     In f (fst out) \/
     (Speech.convert se audio_path = Speech.Converted f /\ f <> audio_path)).
Proof.
  assert (Hpre : forall msg,
             startswith (cp "Failed to transcribe audio: ")
               (str_of_exn (Speech.transcription_failed msg)) = true).
  { intro msg. apply startswith_spec. exists msg. reflexivity. }
  assert (Hfilter : forall (path f : pystr) (l : list pystr),
             In f l -> f <> path ->
             In f (filter (fun g => negb (pystr_eqb path g)) l)).
  { intros path f l Hin Hne. apply filter_In. split; [exact Hin|].
    destruct (pystr_eqb path f) eqn:E; [|reflexivity].
    apply pystr_eqb_eq in E. congruence. }
  assert (Hwrite : forall (path f : pystr) (l : list pystr),
             In f l -> In f (Speech.write_file path l)).
  { intros path f l Hin. unfold Speech.write_file.
    destruct (Speech.exists_file path l); [exact Hin | now right]. }
  unfold Speech.transcribe_audio, Speech._prepare_audio.
  destruct (Speech.supported (lower (snd (Speech.splitext audio_path)))).
  - destruct (Speech.model_transcribe se audio_path) as [text | msg].
    + rewrite pystr_eqb_refl. cbn [negb fst snd].
      split; [|split].
      * intros t [= <-]. apply strip_stripped.
      * discriminate.
      * intros f Hf. now left.
    + cbn [fst snd]. split; [|split].
      * discriminate.
      * intros err [= <-]. apply Hpre.
      * intros f Hf. now left.
  - destruct (Speech.convert se audio_path) as [temp_path | [path|]] eqn:Hc.
    + destruct (Speech.model_transcribe se temp_path) as [text | msg].
      * destruct (pystr_eqb temp_path audio_path) eqn:En; cbn [negb].
        { cbn [fst snd]. split; [|split].
          - intros t [= <-]. apply strip_stripped.
          - discriminate.
          - intros f Hf. left. now apply Hwrite. }
        assert (Hne : temp_path <> audio_path).
        { intro E. apply pystr_eqb_eq in E. congruence. }
        unfold Speech.os_remove.
        destruct (Speech.exists_file temp_path
                    (Speech.write_file temp_path files)).
        -- destruct (Speech.remove_failure se temp_path) as [msg|];
             cbn [fst snd]; (split; [|split]).
           ++ discriminate.
           ++ intros err [= <-]. apply Hpre.
           ++ intros f Hf. left. now apply Hwrite.
           ++ intros t [= <-]. apply strip_stripped.
           ++ discriminate.
           ++ intros f Hf.
              destruct (list_eq_dec N.eq_dec f temp_path) as [->|Hd].
              ** right. now split.
              ** left. apply Hfilter; [now apply Hwrite | exact Hd].
        -- cbn [fst snd]. split; [|split].
           ++ discriminate.
           ++ intros err [= <-]. apply Hpre.
           ++ intros f Hf. left. now apply Hwrite.
      * cbn [fst snd]. split; [|split].
        -- discriminate.
        -- intros err [= <-]. apply Hpre.
        -- intros f Hf. left. now apply Hwrite.
    + destruct (Speech.model_transcribe se audio_path) as [text | msg].
      * rewrite pystr_eqb_refl. cbn [negb fst snd]. split; [|split].
        -- intros t [= <-]. apply strip_stripped.
        -- discriminate.
        -- intros f Hf. left. now apply Hwrite.
      * cbn [fst snd]. split; [|split].
        -- discriminate.
        -- intros err [= <-]. apply Hpre.
        -- intros f Hf. left. now apply Hwrite.
    + destruct (Speech.model_transcribe se audio_path) as [text | msg].
      * rewrite pystr_eqb_refl. cbn [negb fst snd]. split; [|split].
        -- intros t [= <-]. apply strip_stripped.
        -- discriminate.
        -- intros f Hf. now left.
      * cbn [fst snd]. split; [|split].
        -- discriminate.
        -- intros err [= <-]. apply Hpre.
        -- intros f Hf. now left.
Qed.

(* ================================================================== *)
(** ** The calendar service and its route *)
(* ================================================================== *)

Section CalendarFacts.

Import Calendar.

Local Open Scope Z_scope.

(** [authenticate] inserts no event; when it returns [True] the service is
    set, and otherwise the service is as it was. *)
Lemma authenticate_effect (ce : calendar_env) (c : calendar) :
  events (fst (authenticate ce c)) = events c /\
  (snd (authenticate ce c) = Return true ->
   service_built (fst (authenticate ce c)) = true) /\
  (snd (authenticate ce c) <> Return true ->
   service_built (fst (authenticate ce c)) = service_built c).
Proof.
  unfold authenticate.
  destruct (obtain_credentials ce) as [[| |]|msg]; cbn [fst snd];
    try (split; [reflexivity | split; [discriminate | reflexivity]]).
  - destruct (build_error ce); cbn [fst snd events service_built].
    + split; [reflexivity | split; [discriminate | reflexivity]].
    + split; [reflexivity | split; [reflexivity | congruence]].
  - destruct (token_write_error ce); cbn [fst snd].
    + split; [reflexivity | split; [discriminate | reflexivity]].
    + destruct (build_error ce); cbn [fst snd events service_built].
      * split; [reflexivity | split; [discriminate | reflexivity]].
      * split; [reflexivity | split; [reflexivity | congruence]].
Qed.

(** What [create_try] does to the calendar. *)
Lemma create_try_effect (ce : calendar_env) (action_item : option action_item_row)
  (c : calendar) :
  match create_try ce action_item c with
  | (c2, Raise _) => c2 = c
  | (c2, Return created) =>
      exists item due_date,
        action_item = Some item /\
        _parse_due_date ce (ai_due_date item) = Return due_date /\
        datetime_add due_date (timedelta_hours 1) =
          Return (due_date + timedelta_hours 1) /\
        insert ce (event_of ce item due_date (due_date + timedelta_hours 1)) =
          Inserted created /\
        c2 = mk_calendar (service_built c) (token_written c)
               (events c ++
                [event_of ce item due_date (due_date + timedelta_hours 1)])
  end.
Proof.
  unfold create_try. destruct action_item as [item|]; [|reflexivity].
  destruct (_parse_due_date ce (ai_due_date item)) as [due_date|msg] eqn:Ed;
    [|reflexivity].
  destruct (datetime_add due_date (timedelta_hours 1)) as [end_date|msg] eqn:Ee;
    [|reflexivity].
  assert (Hend : end_date = due_date + timedelta_hours 1).
  { unfold datetime_add in Ee.
    destruct ((0 <=? due_date + timedelta_hours 1)
              && (due_date + timedelta_hours 1 <=? datetime_max));
      congruence. }
  subst end_date.
  destruct (insert ce _) as [created|error|error] eqn:Ei;
    [|reflexivity|reflexivity].
  exists item, due_date. repeat split; assumption.
Qed.

(** The events that a call of [create_event] adds: none, or one. *)
Lemma create_event_adds (ce : calendar_env) (action_item : option action_item_row)
  (c : calendar) :
  match create_event ce action_item c with
  | (c1, Raise _) => events c1 = events c
  | (c1, Return _) =>
      (exists ev, events c1 = events c ++ [ev]) /\
      exists row, action_item = Some row
  end.
Proof.
  unfold create_event.
  pose proof (authenticate_effect ce c) as (He & _ & _).
  destruct (service_built c).
  - pose proof (create_try_effect ce action_item c) as T.
    destruct (create_try ce action_item c) as [c2 [created|[error|error]]];
      try (subst c2; reflexivity).
    destruct T as (item & due_date & -> & _ & _ & _ & ->).
    split; [eexists; reflexivity | eexists; reflexivity].
  - destruct (authenticate ce c) as [c1 [[|]|msg]]; cbn [fst] in He;
      try exact He.
    pose proof (create_try_effect ce action_item c1) as T.
    destruct (create_try ce action_item c1) as [c2 [created|[error|error]]];
      try (subst c2; exact He).
    destruct T as (item & due_date & -> & _ & _ & _ & ->).
    cbn [events]. rewrite He.
    split; [eexists; reflexivity | eexists; reflexivity].
Qed.

Lemma add_events_effect (envs : nat -> calendar_env) (w : world)
  (selected_items : list Z) :
  forall (n : nat) (results : list calendar_result) (c : calendar),
  exists added,
    events (fst (add_events envs n selected_items w results c)) =
      events c ++ added /\
    match snd (add_events envs n selected_items w results c) with
    | Return out =>
        map item_id out = map item_id results ++ selected_items /\
        length out = (length results + length selected_items)%nat /\
        length added = length selected_items /\
        Forall (fun id => exists row, In row (action_items w) /\ ai_id row = id)
               selected_items
    | Raise _ => (length added < length selected_items)%nat
    end.
Proof.
  induction selected_items as [|id rest IH]; intros n results c.
  - exists []. cbn [add_events fst snd length]. rewrite !app_nil_r.
    repeat split; try lia. constructor.
  - cbn [add_events].
    destruct (ActionItem_get_by_id (item_query_error (envs n)) id w)
      as [action_item|e] eqn:Eg.
    2:{ exists []. cbn [fst snd length]. rewrite app_nil_r. split; [reflexivity | lia]. }
    pose proof (create_event_adds (envs n) action_item c) as A.
    destruct (create_event (envs n) action_item c) as [c1 [calendar_event|e]].
    2:{ exists []. cbn [fst snd length]. rewrite app_nil_r. split; [now rewrite A | lia]. }
    destruct A as ((ev & Hev) & (row & ->)).
    destruct (IH (S n) (results ++ [mk_calendar_result id (ce_id calendar_event)]) c1)
      as (added & Ha & Hr).
    exists (ev :: added). split.
    + rewrite Ha, Hev, <- app_assoc. reflexivity.
    + destruct (snd (add_events envs (S n) rest w
                       (results ++ [mk_calendar_result id (ce_id calendar_event)]) c1))
        as [out|e].
      * destruct Hr as (Hm & Hl & Hla & Hf).
        rewrite Hm, Hl, map_app, length_app. cbn [map length item_id].
        rewrite <- app_assoc. cbn [app].
        repeat split; try lia.
        constructor; [|exact Hf].
        exists row. unfold ActionItem_get_by_id in Eg.
        destruct (item_query_error (envs n)); [discriminate|].
        injection Eg as Eg. apply find_some in Eg as [Hin Hid].
        apply Z.eqb_eq in Hid. now split.
      * cbn [length]. lia.
Qed.

End CalendarFacts.

(** X26: [create_event] inserts at most one event, and none when it raises.
    When it returns, the service is set, the item exists, and the event that
    was inserted starts at the parsed due date and ends one hour later.  An
    item that does not exist is reported, once the service is set, as
    "Calendar integration failed: 'NoneType' object has no attribute 'get'";
    without a usable token and without the file of the credentials the error
    is "Calendar authentication failed", with no prefix.  Every other error
    of the body starts with "Failed to create calendar event: " or with
    "Calendar integration failed: ". *)
Theorem create_event_outcomes (ce : Calendar.calendar_env)
  (action_item : option action_item_row) (c : Calendar.calendar) :
  let out := Calendar.create_event ce action_item c in
  (forall e, snd out = Raise e ->
     Calendar.events (fst out) = Calendar.events c) /\
  (forall created, snd out = Return created ->
     Calendar.service_built (fst out) = true /\
     exists item due_date,
       action_item = Some item /\
       Calendar._parse_due_date ce (ai_due_date item) = Return due_date /\
       Calendar.insert ce
         (Calendar.event_of ce item due_date
            (due_date + Calendar.timedelta_hours 1)) = Calendar.Inserted created /\
       Calendar.events (fst out) =
         Calendar.events c ++
         [Calendar.event_of ce item due_date
            (due_date + Calendar.timedelta_hours 1)]) /\
  (Calendar.service_built c = true -> action_item = None ->
   out = (c, Raise (Exception
                      (cp "Calendar integration failed: 'NoneType' object has no attribute 'get'")))) /\
  (Calendar.service_built c = false ->
   Calendar.obtain_credentials ce = Return Calendar.NoCredentials ->
   out = (c, Raise (Exception (cp "Calendar authentication failed")))) /\
  (Calendar.service_built c = true ->
   forall e, snd out = Raise e ->
     startswith (cp "Failed to create calendar event: ") (str_of_exn e) = true \/
     startswith (cp "Calendar integration failed: ") (str_of_exn e) = true).
Proof.
  intro out. subst out.
  split; [|split; [|split; [|split]]].
  - intros e He.
    pose proof (create_event_adds ce action_item c) as A.
    destruct (Calendar.create_event ce action_item c) as [c1 [created|e']];
      [discriminate | exact A].
  - intros created Hc. unfold Calendar.create_event in *.
    pose proof (authenticate_effect ce c) as (He & Ht & _).
    destruct (Calendar.service_built c) eqn:Es.
    + pose proof (create_try_effect ce action_item c) as T.
      destruct (Calendar.create_try ce action_item c) as [c2 [cr|[error|error]]];
        try discriminate Hc.
      cbn [snd] in Hc. injection Hc as ->.
      destruct T as (item & due_date & -> & Hd & _ & Hi & ->).
      cbn [fst Calendar.service_built Calendar.events].
      split; [exact Es|]. exists item, due_date. repeat split; assumption.
    + destruct (Calendar.authenticate ce c) as [c1 [[|]|msg]];
        try discriminate Hc.
      cbn [fst snd] in He, Ht.
      pose proof (create_try_effect ce action_item c1) as T.
      destruct (Calendar.create_try ce action_item c1) as [c2 [cr|[error|error]]];
        try discriminate Hc.
      cbn [snd] in Hc. injection Hc as ->.
      destruct T as (item & due_date & -> & Hd & _ & Hi & ->).
      cbn [fst Calendar.service_built Calendar.events].
      split; [now apply Ht|]. exists item, due_date.
      rewrite He. repeat split; assumption.
  - intros Hs ->. unfold Calendar.create_event. rewrite Hs. reflexivity.
  - intros Hs Ho. unfold Calendar.create_event, Calendar.authenticate.
    rewrite Hs, Ho. reflexivity.
  - intros Hs e. unfold Calendar.create_event. rewrite Hs.
    destruct (Calendar.create_try ce action_item c) as [c2 [cr|[error|error]]];
      cbn [snd]; intros [= <-].
    + left. apply startswith_spec. eexists. reflexivity.
    + right. apply startswith_spec. eexists. reflexivity.
Qed.

(** X27: the event of an item without a due date.  For an item whose due
    date is empty or "No due date specified", as every item of the fallback
    extractor has it, the event starts seven days after the time of the call
    and ends one hour later; its title is "Action Item: ", the first 50
    characters of the description and three dots, also when the description
    is shorter; and the assignee is invited exactly when the name holds an
    [@]. *)
Theorem event_of_item_without_date (ce : Calendar.calendar_env)
  (item : action_item_row) (c : Calendar.calendar)
  (created : Calendar.created_event) :
  Calendar.service_built c = true ->
  ai_due_date item = [] \/ ai_due_date item = cp "No due date specified" ->
  (0 <= Calendar.now ce <= Calendar.datetime_max - 608400000000)%Z ->
  Calendar.insert ce
    (Calendar.event_of ce item (Calendar.now ce + 604800000000)
                       (Calendar.now ce + 608400000000)) =
    Calendar.Inserted created ->
  exists ev,
    Calendar.create_event ce (Some item) c =
      (Calendar.mk_calendar true (Calendar.token_written c)
         (Calendar.events c ++ [ev]), Return created) /\
    Calendar.ev_start ev = Calendar.isoformat ce (Calendar.now ce + 604800000000)%Z /\
    Calendar.ev_end ev = Calendar.isoformat ce (Calendar.now ce + 608400000000)%Z /\
    Calendar.ev_summary ev =
      cp "Action Item: " ++ firstn 50 (ai_description item) ++ cp "..." /\
    (length (Calendar.ev_summary ev) <= 66)%nat /\
    (Calendar.ev_attendees ev = Some [ai_assignee item] <->
     contains (cp "@") (ai_assignee item) = true) /\
    (Calendar.ev_attendees ev = None <->
     contains (cp "@") (ai_assignee item) = false).
Proof.
  intros Hs Hd Hn Hi.
  assert (Hp : Calendar._parse_due_date ce (ai_due_date item) =
               Return (Calendar.now ce + 604800000000)%Z).
  { unfold Calendar._parse_due_date.
    assert (Ht : (negb (truthy (ai_due_date item))
                  || pystr_eqb (ai_due_date item) (cp "No due date specified"))
                 = true).
    { destruct Hd as [-> | ->]; [reflexivity|].
      rewrite pystr_eqb_refl. apply orb_true_r. }
    rewrite Ht. unfold Calendar.datetime_add, Calendar.timedelta_days.
    change (7 * 86400000000)%Z with 604800000000%Z.
    unfold Calendar.datetime_max in *.
    destruct (0 <=? Calendar.now ce + 604800000000)%Z eqn:E1; [|lia].
    destruct (Calendar.now ce + 604800000000 <=? 315537897599999999)%Z eqn:E2;
      [reflexivity | lia]. }
  assert (He : Calendar.datetime_add (Calendar.now ce + 604800000000)
                 (Calendar.timedelta_hours 1) =
               Return (Calendar.now ce + 608400000000)%Z).
  { unfold Calendar.datetime_add, Calendar.timedelta_hours.
    change (1 * 3600000000)%Z with 3600000000%Z.
    unfold Calendar.datetime_max in *.
    replace (Calendar.now ce + 604800000000 + 3600000000)%Z
      with (Calendar.now ce + 608400000000)%Z by lia.
    destruct (0 <=? Calendar.now ce + 608400000000)%Z eqn:E1; [|lia].
    destruct (Calendar.now ce + 608400000000 <=? 315537897599999999)%Z eqn:E2;
      [reflexivity | lia]. }
  eexists. split.
  - unfold Calendar.create_event, Calendar.create_try.
    rewrite Hs, Hp, He, Hi. cbn [Calendar.service_built Calendar.token_written].
    rewrite Hs. reflexivity.
  - cbn [Calendar.event_of Calendar.ev_start Calendar.ev_end
         Calendar.ev_summary Calendar.ev_attendees].
    split; [reflexivity|]. split; [reflexivity|]. split; [reflexivity|].
    split.
    + rewrite !length_app.
      pose proof (firstn_le_length 50 (ai_description item)) as L.
      change (length (cp "Action Item: ")) with 13%nat.
      change (length (cp "...")) with 3%nat. lia.
    + assert (Htr : contains (cp "@") (ai_assignee item) = true ->
                    truthy (ai_assignee item) = true).
      { destruct (ai_assignee item); [discriminate | reflexivity]. }
      destruct (contains (cp "@") (ai_assignee item)) eqn:Ec.
      * rewrite Htr by reflexivity. cbn [andb].
        split; split; intro H; (reflexivity || discriminate).
      * rewrite andb_false_r.
        split; split; intro H; (reflexivity || discriminate).
Qed.

Lemma event_of_item_without_date_witness :
  exists ev,
    Calendar.create_event Calendar.accepting_calendar
      (Some (mk_action_item_row 1 1 (cp "Call Bob about the contract")
               (cp "Unassigned") (cp "No due date specified") (cp "Medium")
               false (cp "2024-01-05T10:00:00")))
      (Calendar.mk_calendar true false []) =
      (Calendar.mk_calendar true false [ev],
       Return (Calendar.mk_created (cp "evt1") (cp "https://calendar/evt1")
                 (cp "Action Item: Call Bob about the contract...")
                 (str_of_Z 63840733200000000))) /\
    Calendar.ev_attendees ev = None.
Proof.
  destruct (event_of_item_without_date Calendar.accepting_calendar
              (mk_action_item_row 1 1 (cp "Call Bob about the contract")
                 (cp "Unassigned") (cp "No due date specified") (cp "Medium")
                 false (cp "2024-01-05T10:00:00"))
              (Calendar.mk_calendar true false [])
              (Calendar.mk_created (cp "evt1") (cp "https://calendar/evt1")
                 (cp "Action Item: Call Bob about the contract...")
                 (str_of_Z 63840733200000000)))
    as (ev & H1 & _ & _ & _ & _ & _ & H7).
  - reflexivity.
  - right. reflexivity.
  - vm_compute. split; discriminate.
  - vm_compute. reflexivity.
  - exists ev. split.
    + exact H1.
    + apply H7. vm_compute. reflexivity.
Defined.

(** X28: the route answers for the whole request, but the calendar keeps
    what was done.  An answer with results has one entry for each selected
    id, in the order of the request, every id is the id of a row, and one
    event was inserted for each; a selected id that is repeated gives two
    events.  An answer with an error has status 500, and the events of the
    items before the failing one, fewer than the ids selected, stay in the
    calendar; no event that was there before is removed in either case. *)
Theorem calendar_integration_keeps_earlier_events
  (envs : nat -> Calendar.calendar_env) (action_items : option (list Z))
  (w : world) (c : Calendar.calendar) :
  let selected_items := match action_items with Some ids => ids | None => [] end in
  let out := Calendar.calendar_integration envs action_items w c in
  exists added,
    Calendar.events (fst out) = Calendar.events c ++ added /\
    match snd out with
    | Calendar.CalendarSuccess results =>
        map Calendar.item_id results = selected_items /\
        length added = length selected_items /\
        Forall (fun id => exists row, In row (App.action_items w) /\ ai_id row = id)
               selected_items
    | Calendar.CalendarError _ status =>
        status = 500%Z /\ (length added < length selected_items)%nat
    end.
Proof.
  intros selected_items out. subst out. unfold Calendar.calendar_integration.
  fold selected_items.
  destruct (add_events_effect envs w selected_items 0 [] c) as (added & Ha & Hr).
  exists added.
  destruct (Calendar.add_events envs 0 selected_items w [] c) as [c1 [results|e]];
    cbn [fst snd] in *.
  - destruct Hr as (Hm & _ & Hl & Hf). split; [exact Ha|]. now repeat split.
  - split; [exact Ha|]. split; [reflexivity | exact Hr].
Qed.

(** Two items are selected and the API refuses the second event: the answer
    is the error alone, and the first event is in the calendar. *)
Example second_event_refused :
  let w := mk_world [] [] 0 three_priorities 3 answering_backend in
  let out := Calendar.calendar_integration Calendar.refusing_after_one
               (Some [1; 2]%Z) w Calendar.new_calendar in
  snd out = Calendar.CalendarError
              (cp "Failed to create calendar event: <HttpError 403 Forbidden>") 500 /\
  map Calendar.ev_summary (Calendar.events (fst out)) =
    [cp "Action Item: Fix outage..."].
Proof. vm_compute. split; reflexivity. Qed.

(* ================================================================== *)
(** ** The clean-up of the temporary files *)
(* ================================================================== *)

Section CleanupFacts.

Import TempFiles.

Local Open Scope N_scope.

Lemma in_dir_In (f : pystr) (dir : list pystr) : in_dir f dir = true <-> In f dir.
Proof.
  unfold in_dir. rewrite existsb_exists. split.
  - intros (x & Hx & E). apply pystr_eqb_eq in E. now subst.
  - intro H. exists f. split; [exact H | apply pystr_eqb_refl].
Qed.

Lemma in_remove_filter (filename f : pystr) (dir : list pystr) :
  In f (filter (fun g => negb (pystr_eqb filename g)) dir) <->
  In f dir /\ f <> filename.
Proof.
  rewrite filter_In. split; intros [H1 H2]; split; try exact H1.
  - intros ->. now rewrite pystr_eqb_refl in H2.
  - destruct (pystr_eqb filename f) eqn:E; [|reflexivity].
    apply pystr_eqb_eq in E. congruence.
Qed.

(** The loop removes only files that it was asked to look at, whose names
    start with [meeting_], that are old, and whose removal did not fail;
    and it adds nothing. *)
Lemma cleanup_loop_removes (ce : cleanup_env) (names : list pystr) :
  forall dir f,
    (In f (cleanup_loop ce names dir) -> In f dir) /\
    (In f dir -> ~ In f (cleanup_loop ce names dir) ->
     In f names /\
     startswith (cp "meeting_") f = true /\
     too_old ce f = Return true /\
     remove_error ce f = None).
Proof.
  induction names as [|filename rest IH]; intros dir f; cbn [cleanup_loop].
  - split; [tauto | intros H1 H2; contradiction].
  - destruct (startswith (cp "meeting_") filename) eqn:Ep.
    2:{ destruct (IH dir f) as [A B]. split; [exact A|].
        intros H1 H2. destruct (B H1 H2) as (B1 & B2). split; [now right | exact B2]. }
    destruct (too_old ce filename) as [[|]|msg] eqn:Eo.
    + unfold os_remove. destruct (in_dir filename dir) eqn:Ei.
      * destruct (remove_error ce filename) as [msg|] eqn:Er.
        { split; [tauto | intros H1 H2; contradiction]. }
        destruct (IH (filter (fun g => negb (pystr_eqb filename g)) dir) f)
          as [A B].
        split.
        -- intro H. apply A in H. apply in_remove_filter in H. tauto.
        -- intros H1 H2.
           destruct (list_eq_dec N.eq_dec f filename) as [->|Hne].
           ++ split; [now left | now repeat split].
           ++ destruct (B (proj2 (in_remove_filter filename f dir)
                                 (conj H1 Hne)) H2) as (B1 & B2).
              split; [now right | exact B2].
      * split; [tauto | intros H1 H2; contradiction].
    + destruct (IH dir f) as [A B]. split; [exact A|].
      intros H1 H2. destruct (B H1 H2) as (B1 & B2). split; [now right | exact B2].
    + split; [tauto | intros H1 H2; contradiction].
Qed.

Lemma filter_ext_in_bool {A : Type} (f g : A -> bool) (l : list A) :
  (forall x, In x l -> f x = g x) -> filter f l = filter g l.
Proof.
  induction l as [|x l IH]; intro H; [reflexivity|].
  cbn [filter]. rewrite (H x) by now left.
  rewrite IH by (intros y Hy; apply H; now right). reflexivity.
Qed.

Lemma filter_filter_bool {A : Type} (f g : A -> bool) (l : list A) :
  filter f (filter g l) = filter (fun x => g x && f x) l.
Proof.
  induction l as [|x l IH]; [reflexivity|].
  cbn [filter]. destruct (g x); cbn [andb filter]; rewrite IH; reflexivity.
Qed.

Lemma nodup_app_disjoint {A : Type} (l1 l2 : list A) (x : A) :
  NoDup (l1 ++ l2) -> In x l1 -> In x l2 -> False.
Proof.
  induction l1 as [|a l1 IH]; cbn [app]; intros H H1 H2; [contradiction|].
  inversion H as [|y l Hy Hl E]; subst y l.
  destruct H1 as [->|H1].
  - apply Hy. apply in_or_app. now right.
  - now apply IH.
Qed.

Lemma filter_all {A : Type} (f : A -> bool) (l : list A) :
  (forall x, In x l -> f x = true) -> filter f l = l.
Proof.
  induction l as [|x l IH]; intro H; [reflexivity|].
  cbn [filter]. rewrite (H x) by now left.
  rewrite IH by (intros y Hy; apply H; now right). reflexivity.
Qed.

(** A failure of [getctime] on the file [f] ends the loop: a file that is
    not among the names in front of [f] stays. *)
Lemma cleanup_loop_stops (ce : cleanup_env) (f msg g : pystr)
  (rest : list pystr) :
  startswith (cp "meeting_") f = true ->
  too_old ce f = Raise msg ->
  forall earlier dir,
    In g dir -> ~ In g earlier ->
    In g (cleanup_loop ce (earlier ++ f :: rest) dir).
Proof.
  intros Hp Ho. induction earlier as [|b earlier IH]; intros dir Hd Hb.
  - cbn [app cleanup_loop]. now rewrite Hp, Ho.
  - cbn [app cleanup_loop].
    assert (Hne : g <> b) by (intros ->; apply Hb; now left).
    assert (Hb' : ~ In g earlier) by (intro; apply Hb; now right).
    destruct (startswith (cp "meeting_") b); [|now apply IH].
    destruct (too_old ce b) as [[|]|m]; [|now apply IH|exact Hd].
    unfold os_remove. destruct (in_dir b dir); [|exact Hd].
    destruct (remove_error ce b); [exact Hd|].
    apply IH; [|exact Hb']. apply in_remove_filter. now split.
Qed.

(** Without a failure the loop removes, among the names that it looks at,
    those that a complete clean-up does not keep. *)
Lemma cleanup_loop_complete (ce : cleanup_env) (names : list pystr) :
  forall dir,
    NoDup names ->
    (forall f, In f names -> In f dir) ->
    (forall f, In f names -> startswith (cp "meeting_") f = true ->
               no_failure ce f) ->
    cleanup_loop ce names dir =
      filter (fun f => negb (in_dir f names) || kept ce f) dir.
Proof.
  induction names as [|filename rest IH]; intros dir Hnd Hin Hok;
    cbn [cleanup_loop].
  - symmetry. apply filter_all. intros f _. reflexivity.
  - inversion Hnd as [|x l Hx Hnd' E]; subst x l.
    assert (Hrest : forall f, f <> filename ->
              in_dir f (filename :: rest) = in_dir f rest).
    { intros f Hf. unfold in_dir. cbn [existsb].
      destruct (pystr_eqb f filename) eqn:E; [|reflexivity].
      apply pystr_eqb_eq in E. contradiction. }
    assert (Hhead : in_dir filename (filename :: rest) = true).
    { unfold in_dir. cbn [existsb]. now rewrite pystr_eqb_refl. }
    assert (Hkeep : kept ce filename = true ->
              filter (fun f => negb (in_dir f rest) || kept ce f) dir =
              filter (fun f => negb (in_dir f (filename :: rest)) || kept ce f) dir).
    { intro Hk. apply filter_ext_in_bool. intros f Hf.
      destruct (list_eq_dec N.eq_dec f filename) as [->|Hne].
      - rewrite Hk, !orb_true_r. reflexivity.
      - now rewrite Hrest. }
    destruct (startswith (cp "meeting_") filename) eqn:Ep.
    2:{ rewrite IH; [|exact Hnd'|intros f Hf; apply Hin; now right
                     |intros f Hf; apply Hok; now right].
        apply Hkeep. unfold kept. now rewrite Ep. }
    destruct (Hok filename (or_introl eq_refl) Ep) as ((old & Ho) & Hr).
    rewrite Ho. destruct old.
    + unfold os_remove.
      rewrite (proj2 (in_dir_In filename dir) (Hin filename (or_introl eq_refl))).
      rewrite Hr.
      rewrite IH; [|exact Hnd'| |intros f Hf; apply Hok; now right].
      * rewrite filter_filter_bool. apply filter_ext_in_bool. intros f Hf.
        destruct (list_eq_dec N.eq_dec f filename) as [->|Hne].
        -- rewrite pystr_eqb_refl, Hhead. cbn [negb andb orb].
           unfold kept. rewrite Ep, Ho. reflexivity.
        -- rewrite (Hrest f Hne).
           destruct (pystr_eqb filename f) eqn:E;
             [apply pystr_eqb_eq in E; congruence | reflexivity].
      * intros f Hf. apply in_remove_filter. split; [apply Hin; now right|].
        intros ->. contradiction.
    + rewrite IH; [|exact Hnd'|intros f Hf; apply Hin; now right
                   |intros f Hf; apply Hok; now right].
      apply Hkeep. unfold kept. rewrite Ep, Ho. reflexivity.
Qed.

End CleanupFacts.

(** X29: [cleanup_temp_files] never raises and creates nothing.  A file that
    it removes has a name that starts with [meeting_], is older than the
    limit, and its removal did not fail.  When no call fails on the files of
    the directory, exactly these files are removed; a failure on one file
    ends the clean-up without a report, and the files after it stay. *)
Theorem cleanup_removes_old_meeting_files (ce : TempFiles.cleanup_env)
  (dir : list pystr) :
  let remaining := TempFiles.cleanup_temp_files ce dir in
  (forall f, In f remaining -> In f dir) /\
  (forall f, In f dir -> ~ In f remaining ->
     startswith (cp "meeting_") f = true /\
     TempFiles.too_old ce f = Return true /\
     TempFiles.remove_error ce f = None) /\
  (NoDup dir ->
   TempFiles.listdir_error ce = None ->
   (forall f, In f dir -> startswith (cp "meeting_") f = true ->
              TempFiles.no_failure ce f) ->
   remaining = filter (TempFiles.kept ce) dir) /\
  (forall (earlier rest : list pystr) (f msg : pystr),
     NoDup dir ->
     TempFiles.listdir_error ce = None ->
     dir = earlier ++ f :: rest ->
     startswith (cp "meeting_") f = true ->
     TempFiles.too_old ce f = Raise msg ->
     forall g, In g rest -> In g remaining).
Proof.
  intro remaining. subst remaining. unfold TempFiles.cleanup_temp_files.
  split; [|split; [|split]].
  - intros f. destruct (TempFiles.listdir_error ce); [tauto|].
    apply (cleanup_loop_removes ce dir dir f).
  - intros f H1 H2. destruct (TempFiles.listdir_error ce); [contradiction|].
    apply (proj2 (cleanup_loop_removes ce dir dir f) H1 H2).
  - intros Hnd -> Hok.
    rewrite (cleanup_loop_complete ce dir dir Hnd (fun f H => H) Hok).
    apply filter_ext_in_bool. intros f Hf.
    now rewrite (proj2 (in_dir_In f dir) Hf).
  - intros earlier rest f msg Hnd -> -> Hp Ho g Hg.
    apply (cleanup_loop_stops ce f msg g rest Hp Ho).
    + apply in_or_app. right. now right.
    + intro Hb.
      apply (nodup_app_disjoint earlier (f :: rest) g Hnd Hb). now right.
Qed.

(** Three old files, the second of which cannot be removed: the first is
    removed, the third stays. *)
Example cleanup_stops_at_locked_file :
  TempFiles.cleanup_temp_files TempFiles.locked_file
    [cp "meeting_a.pdf"; cp "meeting_b.pdf"; cp "meeting_c.pdf"; cp "notes.txt"] =
    [cp "meeting_b.pdf"; cp "meeting_c.pdf"; cp "notes.txt"].
Proof. vm_compute. reflexivity. Qed.
